(** * RabbitMQ queue-segment recovery: a shallow embedding

    The two recovery scripts of the repository are embedded as Rocq
    functions:

    - [rabbitmq_recovery.py]        (marker scan, "Strategy A")  in [RabbitmqRecovery];
    - [recovery_improved_json.py]   (entry decoding, "Strategy B") in [RecoveryImprovedJson].

    Python [bytes] objects are lists of [byte]; Python [int]s are [Z];
    Python [str] objects are lists of code points.  Loops that jump
    ([while] with a moving cursor) are driven by a fuel that is proved
    sufficient; [for ... in range(...)] loops are structural.  The
    broker at the other end of the channel is a parameter ([Broker]): a
    call of [basic_publish] returns or raises, and an exception goes to
    the [except] clause that the script has around the call. *)

From Stdlib Require Import ZArith Bool Lia Strings.Byte Strings.Ascii
  Strings.String List Sorting.Sorted Sorting.Permutation.
Import ListNotations.

Open Scope Z_scope.

(** ** Python runtime primitives used by the scripts *)

Module Py.

Definition bytes := list byte.

(** A Python [str]: the sequence of its code points. *)
Definition str := list Z.

(** The integer value of one byte, [data[i]] in Python. *)
Definition byte_val (b : byte) : Z := Z.of_N (Byte.to_N b).

(** [len(x)]. *)
Definition len {A : Type} (l : list A) : Z := Z.of_nat (length l).

(** [data[i]] for a non-negative index; [None] stands for [IndexError].
    (The scripts never index with a negative number.) *)
Definition getitem {A : Type} (l : list A) (i : Z) : option A :=
  if i <? 0 then None else nth_error l (Z.to_nat i).

(** [data[lo:hi]] for non-negative bounds: Python clamps both bounds to
    the length of the sequence and returns an empty slice when
    [hi <= lo]. *)
Definition slice {A : Type} (l : list A) (lo hi : Z) : list A :=
  firstn (Z.to_nat (hi - lo)) (skipn (Z.to_nat lo) l).

(** [data[lo:]] and [data[:hi]] for non-negative bounds. *)
Definition slice_from {A : Type} (l : list A) (lo : Z) : list A :=
  skipn (Z.to_nat lo) l.

Definition slice_to {A : Type} (l : list A) (hi : Z) : list A :=
  firstn (Z.to_nat hi) l.

(** [data[-n:]] for a positive [n]: the last [n] elements, or everything
    when the sequence is shorter. *)
Definition slice_last {A : Type} (l : list A) (n : Z) : list A :=
  skipn (Z.to_nat (len l - n)) l.

(** [int.from_bytes(b, byteorder='big')]. *)
Definition int_from_bytes_big (b : bytes) : Z :=
  fold_left (fun acc x => acc * 256 + byte_val x) b 0.

(** [range(n)] as a list. *)
Definition range (n : Z) : list Z :=
  map Z.of_nat (seq 0 (Z.to_nat n)).

(** The byte with a given value (values above 255 do not occur). *)
Definition byte_of (n : Z) : byte :=
  match Byte.of_N (Z.to_N n) with Some b => b | None => x00 end.

(** An ASCII literal as a byte string and as a [str]. *)
Definition b_ (s : string) : bytes := list_byte_of_string s.

Definition s_ (s : string) : str := map byte_val (list_byte_of_string s).

(** *** Exceptions *)

Inductive exn : Type :=
| IndexError
| ValueError
| UnicodeDecodeError
| OSError
| AMQPError.

(** The result of a computation that can raise.  [OutOfFuel] is the
    answer of a fuel-driven loop whose fuel ran out; the loops below are
    proved never to give it. *)
Inductive result (A : Type) : Type :=
| Ok (a : A)
| Raise (e : exn)
| OutOfFuel.

Arguments Ok {A} a.
Arguments Raise {A} e.
Arguments OutOfFuel {A}.

Definition bind {A B : Type} (m : result A) (k : A -> result B) : result B :=
  match m with
  | Ok a => k a
  | Raise e => Raise e
  | OutOfFuel => OutOfFuel
  end.

Notation "x <- m ;; k" := (bind m (fun x => k))
  (at level 61, m at next level, right associativity).

(** *** Searching in byte strings *)

Definition byte_eqb (a b : byte) : bool := byte_val a =? byte_val b.

(** [data.startswith(sub)]. *)
Fixpoint startswith (data sub : bytes) : bool :=
  match sub, data with
  | [], _ => true
  | _ :: _, [] => false
  | x :: sub', y :: data' => byte_eqb x y && startswith data' sub'
  end.

(** First occurrence of [sub] in [l], where [l] begins at index [i] of
    the whole string; [-1] when there is none. *)
Fixpoint find_at (sub l : bytes) (i : Z) : Z :=
  if startswith l sub then i
  else match l with
       | [] => -1
       | _ :: l' => find_at sub l' (i + 1)
       end.

(** [data.find(sub, start)] for a non-negative [start]. *)
Definition find (data sub : bytes) (start : Z) : Z :=
  if start >? len data then -1
  else find_at sub (slice_from data start) start.

(** Last occurrence of [sub] in [l], where [l] begins at index [i]. *)
Fixpoint rfind_at (sub l : bytes) (i : Z) : Z :=
  match l with
  | [] => if startswith l sub then i else -1
  | _ :: l' =>
      let r := rfind_at sub l' (i + 1) in
      if r =? -1 then (if startswith l sub then i else -1) else r
  end.

(** [data.rfind(sub, start, end)] for non-negative bounds: the search is
    confined to [data[start:end]], the answer is an index of [data]. *)
Definition rfind (data sub : bytes) (start stop : Z) : Z :=
  if start >? len data then -1
  else rfind_at sub (slice data start stop) start.

(** [sub in data]. *)
Definition contains (sub data : bytes) : bool :=
  negb (find data sub 0 =? -1).

(** *** Stripping *)

(** Drop the longest suffix whose elements satisfy [p]. *)
Definition rstrip_with {A : Type} (p : A -> bool) (l : list A) : list A :=
  fold_right (fun x acc =>
                match acc with
                | [] => if p x then [] else [x]
                | _ :: _ => x :: acc
                end) [] l.

Fixpoint lstrip_with {A : Type} (p : A -> bool) (l : list A) : list A :=
  match l with
  | [] => []
  | x :: l' => if p x then lstrip_with p l' else l
  end.

Definition strip_with {A : Type} (p : A -> bool) (l : list A) : list A :=
  rstrip_with p (lstrip_with p l).

(** Whitespace for [bytes.strip()]: space, tab, newline, return,
    vertical tab, form feed. *)
Definition bytes_isspace (b : byte) : bool :=
  let v := byte_val b in
  (v =? 32) || ((9 <=? v) && (v <=? 13)).

Definition bytes_strip (data : bytes) : bytes := strip_with bytes_isspace data.

(** *** Characters *)

(** Whitespace for [str.strip()] and [int()]: the code points CPython
    lists as whitespace. *)
Definition isspace (c : Z) : bool :=
  ((9 <=? c) && (c <=? 13)) || ((28 <=? c) && (c <=? 32))
  || (c =? 133) || (c =? 160) || (c =? 5760)
  || ((8192 <=? c) && (c <=? 8202))
  || (c =? 8232) || (c =? 8233) || (c =? 8239) || (c =? 8287) || (c =? 12288).

(** The part of the interpreter's Unicode character database that the
    scripts consult for code points outside ASCII.  It is a parameter of
    the development; the one law recorded here, that no alphanumeric code
    point is whitespace, holds of every version of the database. *)
Class UnicodeDB : Type := {
  uni_isprintable : Z -> bool;
  uni_isalnum : Z -> bool;
  uni_decimal : Z -> option Z;
  uni_alnum_not_space : forall c, uni_isalnum c = true -> isspace c = false
}.

(** A database that knows no character outside ASCII; it serves to run
    the scripts on ASCII data, where the database is not consulted. *)
Definition ascii_only_db : UnicodeDB :=
  {| uni_isprintable := fun _ => false;
     uni_isalnum := fun _ => false;
     uni_decimal := fun _ => None;
     uni_alnum_not_space := fun c (H : false = true) =>
       False_ind (isspace c = false) (Bool.diff_false_true H) |}.

Section Characters.
Context {db : UnicodeDB}.

(** [c.isprintable()] for one code point. *)
Definition isprintable (c : Z) : bool :=
  if c <? 128 then (32 <=? c) && (c <=? 126) else uni_isprintable c.

(** [c.isalnum()] for one code point. *)
Definition char_isalnum (c : Z) : bool :=
  if c <? 128
  then ((48 <=? c) && (c <=? 57)) || ((65 <=? c) && (c <=? 90))
       || ((97 <=? c) && (c <=? 122))
  else uni_isalnum c.

(** [s.isalnum()]: at least one character, all alphanumeric. *)
Definition isalnum (s : str) : bool :=
  match s with
  | [] => false
  | _ :: _ => forallb char_isalnum s
  end.

(** The value of a decimal digit, as [int()] reads it. *)
Definition decimal_value (c : Z) : option Z :=
  if c <? 128
  then (if (48 <=? c) && (c <=? 57) then Some (c - 48) else None)
  else uni_decimal c.

End Characters.

(** [s.strip()]. *)
Definition str_strip (s : str) : str := strip_with isspace s.

(** [s.replace(c, '')] for a one-character [c]. *)
Definition remove_char (c : Z) (s : str) : str :=
  filter (fun x => negb (x =? c)) s.

(** [sum(1 for x in l if p(x))]. *)
Definition count_if {A : Type} (p : A -> bool) (l : list A) : Z :=
  len (filter p l).

(** *** The UTF-8 codec *)

(** What the decoder finds at the head of its input: a character that
    takes [n] bytes, or an invalid run of [n] bytes (the span handed to
    the error handler). *)
Inductive utf8_item : Type :=
| U8Char (cp : Z) (n : nat)
| U8Bad (n : nat)
| U8End.

Definition is_cont (v : Z) : bool := (128 <=? v) && (v <? 192).

Definition utf8_next (l : bytes) : utf8_item :=
  match map byte_val l with
  | [] => U8End
  | ch :: rest =>
      if ch <? 128 then U8Char ch 1
      else if ch <? 224 then
        if ch <? 194 then U8Bad 1
        else match rest with
             | [] => U8Bad 1
             | c2 :: _ =>
                 if is_cont c2
                 then U8Char (Z.lor (Z.shiftl (Z.land ch 31) 6) (Z.land c2 63)) 2
                 else U8Bad 1
             end
      else if ch <? 240 then
        let bad2 c2 :=
          negb (is_cont c2) || (if c2 <? 160 then ch =? 224 else ch =? 237) in
        match rest with
        | [] => U8Bad 1
        | [c2] => if bad2 c2 then U8Bad 1 else U8Bad 2
        | c2 :: c3 :: _ =>
            if bad2 c2 then U8Bad 1
            else if is_cont c3
            then U8Char (Z.lor (Z.shiftl (Z.land ch 15) 12)
                           (Z.lor (Z.shiftl (Z.land c2 63) 6) (Z.land c3 63))) 3
            else U8Bad 2
        end
      else if ch <? 245 then
        let bad2 c2 :=
          negb (is_cont c2) || (if c2 <? 144 then ch =? 240 else ch =? 244) in
        match rest with
        | [] => U8Bad 1
        | [c2] => if bad2 c2 then U8Bad 1 else U8Bad 2
        | [c2; c3] =>
            if bad2 c2 then U8Bad 1
            else if is_cont c3 then U8Bad 3 else U8Bad 2
        | c2 :: c3 :: c4 :: _ =>
            if bad2 c2 then U8Bad 1
            else if negb (is_cont c3) then U8Bad 2
            else if negb (is_cont c4) then U8Bad 3
            else U8Char (Z.lor (Z.shiftl (Z.land ch 7) 18)
                           (Z.lor (Z.shiftl (Z.land c2 63) 12)
                              (Z.lor (Z.shiftl (Z.land c3 63) 6) (Z.land c4 63)))) 4
        end
      else U8Bad 1
  end.

(** How undecodable runs are treated. *)
Inductive errors_mode : Type := Strict | Ignore | Replace.

(** [data.decode('utf-8', errors=mode)]; [None] is [UnicodeDecodeError].
    Every step consumes at least one byte, so the length of the input is
    enough fuel; the final [[]] is never reached with that fuel. *)
Fixpoint decode_loop (fuel : nat) (mode : errors_mode) (l : bytes)
  : option str :=
  match fuel with
  | O => Some []
  | S fuel' =>
      match utf8_next l with
      | U8End => Some []
      | U8Char cp n =>
          option_map (cons cp) (decode_loop fuel' mode (skipn n l))
      | U8Bad n =>
          match mode with
          | Strict => None
          | Ignore => decode_loop fuel' mode (skipn n l)
          | Replace =>
              option_map (cons 65533) (decode_loop fuel' mode (skipn n l))
          end
      end
  end.

Definition utf8_decode (mode : errors_mode) (data : bytes) : option str :=
  decode_loop (length data) mode data.

(** [s.encode('utf-8')]; [None] is [UnicodeEncodeError] (a surrogate or
    a value that is no code point). *)
Definition encode_char (c : Z) : option bytes :=
  if c <? 0 then None
  else if c <? 128 then Some [byte_of c]
  else if c <? 2048 then
    Some [byte_of (192 + Z.shiftr c 6); byte_of (128 + Z.land c 63)]
  else if c <? 65536 then
    if (55296 <=? c) && (c <? 57344) then None
    else Some [byte_of (224 + Z.shiftr c 12);
               byte_of (128 + Z.land (Z.shiftr c 6) 63);
               byte_of (128 + Z.land c 63)]
  else if c <? 1114112 then
    Some [byte_of (240 + Z.shiftr c 18);
          byte_of (128 + Z.land (Z.shiftr c 12) 63);
          byte_of (128 + Z.land (Z.shiftr c 6) 63);
          byte_of (128 + Z.land c 63)]
  else None.

Fixpoint utf8_encode (s : str) : option bytes :=
  match s with
  | [] => Some []
  | c :: s' =>
      match encode_char c, utf8_encode s' with
      | Some b, Some r => Some (b ++ r)
      | _, _ => None
      end
  end.

End Py.

Import Py.

(** ** What the two scripts have verbatim in common *)

Module Shared.

(** The parsed command line ([argparse.Namespace]), as far as the
    recovery reads it. *)
Record config : Type := {
  dry_run : bool;
  verbose : bool;
  file_limit : Z;
  message_limit : Z;
  exchange : str;
  routing_key : str;
  queue : str
}.

Inductive content_type : Type :=
| ApplicationJson
| TextPlain.

(** One call of [channel.basic_publish]. *)
Record publication : Type := {
  pub_exchange : str;
  pub_routing_key : str;
  pub_body : str;
  pub_delivery_mode : Z;
  pub_content_type : content_type
}.

(** The destination broker: the publications it has received, oldest
    first. *)
Definition sink := list publication.

(** The broker at the other end of the channel.  A call of
    [channel.basic_publish] either returns, and the broker has received
    the message, or raises (a closed channel, a lost connection); which
    of the two depends on what the broker has received so far and on the
    message.  The broker is a parameter of the development. *)
Class Broker : Type := {
  accepts : sink -> publication -> bool
}.

(** [channel.basic_publish(...)]: the sink afterwards, or the exception
    that leaves the call. *)
Definition basic_publish {br : Broker} (out : sink) (p : publication)
  : result sink :=
  if accepts out p then Ok (out ++ [p]) else Raise AMQPError.

(** The broker that accepts every message, and the broker that raises
    once it has received [capacity] messages. *)
Definition accepting_broker : Broker := {| accepts := fun _ _ => true |}.

Definition broker_of_capacity (capacity : Z) : Broker :=
  {| accepts := fun out _ => len out <? capacity |}.

(** The file system: the content of a path, or [None] when opening or
    reading it fails. *)
Definition filesystem := str -> option bytes.

(** [self.config.routing_key or self.config.queue]. *)
Definition effective_routing_key (cfg : config) : str :=
  match routing_key cfg with
  | [] => queue cfg
  | _ :: _ => routing_key cfg
  end.

(** *** Strings and paths *)

Fixpoint str_startswith (s prefix : str) : bool :=
  match prefix, s with
  | [], _ => true
  | _ :: _, [] => false
  | x :: prefix', y :: s' => (x =? y) && str_startswith s' prefix'
  end.

(** [s.endswith(suffix)]. *)
Definition str_endswith (s suffix : str) : bool :=
  str_startswith (rev s) (rev suffix).

(** [s.split(sep)[0]] for a one-character [sep]. *)
Fixpoint split_head (sep : Z) (s : str) : str :=
  match s with
  | [] => []
  | c :: s' => if c =? sep then [] else c :: split_head sep s'
  end.

(** [os.path.join(a, p)] (POSIX). *)
Definition path_join (a p : str) : str :=
  if str_startswith p (s_ "/") then p
  else if match a with [] => true | _ :: _ => false end
          || str_endswith a (s_ "/")
  then a ++ p
  else a ++ s_ "/" ++ p.

(** [os.path.basename(p)] (POSIX): what follows the last slash. *)
Fixpoint basename (p : str) : str :=
  match p with
  | [] => []
  | c :: p' =>
      if existsb (fun x => x =? 47) p' then basename p'
      else if c =? 47 then p' else p
  end.

Section Catalog.
Context {db : UnicodeDB}.

(** Whitespace for [int()]. *)
Definition int_isspace (c : Z) : bool :=
  if c <? 127 then (c =? 32) || ((9 <=? c) && (c <=? 13)) else isspace c.

(** Digits with single underscores between them. *)
Fixpoint parse_digits (l : str) (acc : Z) (after_digit : bool) : option Z :=
  match l with
  | [] => if after_digit then Some acc else None
  | c :: l' =>
      if c =? 95 then (if after_digit then parse_digits l' acc false else None)
      else match decimal_value c with
           | Some d => parse_digits l' (acc * 10 + d) true
           | None => None
           end
  end.

(** [int(s)] for a [str]: surrounding whitespace, an optional sign,
    decimal digits.  (File names are far shorter than the interpreter's
    limit on the number of digits.) *)
Definition py_int (s : str) : result Z :=
  let t := strip_with int_isspace s in
  let parsed :=
    match t with
    | c :: r =>
        if c =? 43 then parse_digits r 0 false
        else if c =? 45 then option_map Z.opp (parse_digits r 0 false)
        else parse_digits t 0 false
    | [] => None
    end in
  match parsed with
  | Some n => Ok n
  | None => Raise ValueError
  end.

(** The sort key of [scan_files]:
    [int(os.path.basename(f).split('.')[0])]. *)
Definition sequence_number (f : str) : result Z :=
  py_int (split_head 46 (basename f)).

(** [list.sort(key=...)]: the keys are computed first, left to right,
    and an exception of the key function leaves the sort; then the list
    is sorted stably by ascending key. *)
Fixpoint with_keys (l : list str) : result (list (Z * str)) :=
  match l with
  | [] => Ok []
  | f :: l' =>
      k <- sequence_number f ;;
      r <- with_keys l' ;;
      Ok ((k, f) :: r)
  end.

Fixpoint insert_keyed (x : Z * str) (l : list (Z * str)) : list (Z * str) :=
  match l with
  | [] => [x]
  | y :: l' => if fst x <=? fst y then x :: l else y :: insert_keyed x l'
  end.

Definition sort_keyed (l : list (Z * str)) : list (Z * str) :=
  fold_right insert_keyed [] l.

(** [scan_files], given what [os.listdir(directory)] returned: the new
    value of [self.qs_files], or the exception that leaves the function. *)
Definition scan_files (directory : str) (listing : list str)
  : result (list str) :=
  let qs_files :=
    map (path_join directory)
        (filter (fun filename => str_endswith filename (s_ ".qs")) listing) in
  keyed <- with_keys qs_files ;;
  Ok (map snd (sort_keyed keyed)).

End Catalog.

(** [a == b] on strings. *)
Fixpoint str_eqb (a b : str) : bool :=
  match a, b with
  | [], [] => true
  | x :: a', y :: b' => (x =? y) && str_eqb a' b'
  | _, _ => false
  end.

(** [l.index(x)]; [ValueError] when [x] is not in [l]. *)
Fixpoint index_of (l : list str) (x : str) : result Z :=
  match l with
  | [] => Raise ValueError
  | y :: l' =>
      if str_eqb y x then Ok 0
      else i <- index_of l' x ;; Ok (i + 1)
  end.

(** The test that opens the body of the loop of [process_files]:
    [file_limit > 0 and len(qs_files[:qs_files.index(qs_file)+1]) > file_limit]. *)
Definition file_limit_reached (cfg : config) (qs_files : list str)
  (qs_file : str) : result bool :=
  if file_limit cfg >? 0 then
    i <- index_of qs_files qs_file ;;
    Ok (len (slice_to qs_files (i + 1)) >? file_limit cfg)
  else Ok false.

(** The test that closes it:
    [message_limit > 0 and total_published >= message_limit]. *)
Definition message_limit_reached (cfg : config) (published : Z) : bool :=
  (message_limit cfg >? 0) && (published >=? message_limit cfg).

(** *** [print_hex_dump] *)

(** One lowercase hexadecimal digit, as a character. *)
Definition hex_digit (d : Z) : Z := if d <? 10 then 48 + d else 87 + d.

(** The digits of a non-negative integer, the most significant first,
    in front of [acc]. *)
Fixpoint hex_digits (fuel : nat) (n : Z) (acc : str) : str :=
  match fuel with
  | O => acc
  | S fuel' =>
      if n <? 16 then hex_digit n :: acc
      else hex_digits fuel' (n / 16) (hex_digit (n mod 16) :: acc)
  end.

(** [format(n, 'x')] for a non-negative [n].  A number of [b] binary
    digits has at most [b / 4 + 1] hexadecimal digits, which is the
    fuel. *)
Definition hex (n : Z) : str :=
  hex_digits (S (Z.to_nat (Z.log2 n / 4))) n [].

(** Padding with zeros on the left and with spaces on the right. *)
Definition zfill (width : nat) (s : str) : str :=
  repeat 48 (width - length s) ++ s.

Definition ljust (width : nat) (s : str) : str :=
  s ++ repeat 32 (width - length s).

(** [f'{n:08x}']; for a negative number the sign counts for the width. *)
Definition format_08x (n : Z) : str :=
  if n <? 0 then 45 :: zfill 7 (hex (- n)) else zfill 8 (hex n).

(** [f'{b:02x}'] for a byte. *)
Definition format_02x (b : byte) : str := zfill 2 (hex (byte_val b)).

(** [sep.join(parts)]. *)
Fixpoint join (sep : str) (parts : list str) : str :=
  match parts with
  | [] => []
  | part :: rest =>
      match rest with
      | [] => part
      | _ :: _ => part ++ sep ++ join sep rest
      end
  end.

(** [chr(b) if 32 <= b <= 126 else '.'] for the bytes of a chunk. *)
Definition ascii_column (chunk : bytes) : str :=
  map (fun b => if (32 <=? byte_val b) && (byte_val b <=? 126)
                then byte_val b else 46) chunk.

(** The line that one iteration prints. *)
Definition hex_dump_line (data : bytes) (start i : Z) : str :=
  let chunk := slice data i (i + 16) in
  let hex_part := join (s_ " ") (map format_02x chunk) in
  let ascii_part := ascii_column chunk in
  format_08x (start + i) ++ s_ "  " ++ ljust 48 hex_part ++ s_ " | "
  ++ ascii_part.

(** [range(0, stop, 16)]. *)
Definition range_by_16 (stop : Z) : list Z :=
  map (fun k => 16 * k) (range ((stop + 15) / 16)).

(** [print_hex_dump(data, start, length)]: the lines it prints, in
    order. *)
Definition print_hex_dump (data : bytes) (start length : Z) : list str :=
  map (hex_dump_line data start) (range_by_16 (Z.min length (len data))).

End Shared.

Import Shared.

(** ** rabbitmq_recovery.py *)

Module RabbitmqRecovery.

(** [data[i] == tag and data[i+1] == 0 and data[i+2] == 0 and data[i+3] == 0],
    with the short-circuit evaluation of [and]. *)
Definition marker_at (data : bytes) (tag : Z) (i : Z) : result bool :=
  let is_byte (j v : Z) : result bool :=
    match getitem data j with
    | Some b => Ok (byte_val b =? v)
    | None => Raise IndexError
    end in
  b0 <- is_byte i tag ;;
  if negb b0 then Ok false else
  b1 <- is_byte (i + 1) 0 ;;
  if negb b1 then Ok false else
  b2 <- is_byte (i + 2) 0 ;;
  if negb b2 then Ok false else
  is_byte (i + 3) 0.

(** One of the two marker loops: the positions [i] of [indices], in
    order, at which the [if] or the [elif] test holds.  Both tests
    compare with the same byte value ([0x6d] is [ord('m')], [0x74] is
    [ord('t')]). *)
Fixpoint marker_positions (data : bytes) (tag : Z) (indices : list Z)
  : result (list Z) :=
  match indices with
  | [] => Ok []
  | i :: rest =>
      hit <- marker_at data tag i ;;
      hit <- (if hit then Ok true else marker_at data tag i) ;;
      r <- marker_positions data tag rest ;;
      Ok (if hit then i :: r else r)
  end.

(** The message, if any, that the loop body cuts out for one start
    marker. *)
Definition message_at (data : bytes) (end_positions : list Z) (start_pos : Z)
  : option bytes :=
  match List.find (fun end_pos => end_pos >? start_pos) end_positions with
  | None => None
  | Some next_end_pos =>
      let json_start := find data (b_ "{") start_pos in
      if (json_start >? start_pos) && (json_start <? next_end_pos) then
        let json_end := rfind data (b_ "}}") json_start next_end_pos in
        if json_end >? json_start
        then Some (slice data json_start (json_end + 2))
        else None
      else None
  end.

Section MarkerPipeline.
Context {br : Broker}.

(** The publishing loop over the start markers.  The body of the loop is
    a [try] whose [except Exception] prints and goes on with the next
    start marker: a call of [basic_publish] that raises leaves the count
    as it is. *)
Fixpoint publish_messages (cfg : config) (data : bytes)
  (end_positions start_positions : list Z) (messages_published : Z)
  (out : sink) : Z * sink :=
  match start_positions with
  | [] => (messages_published, out)
  | start_pos :: rest =>
      match message_at data end_positions start_pos with
      | None => publish_messages cfg data end_positions rest
                  messages_published out
      | Some message_content =>
          match utf8_decode Replace message_content with
          | None =>
              publish_messages cfg data end_positions rest
                messages_published out
          | Some content_str =>
              let published :=
                if dry_run cfg then Ok out
                else basic_publish out
                       {| pub_exchange := exchange cfg;
                          pub_routing_key := effective_routing_key cfg;
                          pub_body := content_str;
                          pub_delivery_mode := 2;
                          pub_content_type := ApplicationJson |} in
              match published with
              | Ok out =>
                  publish_messages cfg data end_positions rest
                    (messages_published + 1) out
              | Raise _ | OutOfFuel =>
                  publish_messages cfg data end_positions rest
                    messages_published out
              end
          end
      end
  end.

(** [extract_and_publish_exact_markers]: the number it returns and the
    sink afterwards.  Every exception is caught by the outer [except]
    and turned into the answer 0. *)
Definition extract_and_publish_exact_markers (cfg : config)
  (fs : filesystem) (file_path : str) (out : sink) : Z * sink :=
  match fs file_path with
  | None => (0, out)
  | Some file_data =>
      let data := slice_from file_data 64 in
      match marker_positions data 109 (range (len data - 4)) with
      | Ok start_positions =>
          match marker_positions data 116 (range (len data - 4)) with
          | Ok end_positions =>
              publish_messages cfg data end_positions start_positions 0 out
          | _ => (0, out)
          end
      | _ => (0, out)
      end
  end.

(** [process_files]: the loop over [self.qs_files], from the files still
    to visit; the total it prints and the sink afterwards. *)
Fixpoint process_loop (cfg : config) (fs : filesystem) (qs_files : list str)
  (todo : list str) (total_published : Z) (out : sink) : result Z * sink :=
  match todo with
  | [] => (Ok total_published, out)
  | qs_file :: rest =>
      match file_limit_reached cfg qs_files qs_file with
      | Ok true => (Ok total_published, out)
      | Ok false =>
          let '(count, out) :=
            extract_and_publish_exact_markers cfg fs qs_file out in
          let total_published := total_published + count in
          if message_limit_reached cfg total_published
          then (Ok total_published, out)
          else process_loop cfg fs qs_files rest total_published out
      | Raise e => (Raise e, out)
      | OutOfFuel => (OutOfFuel, out)
      end
  end.

Definition process_files (cfg : config) (fs : filesystem)
  (qs_files : list str) (out : sink) : result Z * sink :=
  process_loop cfg fs qs_files qs_files 0 out.

(** [main] after the connection is set up: [scan_files], then
    [process_files].  Neither call is inside a [try]; an exception of
    [scan_files] ends the run before any file is processed. *)
Definition main {db : UnicodeDB} (cfg : config) (fs : filesystem)
  (directory : str) (listing : list str) (out : sink) : result Z * sink :=
  match scan_files directory listing with
  | Ok qs_files => process_files cfg fs qs_files out
  | Raise e => (Raise e, out)
  | OutOfFuel => (OutOfFuel, out)
  end.

End MarkerPipeline.

End RabbitmqRecovery.

(** ** recovery_improved_json.py *)

Module RecoveryImprovedJson.

(** *** EntryDecoder: one iteration of the cursor loop of
    [extract_messages_from_erlang_entries] *)

(** [10*1024*1024], the largest entry size that is taken seriously. *)
Definition MAX_ENTRY_SIZE : Z := 10 * 1024 * 1024.

(** How one iteration of [while pos < len(file_data)] ends, as far as
    the cursor is concerned. *)
Inductive entry_outcome : Type :=
| LoopEnd                                  (* the [while] test fails *)
| BreakShortHeader                         (* [pos + 8 > len]: break *)
| Resync (pos' : Z)                        (* bad size: [pos += 8; continue] *)
| BreakTruncated                           (* [pos + size > len]: break *)
| Entry (msg_data : bytes) (pos' : Z)      (* body sliced, cursor past it *)
| RaiseIndexError.                         (* [file_data[pos+4]] out of range *)

(** The iteration itself.  Next to the outcome it returns the list of
    half-open index ranges [(lo, hi)] of [file_data] that the iteration
    reads, in program order: the four size bytes, the flags byte, and
    the entry body. *)
Definition entry_step (file_data : bytes) (pos : Z)
  : list (Z * Z) * entry_outcome :=
  if negb (pos <? len file_data) then ([], LoopEnd)
  else if pos + 8 >? len file_data then ([], BreakShortHeader)
  else
    let size := int_from_bytes_big (slice file_data pos (pos + 4)) in
    let header_reads := [(pos, pos + 4); (pos + 4, pos + 5)] in
    match getitem file_data (pos + 4) with
    | None => (header_reads, RaiseIndexError)
    | Some flags =>
        if (size =? 0) || (size >? MAX_ENTRY_SIZE)
        then (header_reads, Resync (pos + 8))
        else
          let pos1 := pos + 8 in
          if pos1 + size >? len file_data then (header_reads, BreakTruncated)
          else (header_reads ++ [(pos1, pos1 + size)],
                Entry (slice file_data pos1 (pos1 + size)) (pos1 + size))
    end.

(** *** ContentSanitizer: [find_json_end] and [clean_message_content] *)

(** [chr(byte) if byte < 128 else None], as a code. *)
Definition char_of (b : byte) : option Z :=
  if byte_val b <? 128 then Some (byte_val b) else None.

(** [char == c] for an ASCII character [c]. *)
Definition char_is (char : option Z) (c : Z) : bool :=
  match char with
  | Some v => v =? c
  | None => false
  end.

(** The body of [for i in range(start, len(data))], run over the bytes
    from index [i] on.  [Some e] is [return e]; [None] means that the
    loop ran to its end. *)
Fixpoint json_scan (l : bytes) (i : Z) (depth : Z) (in_string escape : bool)
  : option Z :=
  match l with
  | [] => None
  | byte :: l' =>
      let char := char_of byte in
      if escape then json_scan l' (i + 1) depth in_string false
      else if char_is char 92 && in_string
      then json_scan l' (i + 1) depth in_string true
      else if char_is char 34
      then json_scan l' (i + 1) depth (negb in_string) escape
      else if negb in_string then
        if char_is char 123
        then json_scan l' (i + 1) (depth + 1) in_string escape
        else if char_is char 125 then
          let depth := depth - 1 in
          if depth =? 0 then Some (i + 1)
          else json_scan l' (i + 1) depth in_string escape
        else json_scan l' (i + 1) depth in_string escape
      else json_scan l' (i + 1) depth in_string escape
  end.

Definition find_json_end (data : bytes) (start : Z) : Z :=
  match json_scan (slice_from data start) start 0 false false with
  | Some e => e
  | None => len data
  end.

(** Which of the three strategies of [clean_message_content] produced
    the result. *)
Inductive sanitize_branch : Type :=
| JsonBranch
| XmlBranch
| PlainTextBranch.

(** [range(len(decoded)-1, -1, -1)] with [break] at the first hit: one
    past the index of the last element that satisfies [p], or the default
    when there is none. *)
Definition printable_end_of {A : Type} (p : A -> bool) (l : list A) : Z :=
  len (rstrip_with (fun x => negb (p x)) l).

(** Strategy 1 of [clean_message_content]: the slice it returns, or
    [None] when control falls through to the next strategy. *)
Definition clean_json (raw_content : bytes) : option bytes :=
  if contains (b_ "{") raw_content then
    let json_start := find raw_content (b_ "{") 0 in
    let json_end := find_json_end raw_content json_start in
    if json_end >? json_start
    then Some (slice raw_content json_start json_end)
    else None
  else None.

(** Strategy 2, likewise. *)
Definition clean_xml (raw_content : bytes) : option bytes :=
  if contains (b_ "<") raw_content then
    let xml_start := find raw_content (b_ "<") 0 in
    let xml_end := rfind raw_content (b_ ">") 0 (len raw_content) in
    if xml_end >? xml_start
    then Some (slice raw_content xml_start (xml_end + 1))
    else None
  else None.

Section Sanitizer.
Context {db : UnicodeDB}.

(** Strategy 3 of [clean_message_content]. *)
Definition clean_plain_text (raw_content : bytes) : bytes :=
  let content := bytes_strip raw_content in
  let content :=
    if contains (b_ "jt") (slice_last content 20)
    then slice_to content (rfind content (b_ "jt") 0 (len content))
    else content in
  match utf8_decode Ignore content with
  | None => content
  | Some decoded =>
      let keep c := isprintable c || (c =? 10) || (c =? 13) || (c =? 9) in
      let printable_end :=
        if existsb keep decoded then printable_end_of keep decoded
        else len decoded in
      match utf8_encode (slice_to decoded printable_end) with
      | Some content' => content'
      | None => content
      end
  end.

(** [clean_message_content], together with the strategy that returned. *)
Definition clean_message_content_via (raw_content : bytes)
  : sanitize_branch * bytes :=
  match clean_json raw_content with
  | Some r => (JsonBranch, r)
  | None =>
      match clean_xml raw_content with
      | Some r => (XmlBranch, r)
      | None => (PlainTextBranch, clean_plain_text raw_content)
      end
  end.

Definition clean_message_content (raw_content : bytes) : bytes :=
  snd (clean_message_content_via raw_content).

End Sanitizer.

(** *** TermPayloadExtractor: [extract_payload_from_erlang] *)

(** [1024*1024], the largest binary that is taken seriously. *)
Definition MAX_BINARY_SIZE : Z := 1024 * 1024.

(** [sum(1 for b in binary_data[:100] if 32 <= b <= 126)]. *)
Definition printable_count (binary_data : bytes) : Z :=
  count_if (fun b => (32 <=? byte_val b) && (byte_val b <=? 126))
           (slice_to binary_data 100).

(** The body of [while pos < len(data) - 5]: the next position and the
    next value of [largest_binary]. *)
Definition payload_step (data : bytes) (pos : Z) (largest_binary : bytes)
  : result (Z * bytes) :=
  match getitem data pos with
  | None => Raise IndexError
  | Some tag_byte =>
      let tag := byte_val tag_byte in
      if (tag =? 109) || (tag =? 109) then
        if pos + 5 <=? len data then
          let length := int_from_bytes_big (slice data (pos + 1) (pos + 5)) in
          if (10 <=? length) && (length <=? MAX_BINARY_SIZE)
             && (pos + 5 + length <=? len data)
          then
            let binary_data := slice data (pos + 5) (pos + 5 + length) in
            let largest_binary :=
              if len binary_data >? len largest_binary then
                if printable_count binary_data >? 10 then binary_data
                else largest_binary
              else largest_binary in
            Ok (pos + 5 + length, largest_binary)
          else Ok (pos + 1, largest_binary)
        else Ok (pos + 1, largest_binary)
      else Ok (pos + 1, largest_binary)
  end.

Fixpoint payload_loop (fuel : nat) (data : bytes) (pos : Z)
  (largest_binary : bytes) : result bytes :=
  match fuel with
  | O => OutOfFuel
  | S fuel' =>
      if pos <? len data - 5 then
        st <- payload_step data pos largest_binary ;;
        payload_loop fuel' data (fst st) (snd st)
      else Ok largest_binary
  end.

(** The position moves forward in every iteration, so the length of the
    data (plus one for the final test) is enough fuel. *)
Definition extract_payload_from_erlang (data : bytes) : result bytes :=
  payload_loop (S (length data)) data 0 [].

(** *** ContentValidator: [is_valid_content] *)

Section Validator.
Context {db : UnicodeDB}.

(** The test [printable < len(content[:200]) * 0.7] compares an integer
    [p] with the double nearest to [n * 0.7] for an integer [0 <= n <= 200].
    That double lies in [(7n/10 - 1/10, 7n/10]], because the double [0.7]
    is below 7/10 and rounding is monotone, and 7n/10 is at least 1/10
    away from every integer it is not equal to; so the test is the exact
    integer test [10 * p < 7 * n]. *)
Definition is_valid_content (content : str) : bool :=
  if len content <? 10 then false
  else
    let head := slice_to content 200 in
    let printable :=
      count_if (fun c => isprintable c || (c =? 10) || (c =? 13) || (c =? 9))
               head in
    if 10 * printable <? 7 * len head then false
    else if isalnum (remove_char 13 (remove_char 10 (str_strip content)))
            && (len content >? 100)
    then false
    else true.

End Validator.

(** *** The per-file loop and the run *)

Section Pipeline.
Context {db : UnicodeDB} {br : Broker}.

(** What the loop body does with one sliced entry body: the new value of
    [messages_published], whether the message limit makes it [break],
    and the sink afterwards.  A call of [basic_publish] that raises
    leaves the body, and the loop, with its exception. *)
Definition handle_entry (cfg : config) (msg_data : bytes)
  (messages_published : Z) (out : sink) : result (Z * bool) * sink :=
  let msg_data :=
    match msg_data with
    | first :: tail => if byte_val first =? 131 then tail else msg_data
    | [] => msg_data
    end in
  match extract_payload_from_erlang msg_data with
  | Raise e => (Raise e, out)
  | OutOfFuel => (OutOfFuel, out)
  | Ok payload =>
      if match payload with [] => false | _ :: _ => true end
         && (len payload >? 10)
      then
        let clean_payload := clean_message_content payload in
        match utf8_decode Strict clean_payload with
        | None => (Ok (messages_published, false), out)
        | Some content_str =>
            if is_valid_content content_str then
              let published :=
                if dry_run cfg then Ok out
                else basic_publish out
                       {| pub_exchange := exchange cfg;
                          pub_routing_key := effective_routing_key cfg;
                          pub_body := content_str;
                          pub_delivery_mode := 2;
                          pub_content_type :=
                            if str_startswith (str_strip content_str)
                                 (s_ "{")
                            then ApplicationJson else TextPlain |} in
              match published with
              | Ok out =>
                  let messages_published := messages_published + 1 in
                  (Ok (messages_published,
                       message_limit_reached cfg messages_published), out)
              | Raise e => (Raise e, out)
              | OutOfFuel => (OutOfFuel, out)
              end
            else (Ok (messages_published, false), out)
        end
      else (Ok (messages_published, false), out)
  end.

(** [while pos < len(file_data)]. *)
Fixpoint entries_loop (fuel : nat) (cfg : config) (file_data : bytes)
  (pos : Z) (messages_published : Z) (out : sink) : result Z * sink :=
  match fuel with
  | O => (OutOfFuel, out)
  | S fuel' =>
      match snd (entry_step file_data pos) with
      | LoopEnd | BreakShortHeader | BreakTruncated =>
          (Ok messages_published, out)
      | RaiseIndexError => (Raise IndexError, out)
      | Resync pos' =>
          entries_loop fuel' cfg file_data pos' messages_published out
      | Entry msg_data pos' =>
          match handle_entry cfg msg_data messages_published out with
          | (Ok (messages_published, stop), out) =>
              if stop then (Ok messages_published, out)
              else entries_loop fuel' cfg file_data pos' messages_published out
          | (Raise e, out) => (Raise e, out)
          | (OutOfFuel, out) => (OutOfFuel, out)
          end
      end
  end.

(** [extract_messages_from_erlang_entries]: the number it returns and
    the sink afterwards.  An exception, also one of [basic_publish], is
    caught by the outer [except] and turned into the answer 0; what was
    published before it stays published.  The cursor moves forward by at
    least 8 in every iteration, so the length of the file is enough
    fuel. *)
Definition extract_messages_from_erlang_entries (cfg : config)
  (fs : filesystem) (file_path : str) (out : sink) : result Z * sink :=
  match fs file_path with
  | None => (Ok 0, out)
  | Some file_data =>
      match entries_loop (S (length file_data)) cfg file_data 64 0 out with
      | (Ok n, out) => (Ok n, out)
      | (Raise _, out) => (Ok 0, out)
      | (OutOfFuel, out) => (OutOfFuel, out)
      end
  end.

(** [process_files]: the loop over [self.qs_files], from the files still
    to visit; the total it prints and the sink afterwards. *)
Fixpoint process_loop (cfg : config) (fs : filesystem) (qs_files : list str)
  (todo : list str) (total_published : Z) (out : sink) : result Z * sink :=
  match todo with
  | [] => (Ok total_published, out)
  | qs_file :: rest =>
      match file_limit_reached cfg qs_files qs_file with
      | Ok true => (Ok total_published, out)
      | Ok false =>
          match extract_messages_from_erlang_entries cfg fs qs_file out with
          | (Ok count, out) =>
              let total_published := total_published + count in
              if message_limit_reached cfg total_published
              then (Ok total_published, out)
              else process_loop cfg fs qs_files rest total_published out
          | (Raise e, out) => (Raise e, out)
          | (OutOfFuel, out) => (OutOfFuel, out)
          end
      | Raise e => (Raise e, out)
      | OutOfFuel => (OutOfFuel, out)
      end
  end.

Definition process_files (cfg : config) (fs : filesystem)
  (qs_files : list str) (out : sink) : result Z * sink :=
  process_loop cfg fs qs_files qs_files 0 out.

(** [main] after the connection is set up: [scan_files], then
    [process_files].  Neither call is inside a [try]; an exception of
    [scan_files] ends the run before any file is processed. *)
Definition main (cfg : config) (fs : filesystem) (directory : str)
  (listing : list str) (out : sink) : result Z * sink :=
  match scan_files directory listing with
  | Ok qs_files => process_files cfg fs qs_files out
  | Raise e => (Raise e, out)
  | OutOfFuel => (OutOfFuel, out)
  end.

End Pipeline.

End RecoveryImprovedJson.

(** ** The behaviour the specification describes

    The definitions of this module follow the words of the
    specification, not the code; the theorems below compare the two. *)

Module Spec.

(** *** Reads of the entry decoder (section 4.3 of the specification) *)

(** A read of the half-open index range [(lo, hi)] stays inside the
    buffer. *)
Definition read_in_bounds (file_data : bytes) (r : Z * Z) : Prop :=
  0 <= fst r /\ fst r <= snd r /\ snd r <= len file_data.

(** *** The JSON-boundary scanner (section 4.5 of the specification) *)

(** Brace depth, whether the scanner is inside a double-quoted string,
    and whether the previous byte was an escaping backslash. *)
Record scan_state : Type := {
  depth : Z;
  in_string : bool;
  escaped : bool
}.

Definition scan_init : scan_state :=
  {| depth := 0; in_string := false; escaped := false |}.

(** An escape flag suppresses interpretation of the following byte; a
    backslash inside a string sets it; an unescaped double quote toggles
    the string state; outside strings the braces are counted. *)
Definition scan_byte (st : scan_state) (b : byte) : scan_state :=
  let v := byte_val b in
  if escaped st
  then {| depth := depth st; in_string := in_string st; escaped := false |}
  else if in_string st then
    if v =? 92
    then {| depth := depth st; in_string := true; escaped := true |}
    else if v =? 34
    then {| depth := depth st; in_string := false; escaped := false |}
    else st
  else if v =? 34
  then {| depth := depth st; in_string := true; escaped := false |}
  else if v =? 123
  then {| depth := depth st + 1; in_string := false; escaped := false |}
  else if v =? 125
  then {| depth := depth st - 1; in_string := false; escaped := false |}
  else st.

Definition scan_from (st : scan_state) (l : bytes) : scan_state :=
  fold_left scan_byte l st.

(** The brace depth after the scanner has read [l]. *)
Definition depth_after (l : bytes) : Z := depth (scan_from scan_init l).

(** Reading [l] from its first byte, the depth returns to zero at index
    [k], and not before. *)
Definition rebalances_at (l : bytes) (k : nat) : Prop :=
  depth_after (firstn (S k) l) = 0
  /\ forall j, (j < k)%nat -> depth_after (firstn (S j) l) <> 0.

(** In state [st] the byte [b] is an uninterpreted closing brace that
    takes the depth from one to zero. *)
Definition closes (st : scan_state) (b : byte) : bool :=
  negb (escaped st) && negb (in_string st) && (byte_val b =? 125)
  && (depth st - 1 =? 0).

(** The depth never returns to zero. *)
Definition never_rebalances (l : bytes) : Prop :=
  forall j, (j < length l)%nat -> depth_after (firstn (S j) l) <> 0.

(** *** The marker scan (section 4.2 of the specification) *)

Definition byte_is (data : bytes) (i v : Z) : bool :=
  match getitem data i with
  | Some b => byte_val b =? v
  | None => false
  end.

(** At position [i] stands the byte [tag], followed by three zero
    bytes. *)
Definition tag_at (data : bytes) (tag i : Z) : bool :=
  byte_is data i tag && byte_is data (i + 1) 0 && byte_is data (i + 2) 0
  && byte_is data (i + 3) 0.

(** All positions of a tag, ascending. *)
Definition tag_positions (data : bytes) (tag : Z) : list Z :=
  filter (tag_at data tag) (range (len data)).

(** The integers from [lo] up to, not including, [hi]. *)
Definition interval (lo hi : Z) : list Z :=
  map (fun i => lo + i) (range (hi - lo)).

(** The nearest of the ascending [positions] strictly after [start]. *)
Definition nearest_after (positions : list Z) (start : Z) : option Z :=
  hd_error (filter (fun e => start <? e) positions).

(** The first opening brace within [[start, stop)]. *)
Definition first_brace (data : bytes) (start stop : Z) : option Z :=
  hd_error (filter (fun j => byte_is data j 123) (interval start stop)).

(** The last occurrence of two closing braces within [[start, stop)]. *)
Definition last_double_close (data : bytes) (start stop : Z) : option Z :=
  hd_error (rev (filter (fun k => byte_is data k 125 && byte_is data (k + 1) 125)
                        (interval start (stop - 1)))).

(** The candidate message of a start tag: the tag is paired with the
    nearest end tag after it; from the first opening brace between them
    up to and including the last two closing braces before the end
    tag. *)
Definition paired_message (data : bytes) (start : Z) : option bytes :=
  match nearest_after (tag_positions data 116) start with
  | None => None
  | Some stop =>
      match first_brace data start stop with
      | None => None
      | Some json_start =>
          match last_double_close data json_start stop with
          | None => None
          | Some json_end => Some (slice data json_start (json_end + 2))
          end
      end
  end.

(** The candidate messages of a segment file, one for each start tag
    that has one, after the 64-byte header. *)
Definition raw_messages (file_data : bytes) : list bytes :=
  let data := skipn 64 file_data in
  flat_map (fun start => match paired_message data start with
                         | Some m => [m]
                         | None => []
                         end)
           (tag_positions data 109).

(** The naive search that the specification sets the JSON scanner
    against: from the first opening brace of the data up to and including
    the last two closing braces. *)
Definition last_braces_slice (data : bytes) : option bytes :=
  match first_brace data 0 (len data) with
  | None => None
  | Some json_start =>
      match last_double_close data json_start (len data) with
      | None => None
      | Some json_end => Some (slice data json_start (json_end + 2))
      end
  end.

(** *** The catalog (section 4.1 of the specification) *)

(** Ascending order of the integer values that go with the files. *)
Definition key_le (a b : Z * str) : Prop := fst a <= fst b.

(** A file name has a valid numeric prefix when [int] accepts what
    stands before its first dot. *)
Definition numeric_prefix {db : UnicodeDB} (filename : str) (n : Z) : Prop :=
  py_int (split_head 46 filename) = Ok n.

Definition invalid_prefix {db : UnicodeDB} (filename : str) : Prop :=
  py_int (split_head 46 filename) = Raise ValueError.

(** The files of a listing that carry the extension of the catalog,
    as paths in the directory. *)
Definition segment_paths (directory : str) (listing : list str) : list str :=
  map (path_join directory)
      (filter (fun filename => str_endswith filename (s_ ".qs")) listing).

(** The names of a listing that carry the extension of the catalog. *)
Definition segment_names (listing : list str) : list str :=
  filter (fun filename => str_endswith filename (s_ ".qs")) listing.

(** Ascending, and strictly ascending, order of the integers that stand
    before the first dot of two file names. *)
Definition prefix_le {db : UnicodeDB} (a b : str) : Prop :=
  forall n m, numeric_prefix a n -> numeric_prefix b m -> n <= m.

Definition prefix_lt {db : UnicodeDB} (a b : str) : Prop :=
  forall n m, numeric_prefix a n -> numeric_prefix b m -> n < m.

(** Two file names carry the same integer. *)
Definition same_prefix {db : UnicodeDB} (a b : str) : Prop :=
  forall n, numeric_prefix a n <-> numeric_prefix b n.

(** A non-empty string of ASCII decimal digits, and the number that it
    denotes. *)
Definition ascii_digits (s : str) : Prop :=
  s <> [] /\ Forall (fun c => 48 <= c <= 57) s.

Definition decimal (digits : str) : Z :=
  fold_left (fun acc c => acc * 10 + (c - 48)) digits 0.

(** The integer value of a path whose name has a numeric prefix. *)
Definition key_of {db : UnicodeDB} (f : str) : Z :=
  match sequence_number f with
  | Ok n => n
  | _ => 0
  end.

(** A path whose name carries the integer [n]. *)
Definition numbered {db : UnicodeDB} (n : Z) (f : str) : bool :=
  match sequence_number f with
  | Ok k => k =? n
  | _ => false
  end.

(** *** Plausible content (section 4.6 of the specification) *)

(** A character that is printable or of the whitespace class (newline,
    carriage return, tab). *)
Definition printable_or_whitespace {db : UnicodeDB} (c : Z) : bool :=
  isprintable c || (c =? 10) || (c =? 13) || (c =? 9).

(** Fewer than 70% of the first 200 characters are printable or of the
    whitespace class. *)
Definition mostly_unprintable {db : UnicodeDB} (content : str) : Prop :=
  10 * len (filter printable_or_whitespace (firstn 200 content))
  < 7 * len (firstn 200 content).

(** The content without its newlines and carriage returns. *)
Definition without_line_breaks (content : str) : str :=
  filter (fun c => negb (c =? 13)) (filter (fun c => negb (c =? 10)) content).

(** A printable ASCII character that is no letter, digit or space. *)
Definition ascii_punctuation (c : Z) : bool :=
  (33 <=? c) && (c <=? 126)
  && negb (((48 <=? c) && (c <=? 57)) || ((65 <=? c) && (c <=? 90))
           || ((97 <=? c) && (c <=? 122))).

(** A printable ASCII character or one of newline, carriage return and
    tab. *)
Definition ascii_text (c : Z) : bool :=
  ((32 <=? c) && (c <=? 126)) || (c =? 10) || (c =? 13) || (c =? 9).

(** *** BINARY_EXT candidates (sections 3 and 4.4 of the specification) *)

(** The four bytes after position [pos], read as a big-endian length. *)
Definition binary_length (data : bytes) (pos : Z) : Z :=
  int_from_bytes_big (slice data (pos + 1) (pos + 5)).

(** At [pos] there is the tag [0x6d], then a length between 10 and
    1 MiB, and a body of that length that fits the buffer. *)
Definition is_candidate (data : bytes) (pos : Z) : bool :=
  match getitem data pos with
  | Some tag => byte_val tag =? 109
  | None => false
  end
  && (10 <=? binary_length data pos)
  && (binary_length data pos <=? 1024 * 1024)
  && (pos + 5 + binary_length data pos <=? len data).

Definition candidate_body (data : bytes) (pos : Z) : bytes :=
  slice data (pos + 5) (pos + 5 + binary_length data pos).

(** More than 10 of the first 100 bytes are printable ASCII
    ([0x20] to [0x7e]). *)
Definition qualifies (body : bytes) : bool :=
  10 <? len (filter (fun b => (32 <=? byte_val b) && (byte_val b <=? 126))
                    (firstn 100 body)).

(** A candidate that also passes the printable check. *)
Definition qualifying_candidate (data : bytes) (pos : Z) : bool :=
  if is_candidate data pos then qualifies (candidate_body data pos)
  else false.

(** Where the scan goes from [pos]: past tag, length and body of a
    candidate, and one byte on otherwise. *)
Definition next_position (data : bytes) (pos : Z) : Z :=
  if is_candidate data pos then pos + 5 + binary_length data pos
  else pos + 1.

(** The positions the left-to-right scan meets from [pos] on, while at
    least six bytes remain.  The scan moves forward, so the length of
    the data (plus one) is enough fuel from position 0. *)
Fixpoint met_from (fuel : nat) (data : bytes) (pos : Z) : list Z :=
  match fuel with
  | O => []
  | S fuel' =>
      if pos <? len data - 5
      then pos :: met_from fuel' data (next_position data pos)
      else []
  end.

Definition met_positions (data : bytes) : list Z :=
  met_from (S (length data)) data 0.

(** The bodies of the candidates that the scan meets and that pass the
    printable check, in the order of the scan. *)
Definition met_candidates (data : bytes) : list bytes :=
  map (candidate_body data)
      (filter (qualifying_candidate data) (met_positions data)).

(** The best candidate so far is replaced by a larger one only. *)
Definition keep_larger (best c : bytes) : bytes :=
  if len c >? len best then c else best.

Definition largest_of (cands : list bytes) : bytes :=
  fold_left keep_larger cands [].

(** The best candidate after the scan has looked at position [pos]. *)
Definition consider (data : bytes) (best : bytes) (pos : Z) : bytes :=
  if qualifying_candidate data pos
  then keep_larger best (candidate_body data pos)
  else best.

(** *** Runs and publications (sections 4.7 and 4.8 of the specification) *)

(** The same configuration with another dry-run toggle, and with another
    file limit. *)
Definition set_dry_run (b : bool) (cfg : config) : config :=
  {| dry_run := b; verbose := verbose cfg; file_limit := file_limit cfg;
     message_limit := message_limit cfg; exchange := exchange cfg;
     routing_key := routing_key cfg; queue := queue cfg |}.

Definition set_file_limit (k : Z) (cfg : config) : config :=
  {| dry_run := dry_run cfg; verbose := verbose cfg; file_limit := k;
     message_limit := message_limit cfg; exchange := exchange cfg;
     routing_key := routing_key cfg; queue := queue cfg |}.

(** A byte of plain ASCII text: printable, or one of tab, newline,
    vertical tab, form feed and carriage return. *)
Definition text_byte (b : byte) : bool :=
  ((32 <=? byte_val b) && (byte_val b <=? 126))
  || ((9 <=? byte_val b) && (byte_val b <=? 13)).

(** A file that cannot be read, or that is too short to hold an entry
    header after the 64 header bytes. *)
Definition empty_file (fs : filesystem) (file_path : str) : Prop :=
  match fs file_path with
  | None => True
  | Some file_data => len file_data < 72
  end.

(** A publication goes to the configured exchange, under the routing key
    or else the queue name, and asks for persistent delivery. *)
Definition addressed (cfg : config) (p : publication) : Prop :=
  pub_exchange p = exchange cfg
  /\ pub_routing_key p = effective_routing_key cfg
  /\ pub_delivery_mode p = 2.

(** What the entry decoder publishes: plausible content, typed as JSON
    exactly when it begins, after whitespace, with an opening brace. *)
Definition entry_publication {db : UnicodeDB} (cfg : config)
  (p : publication) : Prop :=
  addressed cfg p
  /\ RecoveryImprovedJson.is_valid_content (pub_body p) = true
  /\ pub_content_type p
     = (if str_startswith (str_strip (pub_body p)) (s_ "{")
        then ApplicationJson else TextPlain).

(** What the marker scan publishes: a body decoded from bytes that begin
    with an opening brace and end with two closing braces, typed as
    JSON. *)
Definition marker_publication (cfg : config) (p : publication) : Prop :=
  addressed cfg p
  /\ pub_content_type p = ApplicationJson
  /\ exists message : bytes,
       utf8_decode Replace message = Some (pub_body p)
       /\ exists middle, message = [x7b] ++ middle ++ [x7d; x7d].

(** *** Well-formed messages and segments *)

(** One object: the bytes begin with an opening brace, and the depth
    returns to zero at the last byte and not before. *)
Definition json_object (message : bytes) : Prop :=
  exists rest, message = x7b :: rest /\ rebalances_at message (length rest).

(** A message that the entry decoder is meant to recover: one object of
    ASCII text, of at most 1 MiB, that passes the printable check. *)
Definition json_message (message : bytes) : Prop :=
  json_object message
  /\ Forall (fun b => ascii_text (byte_val b) = true) message
  /\ qualifies message = true
  /\ len message <= 1024 * 1024.

(** The publication of a message as it stands. *)
Definition verbatim_publication (cfg : config) (message : bytes)
  : publication :=
  {| pub_exchange := exchange cfg;
     pub_routing_key := effective_routing_key cfg;
     pub_body := map byte_val message;
     pub_delivery_mode := 2;
     pub_content_type := ApplicationJson |}.

(** An entry as it stands in a segment, as its header and its body: the
    header has eight bytes, of which the first four give the length of
    the body, big-endian; the body has between 1 byte and 10 MiB. *)
Definition entry_frame (e : bytes * bytes) : Prop :=
  len (fst e) = 8
  /\ int_from_bytes_big (slice (fst e) 0 4) = len (snd e)
  /\ 0 < len (snd e) <= 10 * 1024 * 1024.

(** The entries one after the other. *)
Definition frames (entries : list (bytes * bytes)) : bytes :=
  concat (map (fun e => fst e ++ snd e) entries).

(** An entry that holds one message: a well-formed entry whose body is
    the term marker [0x83], the tag [0x6d], four bytes that give the
    length of the message, big-endian, and the message.  The last four
    bytes of the header (flags, checksum, reserved) are free. *)
Definition message_entry (message : bytes) (e : bytes * bytes) : Prop :=
  entry_frame e
  /\ exists length_field,
       len length_field = 4
       /\ int_from_bytes_big length_field = len message
       /\ snd e = x83 :: x6d :: length_field ++ message.

(** Every call of [basic_publish] returns. *)
Definition reliable (br : Broker) : Prop :=
  forall out p, accepts out p = true.

(** The sink after publications have been offered to the broker one
    after the other, each refused one being passed over. *)
Fixpoint accepted {br : Broker} (out : sink) (offered : list publication)
  : sink :=
  match offered with
  | [] => out
  | p :: offered =>
      accepted (if accepts out p then out ++ [p] else out) offered
  end.

(** What the entry decoder hands to [basic_publish] for one entry
    body. *)
Definition entry_publications {db : UnicodeDB} (cfg : config)
  (msg_data : bytes) : sink :=
  snd (@RecoveryImprovedJson.handle_entry db accepting_broker cfg msg_data
         0 []).

(** A printable ASCII byte other than the opening brace and the opening
    angle bracket. *)
Definition plain_byte (b : byte) : bool :=
  (32 <=? byte_val b) && (byte_val b <=? 126)
  && negb (byte_val b =? 123) && negb (byte_val b =? 60).

(** The number that a string of lowercase hexadecimal digits denotes. *)
Definition hex_value (digits : str) : Z :=
  fold_left (fun acc c => acc * 16 + (if c <? 58 then c - 48 else c - 87))
            digits 0.

(** A message between a start marker and an end marker. *)
Definition marked (message : bytes) : bytes :=
  [x6d; x00; x00; x00] ++ message ++ [x74; x00; x00; x00].

(** A message that the marker scan is meant to recover: ASCII bytes, none
    of them zero, from an opening brace to two closing braces. *)
Definition marker_message (message : bytes) : Prop :=
  (exists middle, message = x7b :: middle ++ [x7d; x7d])
  /\ Forall (fun b => 0 < byte_val b < 128) message.

(** Where the markers of marked messages stand when the first message
    begins at [off]: the start markers for the tag [0x6d], the end
    markers for any other tag. *)
Fixpoint marker_offsets (tag off : Z) (messages : list bytes) : list Z :=
  match messages with
  | [] => []
  | message :: rest =>
      (if tag =? 109 then off else off + 4 + len message)
      :: marker_offsets tag (off + 8 + len message) rest
  end.

End Spec.

(** ** Test vectors *)

Module Samples.

(** The double quote and the backslash. *)
Definition dquote : byte := x22.
Definition backslash : byte := x5c.

(** A JSON object with a nested object whose string value holds a
    closing brace and an escaped quote.  Written with Q for the double
    quote and B for the backslash, it is [{QaQ:{QbQ:Q}BQ}Q}}]. *)
Definition escaped_quote_object : bytes :=
  b_ "{" ++ [dquote] ++ b_ "a" ++ [dquote] ++ b_ ":{" ++ [dquote] ++ b_ "b"
  ++ [dquote] ++ b_ ":" ++ [dquote] ++ b_ "}" ++ [backslash] ++ [dquote]
  ++ b_ "}" ++ [dquote] ++ b_ "}}".

Definition escaped_quote_input : bytes :=
  b_ "prefix" ++ escaped_quote_object ++ b_ "suffix".

(** The same input with two more closing braces at its end. *)
Definition escaped_quote_trailing : bytes :=
  escaped_quote_input ++ b_ "}}".

(** The same bytes with two backslashes before the quote:
    [{QaQ:{QbQ:Q}BBQ}Q}}]. *)
Definition two_backslash_object : bytes :=
  b_ "{" ++ [dquote] ++ b_ "a" ++ [dquote] ++ b_ ":{" ++ [dquote] ++ b_ "b"
  ++ [dquote] ++ b_ ":" ++ [dquote] ++ b_ "}" ++ [backslash; backslash]
  ++ [dquote] ++ b_ "}" ++ [dquote] ++ b_ "}}".

Definition two_backslash_input : bytes :=
  b_ "prefix" ++ two_backslash_object ++ b_ "suffix".

(** Two binaries one after the other, of lengths 15 and 40, both
    printable. *)
Definition binary_15 : bytes := b_ "aaaaaaaaaaaaaaa".
Definition binary_40 : bytes := b_ "bbbbbbbbbbbbbbbbbbbbbbbbbbbbbbbbbbbbbbbb".

Definition two_binaries : bytes :=
  [x6d; x00; x00; x00; x0f] ++ binary_15
  ++ [x6d; x00; x00; x00; x28] ++ binary_40.

Definition two_binaries_swapped : bytes :=
  [x6d; x00; x00; x00; x28] ++ binary_40
  ++ [x6d; x00; x00; x00; x0f] ++ binary_15.

(** Two binaries of lengths 15 and 40 that overlap: the tag and the
    length of the second lie in the body of the first.  Positions 0 and 5
    are the only ones with a tag, a length in range and a body that
    fits. *)
Definition overlapping_binaries : bytes :=
  [x6d; x00; x00; x00; x0f]
  ++ [x6d; x00; x00; x00; x28] ++ b_ "aaaaaaaaaa"
  ++ b_ "aaaaaaaaaaaaaaaaaaaaaaaaaaaaaa".

(** A binary of length 10 without a printable byte, and one byte more. *)
Definition unprintable_binary : bytes :=
  [x6d; x00; x00; x00; x0a] ++ repeat x00 10 ++ [x00].

(** A 150-character string of letters and digits only. *)
Definition alnum_150 : str :=
  s_ "ABCDEFGHIJKLMNOPQRSTUVWXYZabcdefghijklmnopqrstuvwxyz0123456789"
  ++ s_ "ABCDEFGHIJKLMNOPQRSTUVWXYZabcdefghijklmnopqrstuvwxyz0123456789"
  ++ s_ "ABCDEFGHIJKLMNOPQRSTUVWXYZ".

(** A 150-character JSON-like string with punctuation and whitespace:
    an object with one key, [key], and a string value of 137 letters [x];
    34 is the code of the double quote. *)
Definition json_like_150 : str :=
  s_ "{ " ++ [34] ++ s_ "key" ++ [34] ++ s_ ": " ++ [34]
  ++ repeat 120 137 ++ [34] ++ s_ " }".

(** *** Segment files *)

(** 64 header bytes, one entry header that announces two bytes, and
    the two bytes. *)
Definition sample_segment : bytes :=
  repeat x00 64 ++ [x00; x00; x00; x02; x00; x00; x00; x00] ++ [x83; x41].

(** [n.to_bytes(4, 'big')]. *)
Definition be32 (n : Z) : bytes :=
  [byte_of (Z.shiftr n 24); byte_of (Z.land (Z.shiftr n 16) 255);
   byte_of (Z.land (Z.shiftr n 8) 255); byte_of (Z.land n 255)].

(** An entry of the structured layout: the 8-byte header, the term
    format marker, and one binary term that holds the payload. *)
Definition term_entry (payload : bytes) : bytes :=
  be32 (6 + len payload) ++ [x00; x00; x00; x00]
  ++ [x83; x6d] ++ be32 (len payload) ++ payload.

(** The message [{QidQ:n}] (Q the double quote) for a number [n]. *)
Definition id_message (n : string) : bytes :=
  b_ "{" ++ [dquote] ++ b_ "id" ++ [dquote] ++ b_ ":" ++ b_ n ++ b_ "}".

Definition header_64 : bytes := repeat x00 64.

(** A segment with one entry and a segment with three. *)
Definition segment_one : bytes :=
  header_64 ++ term_entry (id_message "10001").

Definition segment_three : bytes :=
  header_64 ++ term_entry (id_message "20001")
  ++ term_entry (id_message "20002") ++ term_entry (id_message "20003").

(** The message [{QaQ:{QbQ:n}}] between a start marker and an end
    marker. *)
Definition marked_message (n : string) : bytes :=
  [x6d; x00; x00; x00]
  ++ b_ "{" ++ [dquote] ++ b_ "a" ++ [dquote] ++ b_ ":{" ++ [dquote] ++ b_ "b"
  ++ [dquote] ++ b_ ":" ++ b_ n ++ b_ "}}"
  ++ [x74; x00; x00; x00].

(** A segment for the marker scan with two messages, and bytes after
    the last end marker. *)
Definition segment_two_marked : bytes :=
  header_64 ++ marked_message "1" ++ marked_message "2" ++ [x00; x00].

(** A segment for the marker scan whose only end marker is its last
    four bytes, and the same segment with one byte more. *)
Definition segment_end_marker_last : bytes :=
  header_64 ++ marked_message "1".

Definition segment_end_marker_inside : bytes :=
  header_64 ++ marked_message "1" ++ [x00].

(** A directory [d] with the files [1.qs] and [2.qs]. *)
Definition two_segments (first second : bytes) : filesystem :=
  fun path =>
    if str_eqb path (s_ "d/1.qs") then Some first
    else if str_eqb path (s_ "d/2.qs") then Some second
    else None.

(** A run that publishes, with the given message limit and no file
    limit. *)
Definition publishing (message_limit : Z) : config :=
  {| dry_run := false; verbose := false; file_limit := 0;
     message_limit := message_limit;
     exchange := []; routing_key := []; queue := s_ "recovered" |}.

End Samples.

(** * Properties *)

(** ** Facts about the runtime primitives *)

Lemma len_nonneg {A : Type} (l : list A) : 0 <= len l.
Proof. unfold len. lia. Qed.

Lemma len_app {A : Type} (l1 l2 : list A) : len (l1 ++ l2) = len l1 + len l2.
Proof. unfold len. rewrite length_app. lia. Qed.

Lemma len_slice {A : Type} (l : list A) (lo hi : Z) :
  0 <= lo -> lo <= hi -> hi <= len l -> len (slice l lo hi) = hi - lo.
Proof.
  unfold len, slice. intros Hlo Hhi Hlen.
  rewrite length_firstn, length_skipn. lia.
Qed.

Lemma getitem_in_range {A : Type} (l : list A) (i : Z) :
  0 <= i < len l -> exists x, getitem l i = Some x.
Proof.
  unfold getitem, len. intros [H0 H1].
  destruct (i <? 0) eqn:E; [lia|].
  destruct (nth_error l (Z.to_nat i)) eqn:N; [eauto|].
  apply nth_error_None in N. lia.
Qed.

Lemma byte_val_range (b : byte) : 0 <= byte_val b < 256.
Proof.
  unfold byte_val. pose proof (Byte.to_N_bounded b). lia.
Qed.

Lemma int_from_bytes_big_nonneg (b : bytes) : 0 <= int_from_bytes_big b.
Proof.
  unfold int_from_bytes_big.
  assert (H : forall l acc, 0 <= acc ->
            0 <= fold_left (fun a x => a * 256 + byte_val x) l acc).
  { induction l as [|x l IH]; intros acc Hacc; simpl; [assumption|].
    apply IH. pose proof (byte_val_range x). lia. }
  apply H. lia.
Qed.

(** ** EntryDecoder *)

Import RecoveryImprovedJson.
Import Spec.

(** C1.  For every buffer and every cursor position, one iteration of the
    entry loop reads inside the buffer only; it stops when fewer than 8
    bytes remain; it moves the cursor by exactly 8 when the size field is
    zero or above 10 MiB; otherwise it stops without slicing when fewer
    than [size] bytes follow the header, and else slices exactly [size]
    bytes after the header and moves the cursor past them. *)
Theorem entry_step_bounds (file_data : bytes) (pos : Z) (Hpos : 0 <= pos) :
  let size := int_from_bytes_big (slice file_data pos (pos + 4)) in
  let header_reads := [(pos, pos + 4); (pos + 4, pos + 5)] in
  Forall (read_in_bounds file_data) (fst (entry_step file_data pos))
  /\ (len file_data - pos < 8 ->
        fst (entry_step file_data pos) = []
        /\ (snd (entry_step file_data pos) = LoopEnd
            \/ snd (entry_step file_data pos) = BreakShortHeader))
  /\ (8 <= len file_data - pos -> size = 0 \/ size > 10 * 1024 * 1024 ->
        entry_step file_data pos = (header_reads, Resync (pos + 8)))
  /\ (8 <= len file_data - pos -> size <> 0 -> size <= 10 * 1024 * 1024 ->
        len file_data - (pos + 8) < size ->
        entry_step file_data pos = (header_reads, BreakTruncated))
  /\ (8 <= len file_data - pos -> size <> 0 -> size <= 10 * 1024 * 1024 ->
        size <= len file_data - (pos + 8) ->
        let body := slice file_data (pos + 8) (pos + 8 + size) in
        entry_step file_data pos
          = (header_reads ++ [(pos + 8, pos + 8 + size)],
             Entry body (pos + 8 + size))
        /\ len body = size
        /\ pos + 8 + size <= len file_data).
Proof.
  intros size header_reads.
  pose proof (int_from_bytes_big_nonneg (slice file_data pos (pos + 4))) as Hsz.
  fold size in Hsz.
  unfold entry_step. fold size. fold header_reads.
  change MAX_ENTRY_SIZE with (10 * 1024 * 1024).
  destruct (Z.ltb_spec pos (len file_data)) as [Hlt|Hge]; cbn [negb].
  2:{ repeat split; try (intros; lia); simpl; auto. }
  destruct (Z.gtb_spec (pos + 8) (len file_data)) as [Hshort|Hok].
  { repeat split; try (intros; lia); simpl; auto. }
  destruct (getitem_in_range file_data (pos + 4)) as [flags Hflags]; [lia|].
  rewrite Hflags.
  assert (Hhdr : Forall (read_in_bounds file_data) header_reads).
  { unfold header_reads. repeat constructor; simpl; lia. }
  destruct (Z.eqb_spec size 0) as [Hz|Hnz]; cbn [orb].
  { repeat split; try (intros; lia); auto. }
  destruct (Z.gtb_spec size (10 * 1024 * 1024)) as [Hbig|Hsmall].
  { repeat split; try (intros; lia); auto. }
  destruct (Z.gtb_spec (pos + 8 + size) (len file_data)) as [Htr|Hfit].
  { repeat split; try (intros; lia); auto. }
  repeat split; try (intros; lia); auto.
  - repeat constructor; simpl; lia.
  - rewrite len_slice; lia.
Qed.

Lemma entry_step_bounds_witness :
  0 <= 64 /\
  entry_step Samples.sample_segment 64 = ([(64, 68); (68, 69); (72, 74)], Entry [x83; x41] 74).
Proof.
  split; [lia|].
  destruct (entry_step_bounds Samples.sample_segment 64 ltac:(lia))
    as (_ & _ & _ & _ & H).
  destruct H as (H & _); [vm_compute; discriminate | vm_compute; discriminate
                         | vm_compute; discriminate | vm_compute; discriminate | ].
  exact H.
Defined.

(** ** Searching *)

Lemma byte_val_inj (a b : byte) : byte_val a = byte_val b -> a = b.
Proof.
  unfold byte_val. intros H. apply N2Z.inj in H.
  pose proof (Byte.of_to_N a) as Ha. pose proof (Byte.of_to_N b) as Hb.
  rewrite H in Ha. congruence.
Qed.

Lemma byte_eqb_eq (a b : byte) : byte_eqb a b = true <-> a = b.
Proof.
  unfold byte_eqb. rewrite Z.eqb_eq. split; [apply byte_val_inj|congruence].
Qed.

Lemma byte_eqb_refl (a : byte) : byte_eqb a a = true.
Proof. apply byte_eqb_eq. reflexivity. Qed.

Lemma byte_eqb_neq (a b : byte) : byte_eqb a b = false <-> a <> b.
Proof.
  rewrite <- byte_eqb_eq. destruct (byte_eqb a b); split; congruence.
Qed.

Lemma slice_from_app {A : Type} (pre l : list A) :
  slice_from (pre ++ l) (len pre) = l.
Proof.
  unfold slice_from, len. rewrite Nat2Z.id.
  rewrite skipn_app, skipn_all, Nat.sub_diag. reflexivity.
Qed.

Lemma slice_app {A : Type} (pre l : list A) (n : nat) :
  slice (pre ++ l) (len pre) (len pre + Z.of_nat n) = firstn n l.
Proof.
  unfold slice. replace (len pre + Z.of_nat n - len pre) with (Z.of_nat n) by lia.
  rewrite Nat2Z.id. f_equal. apply slice_from_app.
Qed.

Lemma startswith_nil (l : bytes) : startswith l [] = true.
Proof. destruct l; reflexivity. Qed.

(** [find] of a single byte returns the index of its first occurrence. *)
Lemma find_at_first (c : byte) (pre post : bytes) (i : Z) :
  ~ In c pre -> find_at [c] (pre ++ c :: post) i = i + len pre.
Proof.
  revert i. induction pre as [|x pre IH]; intros i Hnin.
  - cbn [app find_at startswith]. rewrite byte_eqb_refl, startswith_nil.
    cbn. lia.
  - cbn [app find_at startswith].
    assert (Hx : byte_eqb c x = false).
    { apply byte_eqb_neq. intros ->. apply Hnin. left. reflexivity. }
    rewrite Hx. cbn [andb]. rewrite IH.
    + unfold len. cbn [length]. lia.
    + intros Hin. apply Hnin. right. assumption.
Qed.

Lemma find_at_absent (c : byte) (l : bytes) (i : Z) :
  ~ In c l -> find_at [c] l i = -1.
Proof.
  revert i. induction l as [|x l IH]; intros i Hnin;
    cbn [find_at startswith]; [reflexivity|].
  assert (Hx : byte_eqb c x = false).
  { apply byte_eqb_neq. intros ->. apply Hnin. left. reflexivity. }
  rewrite Hx. cbn [andb]. apply IH. intros Hin. apply Hnin. right. assumption.
Qed.

Lemma find_first (c : byte) (pre post : bytes) :
  ~ In c pre -> find (pre ++ c :: post) [c] 0 = len pre.
Proof.
  intros Hnin. unfold find.
  pose proof (len_nonneg (pre ++ c :: post)).
  destruct (Z.gtb_spec 0 (len (pre ++ c :: post))); [lia|].
  unfold slice_from. cbn [Z.to_nat skipn]. rewrite find_at_first by assumption. lia.
Qed.

(** A byte that occurs in a string has a first occurrence. *)
Lemma first_occurrence (c : byte) (data : bytes) :
  In c data -> exists pre post, data = pre ++ c :: post /\ ~ In c pre.
Proof.
  induction data as [|x data IH]; intros Hin; [contradiction|].
  destruct (Byte.byte_eq_dec x c) as [->|Hne].
  - exists [], data. split; [reflexivity|intros []].
  - destruct Hin as [->|Hin]; [congruence|].
    destruct (IH Hin) as (pre & post & -> & Hnin).
    exists (x :: pre), post. split; [reflexivity|].
    intros [->|H]; [congruence|contradiction].
Qed.

Lemma contains_In (c : byte) (data : bytes) :
  contains [c] data = true <-> In c data.
Proof.
  unfold contains. split.
  - intros H. destruct (in_dec Byte.byte_eq_dec c data) as [Hin|Hnin]; [assumption|].
    unfold find in H. pose proof (len_nonneg data).
    destruct (Z.gtb_spec 0 (len data)); [lia|].
    unfold slice_from in H. cbn [Z.to_nat skipn] in H.
    rewrite find_at_absent in H by assumption. discriminate.
  - intros Hin. apply first_occurrence in Hin.
    destruct Hin as (pre & post & -> & Hnin).
    rewrite find_first by assumption.
    pose proof (len_nonneg pre). destruct (Z.eqb_spec (len pre) (-1)); [lia|reflexivity].
Qed.

(** ** ContentSanitizer: the brace matcher *)

Import Spec.

Lemma char_is_val (b : byte) (c : Z) :
  0 <= c < 128 -> char_is (char_of b) c = (byte_val b =? c).
Proof.
  intros Hc. unfold char_is, char_of.
  destruct (Z.ltb_spec (byte_val b) 128); [reflexivity|].
  symmetry. apply Z.eqb_neq. lia.
Qed.

(** One iteration of the loop of [find_json_end] is one step of the
    scanner of the specification, with a [return] at the byte that
    closes the outermost object. *)
Lemma json_scan_cons (b : byte) (l : bytes) (i : Z) (st : scan_state) :
  json_scan (b :: l) i (depth st) (in_string st) (escaped st)
  = if closes st b then Some (i + 1)
    else let st' := scan_byte st b in
         json_scan l (i + 1) (depth st') (in_string st') (escaped st').
Proof.
  destruct st as [d s e]. unfold closes, scan_byte.
  cbn [json_scan depth in_string escaped].
  rewrite !char_is_val by lia.
  destruct e; cbn [negb andb]; [reflexivity|].
  destruct s; cbn [negb andb].
  - destruct (byte_val b =? 92) eqn:E92; cbn [andb depth in_string escaped];
      [reflexivity|].
    destruct (byte_val b =? 34) eqn:E34; cbn [negb depth in_string escaped];
      reflexivity.
  - rewrite andb_false_r.
    destruct (byte_val b =? 34) eqn:E34; cbn [negb depth in_string escaped].
    { apply Z.eqb_eq in E34. rewrite E34. reflexivity. }
    destruct (byte_val b =? 123) eqn:E123; cbn [negb depth in_string escaped].
    { apply Z.eqb_eq in E123. rewrite E123. reflexivity. }
    destruct (byte_val b =? 125) eqn:E125; cbn [andb negb depth in_string escaped];
      [|reflexivity].
    destruct (d - 1 =? 0); reflexivity.
Qed.

Lemma scan_byte_depth (st : scan_state) (b : byte) :
  1 <= depth st -> closes st b = false -> 1 <= depth (scan_byte st b).
Proof.
  destruct st as [d s e]. unfold closes, scan_byte.
  cbn [depth in_string escaped]. intros Hd Hc.
  destruct e; cbn [depth]; [assumption|].
  destruct s; cbn [negb andb] in Hc.
  - destruct (byte_val b =? 92); cbn [depth]; [assumption|].
    destruct (byte_val b =? 34); cbn [depth]; assumption.
  - destruct (byte_val b =? 34); cbn [depth]; [assumption|].
    destruct (byte_val b =? 123); cbn [depth]; [lia|].
    destruct (byte_val b =? 125); cbn [depth andb] in *; [|assumption].
    apply Z.eqb_neq in Hc. lia.
Qed.

Lemma closes_depth (st : scan_state) (b : byte) :
  closes st b = true -> depth (scan_byte st b) = 0 /\ b = x7d.
Proof.
  destruct st as [d s e]. unfold closes, scan_byte.
  cbn [depth in_string escaped]. intros Hc.
  apply andb_prop in Hc. destruct Hc as [Hc Hd].
  apply andb_prop in Hc. destruct Hc as [Hc Hb].
  apply andb_prop in Hc. destruct Hc as [He Hs].
  destruct e; [discriminate|]. destruct s; [discriminate|].
  apply Z.eqb_eq in Hb. apply Z.eqb_eq in Hd.
  split.
  - rewrite Hb. cbn. lia.
  - apply byte_val_inj. rewrite Hb. reflexivity.
Qed.

(** The loop of [find_json_end], started inside an object, returns one
    past the first byte at which the depth is back at zero, or runs to
    its end when the depth stays positive. *)
Lemma json_scan_spec (l : bytes) : forall (i : Z) (st : scan_state),
  1 <= depth st ->
  match json_scan l i (depth st) (in_string st) (escaped st) with
  | Some r =>
      exists k, (k < length l)%nat /\ r = i + Z.of_nat k + 1
        /\ depth (scan_from st (firstn (S k) l)) = 0
        /\ (forall j, (j < k)%nat -> 1 <= depth (scan_from st (firstn (S j) l)))
        /\ nth_error l k = Some x7d
  | None =>
      forall j, (j < length l)%nat -> 1 <= depth (scan_from st (firstn (S j) l))
  end.
Proof.
  induction l as [|b l IH]; intros i st Hd.
  - cbn. intros j Hj. lia.
  - rewrite json_scan_cons. destruct (closes st b) eqn:Hc.
    + destruct (closes_depth _ _ Hc) as [H0 Hb]. exists 0%nat.
      cbn [length firstn scan_from fold_left nth_error].
      repeat split; try lia. congruence.
    + cbv zeta. pose proof (scan_byte_depth st b Hd Hc) as Hd'.
      specialize (IH (i + 1) (scan_byte st b) Hd').
      destruct (json_scan l (i + 1) _ _ _) as [r|].
      * destruct IH as (k & Hk & Hr & H0 & Hbefore & Hnth).
        exists (S k). cbn [length]. repeat split; try lia; try assumption.
        intros [|j] Hj; [exact Hd'|]. apply Hbefore. lia.
      * intros [|j] Hj; [exact Hd'|]. apply IH. cbn [length] in Hj. lia.
Qed.

Lemma depth_after_cons_brace (l : bytes) :
  depth_after (x7b :: l)
  = depth (scan_from {| depth := 1; in_string := false; escaped := false |} l).
Proof. reflexivity. Qed.

(** [find_json_end], called at an opening brace: one past the byte at
    which the depth returns to zero, or the length of the data. *)
Lemma find_json_end_at_brace (pre post : bytes) :
  (exists k, rebalances_at (x7b :: post) k
     /\ nth_error (x7b :: post) k = Some x7d
     /\ (k < length (x7b :: post))%nat
     /\ find_json_end (pre ++ x7b :: post) (len pre) = len pre + Z.of_nat k + 1)
  \/ (never_rebalances (x7b :: post)
      /\ find_json_end (pre ++ x7b :: post) (len pre)
         = len (pre ++ x7b :: post)).
Proof.
  unfold find_json_end. rewrite slice_from_app.
  set (st1 := {| depth := 1; in_string := false; escaped := false |}).
  change (json_scan (x7b :: post) (len pre) 0 false false)
    with (json_scan post (len pre + 1) (depth st1) (in_string st1) (escaped st1)).
  pose proof (json_scan_spec post (len pre + 1) st1 ltac:(cbn; lia)) as H.
  destruct (json_scan post (len pre + 1) _ _ _) as [r|].
  - left. destruct H as (k & Hk & Hr & H0 & Hbefore & Hnth).
    exists (S k). split; [split|].
    + change (firstn (S (S k)) (x7b :: post)) with (x7b :: firstn (S k) post).
      rewrite depth_after_cons_brace. exact H0.
    + intros [|j] Hj; [cbn; discriminate|].
      change (firstn (S (S j)) (x7b :: post)) with (x7b :: firstn (S j) post).
      rewrite depth_after_cons_brace.
      assert (1 <= depth (scan_from st1 (firstn (S j) post))) by (apply Hbefore; lia).
      unfold st1 in *. lia.
    + cbn [nth_error length]. repeat split; [assumption|lia|lia].
  - right. split; [|reflexivity].
    intros [|j] Hj; [cbn; discriminate|].
    change (firstn (S (S j)) (x7b :: post)) with (x7b :: firstn (S j) post).
    rewrite depth_after_cons_brace.
    assert (1 <= depth (scan_from st1 (firstn (S j) post)))
      by (apply H; cbn [length] in Hj; lia).
    unfold st1 in *. lia.
Qed.

Lemma rebalances_at_unique (l : bytes) (k k' : nat) :
  rebalances_at l k -> rebalances_at l k' -> k = k'.
Proof.
  intros [H0 Hb] [H0' Hb'].
  destruct (Nat.lt_trichotomy k k') as [Hlt|[Heq|Hgt]]; [|assumption|].
  - exfalso. apply (Hb' k Hlt). assumption.
  - exfalso. apply (Hb k' Hgt). assumption.
Qed.

(** Where the depth returns to zero there is a byte. *)
Lemma rebalances_at_in_range (post : bytes) (k : nat) :
  rebalances_at (x7b :: post) k -> (k < length (x7b :: post))%nat.
Proof.
  intros Hk. destruct (find_json_end_at_brace [] post)
    as [(k' & Hk' & _ & Hlt & _)|[Hnever _]].
  - rewrite (rebalances_at_unique _ _ _ Hk Hk'). assumption.
  - destruct (Nat.lt_ge_cases k (length (x7b :: post))) as [Hlt|Hge]; [assumption|].
    exfalso. destruct Hk as [H0 _].
    rewrite firstn_all2 in H0 by lia.
    apply (Hnever (length post)); [cbn [length]; lia|].
    change (S (length post)) with (length (x7b :: post)).
    rewrite firstn_all. assumption.
Qed.

(** Strategy 1 of [clean_message_content] returns whenever the input has
    an opening brace: the slice from the first one up to where
    [find_json_end] points. *)
Lemma clean_json_at_brace (pre post : bytes) :
  ~ In x7b pre ->
  clean_json (pre ++ x7b :: post)
  = Some (slice (pre ++ x7b :: post) (len pre)
            (find_json_end (pre ++ x7b :: post) (len pre))).
Proof.
  intros Hnin. unfold clean_json. change (b_ "{") with [x7b].
  assert (Hc : contains [x7b] (pre ++ x7b :: post) = true).
  { apply contains_In. apply in_or_app. right. left. reflexivity. }
  rewrite Hc, find_first by assumption.
  destruct (find_json_end_at_brace pre post)
    as [(k & _ & _ & _ & ->)|[_ ->]].
  - destruct (Z.gtb_spec (len pre + Z.of_nat k + 1) (len pre)); [reflexivity|lia].
  - rewrite len_app. unfold len at 2. cbn [length].
    destruct (Z.gtb_spec (len pre + Z.of_nat (S (length post))) (len pre));
      [reflexivity|lia].
Qed.

Lemma rebalance_decide (pre post : bytes) (k : nat) :
  rebalances_at (x7b :: post) k ->
  find_json_end (pre ++ x7b :: post) (len pre) = len pre + Z.of_nat k + 1
  /\ nth_error (x7b :: post) k = Some x7d.
Proof.
  intros Hk.
  destruct (find_json_end_at_brace pre post)
    as [(k' & Hk' & Hnth & _ & He)|[Hnever _]].
  - rewrite (rebalances_at_unique _ _ _ Hk Hk'). split; assumption.
  - exfalso. apply (Hnever k); [apply rebalances_at_in_range; assumption|].
    apply Hk.
Qed.

Section SanitizerProperties.
Context {db : UnicodeDB}.

Import Samples.

(** C2 (as amended).  Whenever the input has an opening brace and the
    depth, counted from the first one with the string and escape rules,
    returns to zero at some byte, [find_json_end] points one past that
    byte, the byte is a closing brace, and the sanitizer returns the
    slice from the first opening brace up to and including it.  For the
    input [prefix{QaQ:{QbQ:Q}BQ}Q}}suffix] (Q the double quote, B one
    backslash, which escapes the quote after it) it returns exactly
    [{QaQ:{QbQ:Q}BQ}Q}}], which is balanced.  On that input the naive
    search from the first opening brace to the last two closing braces
    returns the same bytes.  The two differ when two closing braces
    follow later: on [prefix{QaQ:{QbQ:Q}BQ}Q}}suffix}}] the sanitizer
    returns the same object, and the naive search returns
    [{QaQ:{QbQ:Q}BQ}Q}}suffix}}], which is not balanced.  With two
    backslashes before the quote the depth never returns to zero: the
    sanitizer returns everything from the opening brace on, and it is
    the naive search that returns the object alone. *)
Theorem json_boundary_balanced :
  (forall (pre post : bytes) (k : nat),
      ~ In x7b pre -> rebalances_at (x7b :: post) k ->
      find_json_end (pre ++ x7b :: post) (len pre) = len pre + Z.of_nat k + 1
      /\ nth_error (x7b :: post) k = Some x7d
      /\ clean_message_content (pre ++ x7b :: post)
         = firstn (S k) (x7b :: post))
  /\ clean_message_content escaped_quote_input = escaped_quote_object
  /\ depth_after escaped_quote_object = 0
  /\ last_braces_slice escaped_quote_input = Some escaped_quote_object
  /\ clean_message_content escaped_quote_trailing = escaped_quote_object
  /\ last_braces_slice escaped_quote_trailing
     = Some (escaped_quote_object ++ b_ "suffix}}")
  /\ depth_after (escaped_quote_object ++ b_ "suffix}}") <> 0
  /\ clean_message_content two_backslash_input
     = two_backslash_object ++ b_ "suffix"
  /\ last_braces_slice two_backslash_input = Some two_backslash_object.
Proof.
  assert (Hjson : forall raw object,
            clean_json raw = Some object ->
            clean_message_content raw = object).
  { intros raw object Hraw.
    unfold clean_message_content, clean_message_content_via.
    rewrite Hraw. reflexivity. }
  split.
  { intros pre post k Hnin Hk.
    destruct (rebalance_decide pre post k Hk) as [He Hnth].
    repeat split; try assumption.
    unfold clean_message_content, clean_message_content_via.
    rewrite clean_json_at_brace by assumption. cbn [snd].
    rewrite He. replace (len pre + Z.of_nat k + 1)
      with (len pre + Z.of_nat (S k)) by lia.
    apply slice_app. }
  split; [apply Hjson; vm_compute; reflexivity|].
  split; [vm_compute; reflexivity|].
  split; [vm_compute; reflexivity|].
  split; [apply Hjson; vm_compute; reflexivity|].
  split; [vm_compute; reflexivity|].
  split; [vm_compute; intros Heq; discriminate Heq|].
  split; [apply Hjson; vm_compute; reflexivity|].
  vm_compute. reflexivity.
Qed.

(** C10.  Whenever the input has an opening brace, the sanitizer returns
    through its JSON strategy, never through the XML or the plain-text
    one, and the result is a slice of the input that begins at the first
    opening brace: it ends at the closing brace at which the depth
    returns to zero, or, when the depth never does, at the end of the
    input. *)
Theorem clean_message_content_brace (raw : bytes) :
  In x7b raw ->
  exists pre post,
    raw = pre ++ x7b :: post /\ ~ In x7b pre
    /\ ((exists k, rebalances_at (x7b :: post) k
           /\ nth_error (x7b :: post) k = Some x7d
           /\ clean_message_content_via raw
              = (JsonBranch, firstn (S k) (x7b :: post)))
        \/ (never_rebalances (x7b :: post)
            /\ clean_message_content_via raw = (JsonBranch, x7b :: post))).
Proof.
  intros Hin. destruct (first_occurrence _ _ Hin) as (pre & post & -> & Hnin).
  exists pre, post. repeat split; try assumption.
  unfold clean_message_content_via. rewrite clean_json_at_brace by assumption.
  destruct (find_json_end_at_brace pre post)
    as [(k & Hk & Hnth & _ & ->)|[Hnever ->]].
  - left. exists k. repeat split; try apply Hk; try assumption.
    replace (len pre + Z.of_nat k + 1) with (len pre + Z.of_nat (S k)) by lia.
    rewrite slice_app. reflexivity.
  - right. split; [assumption|].
    replace (len (pre ++ x7b :: post))
      with (len pre + Z.of_nat (length (x7b :: post)))
      by (rewrite len_app; reflexivity).
    rewrite slice_app, firstn_all. reflexivity.
Qed.

End SanitizerProperties.

Lemma json_boundary_balanced_witness :
  @clean_message_content ascii_only_db Samples.escaped_quote_input
  = firstn 18 Samples.escaped_quote_object.
Proof.
  destruct (@json_boundary_balanced ascii_only_db) as [H _].
  destruct (H (b_ "prefix")
              (tl Samples.escaped_quote_object ++ b_ "suffix") 17%nat)
    as (_ & _ & Hc).
  - cbv. intuition discriminate.
  - split.
    + vm_compute. reflexivity.
    + intros j Hj.
      do 17 (destruct j as [|j]; [vm_compute; intros Heq; discriminate Heq|]).
      lia.
  - exact Hc.
Defined.

Lemma clean_message_content_brace_witness :
  In x7b Samples.two_backslash_input
  /\ exists pre post,
       Samples.two_backslash_input = pre ++ x7b :: post /\ ~ In x7b pre
       /\ ((exists k, rebalances_at (x7b :: post) k
              /\ nth_error (x7b :: post) k = Some x7d
              /\ @clean_message_content_via ascii_only_db
                   Samples.two_backslash_input
                 = (JsonBranch, firstn (S k) (x7b :: post)))
           \/ (never_rebalances (x7b :: post)
               /\ @clean_message_content_via ascii_only_db
                    Samples.two_backslash_input
                  = (JsonBranch, x7b :: post))).
Proof.
  assert (Hin : In x7b Samples.two_backslash_input).
  { vm_compute. do 6 right. left. reflexivity. }
  split; [exact Hin|].
  exact (@clean_message_content_brace ascii_only_db
           Samples.two_backslash_input Hin).
Defined.

(** C2, as it is written.  The written example holds two backslashes
    before the quote.  Taken as two bytes, the second one is escaped by
    the first, the quote after them closes the string, the last quote
    opens a string that never ends, and the depth does not return to
    zero: the slice of the JSON strategy runs to the end of the input
    and is not the object alone, and the object that the claim asks for
    is not balanced (after it the scanner is at depth 1, inside a
    string).  Taken as one byte, the strategy
    returns the object, and so does the naive search from the first
    opening brace to the last two closing braces: the example does not
    tell the two apart.  Under neither reading does the claim hold. *)
Lemma json_boundary_written_example :
  (clean_json Samples.two_backslash_input
   = Some (Samples.two_backslash_object ++ b_ "suffix")
   /\ clean_json Samples.two_backslash_input
      <> Some Samples.two_backslash_object
   /\ depth_after Samples.two_backslash_object = 1
   /\ in_string (scan_from scan_init Samples.two_backslash_object) = true)
  /\ (clean_json Samples.escaped_quote_input
      = Some Samples.escaped_quote_object
      /\ last_braces_slice Samples.escaped_quote_input
         = clean_json Samples.escaped_quote_input).
Proof.
  split; [split; [|split; [|split]]|split].
  - vm_compute. reflexivity.
  - vm_compute. intros H. discriminate H.
  - vm_compute. reflexivity.
  - vm_compute. reflexivity.
  - vm_compute. reflexivity.
  - vm_compute. reflexivity.
Qed.

(** ** TermPayloadExtractor *)

Lemma is_candidate_bounds (data : bytes) (pos : Z) :
  is_candidate data pos = true ->
  10 <= binary_length data pos /\ binary_length data pos <= 1024 * 1024
  /\ pos + 5 + binary_length data pos <= len data.
Proof.
  unfold is_candidate. intros H.
  apply andb_prop in H. destruct H as [H H3].
  apply andb_prop in H. destruct H as [H H2].
  apply andb_prop in H. destruct H as [_ H1].
  apply Z.leb_le in H1, H2, H3. lia.
Qed.

Lemma candidate_body_len (data : bytes) (pos : Z) :
  0 <= pos -> is_candidate data pos = true ->
  len (candidate_body data pos) = binary_length data pos.
Proof.
  intros Hpos Hc. destruct (is_candidate_bounds _ _ Hc) as (H1 & H2 & H3).
  unfold candidate_body. rewrite len_slice; lia.
Qed.

Lemma printable_count_qualifies (body : bytes) :
  (printable_count body >? 10) = qualifies body.
Proof.
  unfold printable_count, qualifies, count_if, slice_to.
  rewrite Z.gtb_ltb. reflexivity.
Qed.

(** One iteration of the scan: the position moves as [next_position]
    says, and the best candidate is updated as [consider] says. *)
Lemma payload_step_spec (data : bytes) (pos : Z) (largest : bytes) :
  0 <= pos < len data - 5 ->
  payload_step data pos largest
  = Ok (next_position data pos, consider data largest pos).
Proof.
  intros Hpos. unfold payload_step, next_position, consider,
    qualifying_candidate, is_candidate, keep_larger.
  destruct (getitem_in_range data pos) as [tag Htag]; [lia|].
  rewrite Htag. rewrite orb_diag.
  fold (binary_length data pos). fold (candidate_body data pos).
  change MAX_BINARY_SIZE with (1024 * 1024).
  destruct (byte_val tag =? 109); cbn [andb]; [|reflexivity].
  destruct (Z.leb_spec (pos + 5) (len data)) as [_|Hbad]; [|lia].
  destruct ((10 <=? binary_length data pos)
            && (binary_length data pos <=? 1024 * 1024)
            && (pos + 5 + binary_length data pos <=? len data));
    [|reflexivity].
  rewrite printable_count_qualifies.
  destruct (qualifies (candidate_body data pos));
    destruct (len (candidate_body data pos) >? len largest); reflexivity.
Qed.

Lemma next_position_forward (data : bytes) (pos : Z) :
  pos < next_position data pos.
Proof.
  unfold next_position. destruct (is_candidate data pos) eqn:Hc; [|lia].
  destruct (is_candidate_bounds _ _ Hc). lia.
Qed.

(** The loop of [extract_payload_from_erlang] folds [consider] over the
    positions that the scan meets; it does not run out of fuel. *)
Lemma payload_loop_fold (data : bytes) (fuel : nat) :
  forall (pos : Z) (largest : bytes),
    0 <= pos -> (0 < fuel)%nat -> len data - 5 - pos < Z.of_nat fuel ->
    payload_loop fuel data pos largest
    = Ok (fold_left (consider data) (met_from fuel data pos) largest).
Proof.
  induction fuel as [|fuel IH]; intros pos largest Hpos Hfuel Henough; [lia|].
  cbn [payload_loop met_from].
  destruct (Z.ltb_spec pos (len data - 5)) as [Hlt|Hge]; [|reflexivity].
  rewrite payload_step_spec by lia. cbn [bind fst snd fold_left].
  pose proof (next_position_forward data pos).
  apply IH; lia.
Qed.

Lemma fold_consider (data : bytes) (positions : list Z) :
  forall best,
    fold_left (consider data) positions best
    = fold_left keep_larger
        (map (candidate_body data) (filter (qualifying_candidate data) positions))
        best.
Proof.
  induction positions as [|p positions IH]; intros best; [reflexivity|].
  cbn [fold_left filter]. rewrite IH. unfold consider.
  destruct (qualifying_candidate data p); reflexivity.
Qed.

(** What keeping the larger candidate computes: the first of the
    longest elements, unless none is longer than the initial one. *)
Lemma fold_keep_larger (l : list bytes) : forall best,
  let r := fold_left keep_larger l best in
  (r = best /\ forall c, In c l -> len c <= len best)
  \/ (exists before after, l = before ++ r :: after
        /\ len best < len r
        /\ (forall c, In c before -> len c < len r)
        /\ (forall c, In c after -> len c <= len r)).
Proof.
  induction l as [|c l IH]; intros best; cbn zeta.
  - left. split; [reflexivity|]. intros c [].
  - cbn [fold_left].
    destruct (Z.gtb_spec (len c) (len best)) as [Hgt|Hle].
    + assert (Hk : keep_larger best c = c).
      { unfold keep_larger. destruct (Z.gtb_spec (len c) (len best)); [reflexivity|lia]. }
      rewrite Hk. right.
      destruct (IH c) as [[Hr Hall]|(before & after & Hl & Hlt & Hb & Ha)].
      * exists [], l. rewrite Hr. repeat split; try assumption; try lia.
        intros x [].
      * exists (c :: before), after. rewrite Hl at 1.
        repeat split; try assumption; try lia.
        intros x [<-|Hx]; [lia|]. apply Hb. assumption.
    + assert (Hk : keep_larger best c = best).
      { unfold keep_larger. destruct (Z.gtb_spec (len c) (len best)); [lia|reflexivity]. }
      rewrite Hk.
      destruct (IH best) as [[Hr Hall]|(before & after & Hl & Hlt & Hb & Ha)].
      * left. split; [assumption|]. intros x [<-|Hx]; [lia|]. apply Hall. assumption.
      * right. exists (c :: before), after. rewrite Hl at 1.
        repeat split; try assumption.
        intros x [<-|Hx]; [lia|]. apply Hb. assumption.
Qed.

Lemma met_from_nonneg (data : bytes) (fuel : nat) : forall pos,
  0 <= pos -> Forall (fun p => 0 <= p) (met_from fuel data pos).
Proof.
  induction fuel as [|fuel IH]; intros pos Hpos; cbn [met_from]; [constructor|].
  destruct (pos <? len data - 5); [|constructor].
  constructor; [assumption|]. apply IH.
  pose proof (next_position_forward data pos). lia.
Qed.

(** Every candidate that the scan meets is at least 10 bytes long. *)
Lemma met_candidates_len (data : bytes) (c : bytes) :
  In c (met_candidates data) -> 10 <= len c.
Proof.
  unfold met_candidates. intros Hin. apply in_map_iff in Hin.
  destruct Hin as (p & <- & Hp). apply filter_In in Hp. destruct Hp as [Hmet Hq].
  unfold qualifying_candidate in Hq.
  destruct (is_candidate data p) eqn:Hc; [|discriminate].
  assert (0 <= p).
  { pose proof (met_from_nonneg data (S (length data)) 0 ltac:(lia)) as Hall.
    rewrite Forall_forall in Hall. apply Hall. exact Hmet. }
  rewrite candidate_body_len by assumption.
  destruct (is_candidate_bounds _ _ Hc). lia.
Qed.

Lemma extract_payload_largest_of (data : bytes) :
  extract_payload_from_erlang data = Ok (largest_of (met_candidates data)).
Proof.
  unfold extract_payload_from_erlang, largest_of, met_candidates, met_positions.
  rewrite payload_loop_fold.
  - rewrite fold_consider. reflexivity.
  - lia.
  - lia.
  - pose proof (len_nonneg data). unfold len in *. lia.
Qed.

(** C3 (as amended).  For every entry body the extractor returns the
    largest of the candidates that its left-to-right scan meets and that
    pass the printable check, the first one among equally long ones, and
    the empty byte string when the scan meets none.  The scan resumes
    after the body of every candidate it meets, so a tag inside such a
    body is not met.  In particular, when the candidates met are two, of
    lengths 15 and 40, the 40-byte one is returned, as for the two
    sample buffers that hold such binaries one after the other. *)
Theorem extract_payload_largest_met (data : bytes) :
  exists r,
    extract_payload_from_erlang data = Ok r
    /\ r = largest_of (met_candidates data)
    /\ ((met_candidates data = [] /\ r = [])
        \/ (exists before after,
              met_candidates data = before ++ r :: after
              /\ (forall c, In c before -> len c < len r)
              /\ (forall c, In c after -> len c <= len r)))
    /\ (forall c15 c40, len c15 = 15 -> len c40 = 40 ->
          met_candidates data = [c15; c40] \/ met_candidates data = [c40; c15] ->
          r = c40)
    /\ extract_payload_from_erlang Samples.two_binaries = Ok Samples.binary_40
    /\ extract_payload_from_erlang Samples.two_binaries_swapped
       = Ok Samples.binary_40.
Proof.
  exists (largest_of (met_candidates data)).
  split; [apply extract_payload_largest_of|]. split; [reflexivity|].
  assert (Hshape :
    (met_candidates data = [] /\ largest_of (met_candidates data) = [])
    \/ (exists before after,
          met_candidates data = before ++ largest_of (met_candidates data) :: after
          /\ (forall c, In c before -> len c < len (largest_of (met_candidates data)))
          /\ (forall c, In c after -> len c <= len (largest_of (met_candidates data))))).
  { unfold largest_of.
    destruct (fold_keep_larger (met_candidates data) [])
      as [[Hr Hall]|(before & after & Hl & _ & Hb & Ha)].
    - left. split; [|assumption].
      destruct (met_candidates data) as [|c l] eqn:E; [reflexivity|].
      exfalso. assert (10 <= len c).
      { apply (met_candidates_len data). rewrite E. left. reflexivity. }
      specialize (Hall c (or_introl eq_refl)). cbn in Hall. lia.
    - right. exists before, after. repeat split; assumption. }
  split; [exact Hshape|]. split; [|split; vm_compute; reflexivity].
  intros c15 c40 H15 H40 Hcands.
  destruct Hshape as [[Hnil _]|(before & after & Hl & Hb & Ha)].
  - rewrite Hnil in Hcands. destruct Hcands; discriminate.
  - set (r := largest_of (met_candidates data)) in *.
    destruct Hcands as [E|E]; rewrite E in Hl.
    + destruct before as [|b0 before].
      * injection Hl as Hr Hafter. subst after.
        specialize (Ha c40 (or_introl eq_refl)). rewrite <- Hr in Ha. lia.
      * injection Hl as Hb0 Hrest. destruct before as [|b1 before].
        -- injection Hrest as Hr _. symmetry. exact Hr.
        -- injection Hrest as _ Hrest. destruct before; discriminate Hrest.
    + destruct before as [|b0 before].
      * injection Hl as Hr _. symmetry. exact Hr.
      * injection Hl as Hb0 Hrest. destruct before as [|b1 before].
        -- injection Hrest as Hr _. 
           specialize (Hb b0 (or_introl eq_refl)). rewrite <- Hb0, <- Hr in Hb. lia.
        -- injection Hrest as _ Hrest. destruct before; discriminate Hrest.
Qed.

Lemma extract_payload_largest_met_witness :
  extract_payload_from_erlang Samples.two_binaries = Ok Samples.binary_40.
Proof.
  destruct (extract_payload_largest_met Samples.two_binaries)
    as (r & Hr & _ & _ & Hpair & _).
  rewrite Hr. f_equal.
  apply (Hpair Samples.binary_15 Samples.binary_40).
  - vm_compute. reflexivity.
  - vm_compute. reflexivity.
  - left. vm_compute. reflexivity.
Defined.

(** C3, as it is written.  In the sample with two overlapping binaries
    the positions 0 and 5 both hold a tag, a length in range and a body
    that fits and passes the printable check, of 15 and of 40 bytes; the
    extractor returns the 15-byte one, because the scan resumes after
    it. *)
Lemma extract_payload_overlapping :
  qualifying_candidate Samples.overlapping_binaries 0 = true
  /\ len (candidate_body Samples.overlapping_binaries 0) = 15
  /\ qualifying_candidate Samples.overlapping_binaries 5 = true
  /\ len (candidate_body Samples.overlapping_binaries 5) = 40
  /\ extract_payload_from_erlang Samples.overlapping_binaries
     = Ok (candidate_body Samples.overlapping_binaries 0)
  /\ extract_payload_from_erlang Samples.overlapping_binaries
     <> Ok (candidate_body Samples.overlapping_binaries 5).
Proof.
  repeat split; try (vm_compute; reflexivity).
  vm_compute. intros H. discriminate H.
Qed.

(** C7 (as amended).  At every position that the scan examines, the
    position advances past tag, length and body exactly when the byte is
    the tag [0x6d], the length after it lies between 10 and 1 MiB and the
    body fits the buffer, whether or not the body passes the printable
    check; at every other position it advances by exactly one byte. *)
Theorem payload_step_advance (data : bytes) (pos : Z) (largest : bytes) :
  0 <= pos < len data - 5 ->
  exists pos' largest',
    payload_step data pos largest = Ok (pos', largest')
    /\ (is_candidate data pos = true ->
          pos' = pos + 5 + binary_length data pos
          /\ pos' = pos + 5 + len (candidate_body data pos))
    /\ (is_candidate data pos = false -> pos' = pos + 1).
Proof.
  intros Hpos. exists (next_position data pos), (consider data largest pos).
  split; [apply payload_step_spec; assumption|].
  unfold next_position. split; intros Hc; rewrite Hc.
  - split; [reflexivity|]. rewrite candidate_body_len by (assumption || lia).
    reflexivity.
  - reflexivity.
Qed.

Lemma payload_step_advance_witness :
  0 <= 0 < len Samples.unprintable_binary - 5
  /\ exists largest', payload_step Samples.unprintable_binary 0 [] = Ok (15, largest').
Proof.
  assert (Hpos : 0 <= 0 < len Samples.unprintable_binary - 5) by (vm_compute; split; [discriminate|reflexivity]).
  split; [exact Hpos|].
  destruct (payload_step_advance Samples.unprintable_binary 0 [] Hpos)
    as (pos' & largest' & Hstep & Hcand & _).
  exists largest'. rewrite Hstep.
  destruct (Hcand ltac:(vm_compute; reflexivity)) as [-> _].
  vm_compute. reflexivity.
Defined.

(** C7, as it is written.  The sample holds a binary of length 10
    without a printable byte: it does not pass the printable check, and
    yet the scan advances past it, by 15 bytes and not by one. *)
Lemma payload_step_skips_unprintable :
  is_candidate Samples.unprintable_binary 0 = true
  /\ qualifies (candidate_body Samples.unprintable_binary 0) = false
  /\ payload_step Samples.unprintable_binary 0 [] = Ok (15, [])
  /\ 15 <> 0 + 1.
Proof.
  repeat split; try (vm_compute; reflexivity).
  intros H. discriminate H.
Qed.

(** ** ContentValidator *)

Lemma lstrip_with_keeps {A : Type} (p : A -> bool) (l : list A) (x : A) :
  In x l -> p x = false -> In x (lstrip_with p l).
Proof.
  induction l as [|y l IH]; intros Hin Hx; [contradiction|].
  cbn [lstrip_with]. destruct (p y) eqn:Hy; [|assumption].
  destruct Hin as [->|Hin]; [congruence|]. apply IH; assumption.
Qed.

Lemma rstrip_with_keeps {A : Type} (p : A -> bool) (l : list A) (x : A) :
  In x l -> p x = false -> In x (rstrip_with p l).
Proof.
  unfold rstrip_with. induction l as [|y l IH]; intros Hin Hx; [contradiction|].
  cbn [fold_right]. destruct Hin as [->|Hin].
  - destruct (fold_right _ [] l); [rewrite Hx|]; left; reflexivity.
  - specialize (IH Hin Hx). destruct (fold_right _ [] l); [contradiction|].
    right. assumption.
Qed.

Lemma lstrip_with_incl {A : Type} (p : A -> bool) (l : list A) (x : A) :
  In x (lstrip_with p l) -> In x l.
Proof.
  induction l as [|y l IH]; intros Hin; [contradiction|].
  cbn [lstrip_with] in Hin. destruct (p y); [right; apply IH|]; assumption.
Qed.

Lemma rstrip_with_incl {A : Type} (p : A -> bool) (l : list A) (x : A) :
  In x (rstrip_with p l) -> In x l.
Proof.
  unfold rstrip_with. induction l as [|y l IH]; intros Hin; [contradiction|].
  cbn [fold_right] in Hin. destruct (fold_right _ [] l) eqn:E.
  - destruct (p y); [contradiction|]. destruct Hin as [->|[]]. left. reflexivity.
  - destruct Hin as [->|Hin]; [left; reflexivity|right; apply IH; assumption].
Qed.

Lemma strip_with_keeps {A : Type} (p : A -> bool) (l : list A) (x : A) :
  In x l -> p x = false -> In x (strip_with p l).
Proof.
  intros Hin Hx. unfold strip_with.
  apply rstrip_with_keeps; [apply lstrip_with_keeps|]; assumption.
Qed.

Lemma strip_with_incl {A : Type} (p : A -> bool) (l : list A) (x : A) :
  In x (strip_with p l) -> In x l.
Proof.
  unfold strip_with. intros Hin.
  apply lstrip_with_incl with (p := p). apply rstrip_with_incl with (p := p).
  assumption.
Qed.

Lemma count_if_all {A : Type} (p : A -> bool) (l : list A) :
  (forall x, In x l -> p x = true) -> count_if p l = len l.
Proof.
  intros Hall. unfold count_if. f_equal.
  induction l as [|y l IH]; [reflexivity|].
  cbn [filter]. rewrite (Hall y (or_introl eq_refl)). f_equal.
  apply IH. intros x Hx. apply Hall. right. assumption.
Qed.

(** Replace every integer comparison of the goal whose outcome follows
    from the hypotheses by that outcome. *)
Ltac decide_comparisons :=
  repeat match goal with
         | |- context [?a <=? ?b] =>
             first [ replace (a <=? b) with true
                       by (symmetry; apply Z.leb_le; lia)
                   | replace (a <=? b) with false
                       by (symmetry; apply Z.leb_gt; lia) ]
         | |- context [?a <? ?b] =>
             first [ replace (a <? b) with true
                       by (symmetry; apply Z.ltb_lt; lia)
                   | replace (a <? b) with false
                       by (symmetry; apply Z.ltb_ge; lia) ]
         | |- context [?a =? ?b] =>
             first [ replace (a =? b) with true
                       by (symmetry; apply Z.eqb_eq; lia)
                   | replace (a =? b) with false
                       by (symmetry; apply Z.eqb_neq; lia) ]
         end.

Lemma ascii_alnum_range (c : Z) :
  ((48 <=? c) && (c <=? 57)) || ((65 <=? c) && (c <=? 90))
  || ((97 <=? c) && (c <=? 122)) = true ->
  48 <= c <= 57 \/ 65 <= c <= 90 \/ 97 <= c <= 122.
Proof.
  intros H. apply orb_prop in H. destruct H as [H|H].
  - apply orb_prop in H. destruct H as [H|H];
      apply andb_prop in H; destruct H as [H1 H2];
      apply Z.leb_le in H1, H2; lia.
  - apply andb_prop in H. destruct H as [H1 H2].
    apply Z.leb_le in H1, H2. lia.
Qed.

Section ValidatorProperties.
Context {db : UnicodeDB}.

(** No alphanumeric character is whitespace. *)
Lemma char_isalnum_not_space (c : Z) :
  char_isalnum c = true -> isspace c = false.
Proof.
  unfold char_isalnum. destruct (Z.ltb_spec c 128) as [Hlt|Hge].
  - intros H. apply ascii_alnum_range in H. unfold isspace. decide_comparisons.
    reflexivity.
  - apply uni_alnum_not_space.
Qed.

Lemma isalnum_iff (s : str) :
  isalnum s = true <-> s <> [] /\ forall c, In c s -> char_isalnum c = true.
Proof.
  unfold isalnum. destruct s as [|c s].
  - split; [discriminate|]. intros [H _]. congruence.
  - rewrite forallb_forall. split.
    + intros H. split; [discriminate|assumption].
    + intros [_ H]. assumption.
Qed.

Lemma remove_line_breaks_In (s : str) (c : Z) :
  In c (remove_char 13 (remove_char 10 s)) <-> In c s /\ c <> 10 /\ c <> 13.
Proof.
  unfold remove_char. rewrite !filter_In, !negb_true_iff, !Z.eqb_neq. tauto.
Qed.

(** The third test of [is_valid_content] strips before it removes the
    line breaks; that does not save a content whose characters other
    than line breaks are all alphanumeric. *)
Lemma isalnum_after_strip (content : str) :
  isalnum (without_line_breaks content) = true ->
  isalnum (remove_char 13 (remove_char 10 (str_strip content))) = true.
Proof.
  change (without_line_breaks content)
    with (remove_char 13 (remove_char 10 content)).
  rewrite !isalnum_iff. intros [Hne Hall]. split.
  - destruct (remove_char 13 (remove_char 10 content)) as [|x rest] eqn:E;
      [congruence|].
    assert (Hx : In x (x :: rest)) by (left; reflexivity).
    assert (Hal : char_isalnum x = true) by (apply Hall; exact Hx).
    rewrite <- E in Hx.
    apply remove_line_breaks_In in Hx. destruct Hx as (Hin & H10 & H13).
    intros Hnil.
    assert (Hx' : In x (remove_char 13 (remove_char 10 (str_strip content)))).
    { apply remove_line_breaks_In. repeat split; try assumption.
      apply strip_with_keeps; [assumption|].
      apply char_isalnum_not_space. assumption. }
    rewrite Hnil in Hx'. contradiction.
  - intros c Hc. apply Hall. apply remove_line_breaks_In in Hc.
    apply remove_line_breaks_In. destruct Hc as (Hin & H10 & H13).
    repeat split; try assumption. apply strip_with_incl in Hin. assumption.
Qed.

End ValidatorProperties.

Lemma In_firstn {A : Type} (n : nat) (l : list A) (x : A) :
  In x (firstn n l) -> In x l.
Proof.
  intros H. rewrite <- (firstn_skipn n l). apply in_or_app. left. assumption.
Qed.

Section ValidatorVerdicts.
Context {db : UnicodeDB}.

Lemma is_valid_content_short (content : str) :
  len content < 10 -> is_valid_content content = false.
Proof.
  intros H. unfold is_valid_content.
  destruct (Z.ltb_spec (len content) 10); [reflexivity|lia].
Qed.

Lemma is_valid_content_unprintable (content : str) :
  mostly_unprintable content -> is_valid_content content = false.
Proof.
  unfold mostly_unprintable. intros H. unfold is_valid_content.
  destruct (len content <? 10); [reflexivity|].
  unfold count_if, slice_to. change (Z.to_nat 200) with 200%nat.
  change (fun c : Z => isprintable c || (c =? 10) || (c =? 13) || (c =? 9))
    with printable_or_whitespace.
  destruct (Z.ltb_spec
              (10 * len (filter printable_or_whitespace (firstn 200 content)))
              (7 * len (firstn 200 content))); [reflexivity|lia].
Qed.

Lemma is_valid_content_alnum (content : str) :
  isalnum (without_line_breaks content) = true -> 100 < len content ->
  is_valid_content content = false.
Proof.
  intros Hal Hlen. unfold is_valid_content.
  destruct (len content <? 10); [reflexivity|].
  match goal with |- (if ?c then _ else _) = _ => destruct c end;
    [reflexivity|].
  rewrite isalnum_after_strip by assumption.
  destruct (Z.gtb_spec (len content) 100); [reflexivity|lia].
Qed.

Lemma ascii_text_printable (c : Z) :
  ascii_text c = true -> printable_or_whitespace c = true.
Proof.
  unfold ascii_text, printable_or_whitespace, isprintable. intros H.
  destruct (Z.ltb_spec c 128) as [Hlt|Hge]; [assumption|].
  destruct (Z.eqb_spec c 10); [lia|]. destruct (Z.eqb_spec c 13); [lia|].
  destruct (Z.eqb_spec c 9); [lia|].
  destruct (Z.leb_spec c 126); [lia|].
  rewrite andb_false_r in H. discriminate.
Qed.

Lemma ascii_punctuation_facts (c : Z) :
  ascii_punctuation c = true ->
  char_isalnum c = false /\ isspace c = false /\ c <> 10 /\ c <> 13.
Proof.
  unfold ascii_punctuation. intros H.
  apply andb_prop in H. destruct H as [H Hna].
  apply andb_prop in H. destruct H as [Hlo Hhi].
  apply Z.leb_le in Hlo, Hhi. apply negb_true_iff in Hna.
  repeat split; try lia.
  - unfold char_isalnum. destruct (Z.ltb_spec c 128); [assumption|lia].
  - unfold isspace. decide_comparisons. reflexivity.
Qed.

(** Text with some punctuation in it, at least 10 characters long, is
    accepted. *)
Lemma is_valid_content_text (content : str) :
  10 <= len content ->
  (forall c, In c content -> ascii_text c = true) ->
  (exists c, In c content /\ ascii_punctuation c = true) ->
  is_valid_content content = true.
Proof.
  intros Hlen Htext (x & Hx & Hpunct). unfold is_valid_content.
  destruct (Z.ltb_spec (len content) 10); [lia|].
  rewrite count_if_all.
  2:{ intros c Hc. apply ascii_text_printable. apply Htext.
      unfold slice_to in Hc. apply In_firstn in Hc. assumption. }
  pose proof (len_nonneg (slice_to content 200)).
  destruct (Z.ltb_spec (10 * len (slice_to content 200))
                       (7 * len (slice_to content 200))); [lia|].
  destruct (ascii_punctuation_facts x Hpunct) as (Hna & Hns & H10 & H13).
  assert (Hnot : isalnum (remove_char 13 (remove_char 10 (str_strip content)))
                 = false).
  { destruct (isalnum _) eqn:E; [|reflexivity].
    apply isalnum_iff in E. destruct E as [_ Hall].
    rewrite Hall in Hna; [discriminate|].
    apply remove_line_breaks_In. repeat split; try assumption.
    apply strip_with_keeps; assumption. }
  rewrite Hnot. reflexivity.
Qed.

Lemma without_line_breaks_alnum (content : str) :
  (forall c, In c content -> char_isalnum c = true) ->
  without_line_breaks content = content.
Proof.
  intros Hall. unfold without_line_breaks.
  assert (Hf : forall k, k = 10 \/ k = 13 ->
            forall l : str, (forall c, In c l -> char_isalnum c = true) ->
            filter (fun c => negb (c =? k)) l = l).
  { intros k Hk l Hl. induction l as [|y l IH]; [reflexivity|].
    cbn [filter].
    assert (Hy : isspace y = false)
      by (apply char_isalnum_not_space; apply Hl; left; reflexivity).
    destruct (Z.eqb_spec y k) as [->|Hne].
    - destruct Hk as [->| ->]; cbv in Hy; discriminate.
    - cbn [negb]. f_equal. apply IH. intros c Hc. apply Hl. right. assumption. }
  rewrite (Hf 10) by auto. apply (Hf 13); auto.
Qed.

(** A string of more than 100 letters and digits is rejected. *)
Lemma is_valid_content_letters_digits (content : str) :
  100 < len content ->
  (forall c, In c content -> char_isalnum c = true) ->
  is_valid_content content = false.
Proof.
  intros Hlen Hall. apply is_valid_content_alnum; [|assumption].
  rewrite without_line_breaks_alnum by assumption.
  apply isalnum_iff. split; [|assumption].
  intros ->. unfold len in Hlen. cbn [length] in Hlen. lia.
Qed.

Import Samples.

Lemma alnum_150_chars (c : Z) : In c alnum_150 -> char_isalnum c = true.
Proof.
  intros Hc.
  assert (Hall : forallb (fun c => (c <? 128)
                    && (((48 <=? c) && (c <=? 57)) || ((65 <=? c) && (c <=? 90))
                        || ((97 <=? c) && (c <=? 122)))) alnum_150 = true)
    by (vm_compute; reflexivity).
  rewrite forallb_forall in Hall. specialize (Hall c Hc).
  apply andb_prop in Hall. destruct Hall as [Hlt Hal].
  unfold char_isalnum. rewrite Hlt. assumption.
Qed.

Lemma alnum_150_len : len alnum_150 = 150.
Proof. vm_compute. reflexivity. Qed.

Lemma json_like_150_len : len json_like_150 = 150.
Proof. vm_compute. reflexivity. Qed.

Lemma json_like_150_text (c : Z) : In c json_like_150 -> ascii_text c = true.
Proof.
  assert (Hall : forallb ascii_text json_like_150 = true)
    by (vm_compute; reflexivity).
  rewrite forallb_forall in Hall. apply Hall.
Qed.

Lemma json_like_150_punctuation :
  exists c, In c json_like_150 /\ ascii_punctuation c = true.
Proof.
  exists 123. split; [|vm_compute; reflexivity].
  assert (H : existsb (fun c => c =? 123) json_like_150 = true)
    by (vm_compute; reflexivity).
  apply existsb_exists in H. destruct H as (x & Hx & Heq).
  apply Z.eqb_eq in Heq. subst x. assumption.
Qed.

(** C4.  The validator rejects every string shorter than 10 characters,
    every string of whose first 200 characters fewer than 70% are
    printable or of the whitespace class, and every string longer than
    100 characters that is purely alphanumeric once its newlines and
    carriage returns are removed.  So it rejects every 150-character
    string of letters and digits, and it accepts every 150-character
    string of printable ASCII, newlines, carriage returns and tabs that
    holds a punctuation character, such as the JSON-like sample. *)
Theorem is_valid_content_verdicts (content : str) :
  (len content < 10 -> is_valid_content content = false)
  /\ (mostly_unprintable content -> is_valid_content content = false)
  /\ (isalnum (without_line_breaks content) = true -> 100 < len content ->
        is_valid_content content = false)
  /\ (len content = 150 ->
      (forall c, In c content -> char_isalnum c = true) ->
        is_valid_content content = false)
  /\ (len content = 150 ->
      (forall c, In c content -> ascii_text c = true) ->
      (exists c, In c content /\ ascii_punctuation c = true) ->
        is_valid_content content = true)
  /\ len alnum_150 = 150 /\ is_valid_content alnum_150 = false
  /\ len json_like_150 = 150 /\ is_valid_content json_like_150 = true.
Proof.
  split; [apply is_valid_content_short|].
  split; [apply is_valid_content_unprintable|].
  split; [apply is_valid_content_alnum|].
  split; [|split].
  - intros Hlen Hall. apply is_valid_content_letters_digits; [lia|assumption].
  - intros Hlen Htext Hpunct.
    apply is_valid_content_text; [lia|assumption|assumption].
  - split; [apply alnum_150_len|]. split.
    { apply is_valid_content_letters_digits;
        [rewrite alnum_150_len; lia|apply alnum_150_chars]. }
    split; [apply json_like_150_len|].
    apply is_valid_content_text;
      [rewrite json_like_150_len; lia|apply json_like_150_text
      |apply json_like_150_punctuation].
Qed.

End ValidatorVerdicts.

Lemma is_valid_content_verdicts_witness :
  @is_valid_content ascii_only_db (s_ "too short") = false
  /\ @is_valid_content ascii_only_db Samples.alnum_150 = false
  /\ @is_valid_content ascii_only_db Samples.json_like_150 = true.
Proof.
  split; [|split].
  - destruct (@is_valid_content_verdicts ascii_only_db (s_ "too short"))
      as (H & _).
    apply H. vm_compute. reflexivity.
  - destruct (@is_valid_content_verdicts ascii_only_db Samples.alnum_150)
      as (_ & _ & _ & H & _).
    apply H; [apply alnum_150_len|apply alnum_150_chars].
  - destruct (@is_valid_content_verdicts ascii_only_db Samples.json_like_150)
      as (_ & _ & _ & _ & H & _).
    apply H; [apply json_like_150_len|apply json_like_150_text
             |apply json_like_150_punctuation].
Defined.


(** ** SegmentCatalog *)

Lemma insert_keyed_perm (x : Z * str) (l : list (Z * str)) :
  Permutation (insert_keyed x l) (x :: l).
Proof.
  induction l as [|y l IH]; cbn [insert_keyed]; [reflexivity|].
  destruct (fst x <=? fst y); [reflexivity|].
  rewrite IH. apply perm_swap.
Qed.

Lemma insert_keyed_sorted (x : Z * str) (l : list (Z * str)) :
  StronglySorted key_le l -> StronglySorted key_le (insert_keyed x l).
Proof.
  induction l as [|y l IH]; intros Hs; cbn [insert_keyed].
  - repeat constructor.
  - inversion Hs as [|? ? Hs' Hy]; subst.
    destruct (Z.leb_spec (fst x) (fst y)) as [Hle|Hgt].
    + constructor; [assumption|]. constructor; [exact Hle|].
      rewrite Forall_forall in *. intros z Hz. specialize (Hy z Hz).
      unfold key_le in *. lia.
    + constructor; [apply IH; assumption|].
      rewrite Forall_forall in *. intros z Hz.
      apply (Permutation_in _ (insert_keyed_perm x l)) in Hz.
      destruct Hz as [<-|Hz]; [unfold key_le; lia|apply Hy; assumption].
Qed.

Lemma sort_keyed_perm (l : list (Z * str)) : Permutation (sort_keyed l) l.
Proof.
  unfold sort_keyed. induction l as [|x l IH]; cbn [fold_right]; [reflexivity|].
  rewrite insert_keyed_perm. constructor. assumption.
Qed.

Lemma sort_keyed_sorted (l : list (Z * str)) :
  StronglySorted key_le (sort_keyed l).
Proof.
  unfold sort_keyed. induction l as [|x l IH]; cbn [fold_right].
  - constructor.
  - apply insert_keyed_sorted. assumption.
Qed.

(** A sorted list of integers is determined by its elements. *)
Lemma sorted_perm_unique (l1 : list Z) : forall l2,
  StronglySorted Z.le l1 -> StronglySorted Z.le l2 -> Permutation l1 l2 ->
  l1 = l2.
Proof.
  induction l1 as [|a l1 IH]; intros l2 H1 H2 Hp.
  - apply Permutation_nil in Hp. congruence.
  - destruct l2 as [|b l2].
    { apply Permutation_sym, Permutation_nil in Hp. discriminate. }
    inversion H1 as [|? ? H1' Ha]; subst. inversion H2 as [|? ? H2' Hb]; subst.
    rewrite Forall_forall in Ha, Hb.
    assert (a = b).
    { assert (Hina : In a (b :: l2))
        by (apply (Permutation_in _ Hp); left; reflexivity).
      assert (Hinb : In b (a :: l1))
        by (apply (Permutation_in _ (Permutation_sym Hp)); left; reflexivity).
      destruct Hina as [->|Hina]; [reflexivity|].
      destruct Hinb as [->|Hinb]; [reflexivity|].
      specialize (Ha b Hinb). specialize (Hb a Hina). lia. }
    subst b. f_equal. apply IH; try assumption.
    apply Permutation_cons_inv with (a := a). assumption.
Qed.

(** *** Paths *)

Lemma basename_no_slash (f : str) : ~ In 47 f -> basename f = f.
Proof.
  induction f as [|c f IH]; intros Hn; [reflexivity|].
  cbn [basename].
  assert (He : existsb (fun x => x =? 47) f = false).
  { destruct (existsb _ f) eqn:E; [|reflexivity].
    apply existsb_exists in E. destruct E as (x & Hx & Heq).
    apply Z.eqb_eq in Heq. subst x. exfalso. apply Hn. right. assumption. }
  rewrite He. destruct (Z.eqb_spec c 47) as [->|_]; [|reflexivity].
  exfalso. apply Hn. left. reflexivity.
Qed.

Lemma basename_after_slash (a f : str) :
  ~ In 47 f -> basename (a ++ 47 :: f) = f.
Proof.
  intros Hn.
  assert (He : existsb (fun x => x =? 47) f = false).
  { destruct (existsb _ f) eqn:E; [|reflexivity].
    apply existsb_exists in E. destruct E as (x & Hx & Heq).
    apply Z.eqb_eq in Heq. subst x. contradiction. }
  induction a as [|c a IH]; cbn [app basename].
  - rewrite He. reflexivity.
  - assert (Hs : existsb (fun x => x =? 47) (a ++ 47 :: f) = true).
    { apply existsb_exists. exists 47. split; [|reflexivity].
      apply in_or_app. right. left. reflexivity. }
    rewrite Hs. assumption.
Qed.

(** A directory entry holds no slash, and then [basename] undoes
    [path_join]. *)
Lemma basename_path_join (directory f : str) :
  ~ In 47 f -> basename (path_join directory f) = f.
Proof.
  intros Hn. unfold path_join. change (s_ "/") with [47].
  assert (Hstart : str_startswith f [47] = false).
  { destruct f as [|c f]; [reflexivity|]. cbn [str_startswith].
    destruct (Z.eqb_spec 47 c) as [<-|_]; [|reflexivity].
    exfalso. apply Hn. left. reflexivity. }
  rewrite Hstart.
  destruct directory as [|c directory]; [apply basename_no_slash; assumption|].
  cbn [orb].
  destruct (str_endswith (c :: directory) [47]) eqn:E.
  - unfold str_endswith in E. change (rev [47]) with [47] in E.
    destruct (rev (c :: directory)) as [|z r] eqn:Er; [discriminate E|].
    cbn [str_startswith] in E. apply andb_prop in E. destruct E as [Ez _].
    apply Z.eqb_eq in Ez. subst z.
    assert (Hd : c :: directory = rev r ++ [47]).
    { rewrite <- (rev_involutive (c :: directory)), Er. reflexivity. }
    rewrite Hd, <- app_assoc. apply basename_after_slash. assumption.
  - replace ((c :: directory) ++ [47] ++ f) with ((c :: directory) ++ 47 :: f)
      by reflexivity.
    apply basename_after_slash. assumption.
Qed.

Lemma Permutation_filter_same {A : Type} (p : A -> bool) (l l' : list A) :
  Permutation l l' -> Permutation (filter p l) (filter p l').
Proof.
  induction 1 as [|x l l' _ IH|x y l|l l' l'' _ IH1 _ IH2]; cbn [filter].
  - constructor.
  - destruct (p x); [constructor|]; assumption.
  - destruct (p x), (p y); try reflexivity. apply perm_swap.
  - etransitivity; eassumption.
Qed.

Section CatalogProperties.
Context {db : UnicodeDB}.

(** [int] returns or raises [ValueError]. *)
Lemma py_int_cases (s : str) :
  (exists n, py_int s = Ok n) \/ py_int s = Raise ValueError.
Proof.
  unfold py_int.
  match goal with
  | |- context [match ?p with Some _ => _ | None => _ end] => destruct p
  end; [left; eauto|right; reflexivity].
Qed.

Lemma with_keys_ok (l : list str) :
  (forall f, In f l -> exists n, sequence_number f = Ok n) ->
  with_keys l = Ok (map (fun f => (key_of f, f)) l).
Proof.
  induction l as [|f l IH]; intros Hall; [reflexivity|].
  cbn [with_keys map]. destruct (Hall f (or_introl eq_refl)) as [n Hn].
  unfold key_of at 1. rewrite Hn. cbn [bind].
  rewrite IH by (intros g Hg; apply Hall; right; assumption).
  reflexivity.
Qed.

Lemma with_keys_raise (l : list str) (f : str) :
  In f l -> sequence_number f = Raise ValueError ->
  with_keys l = Raise ValueError.
Proof.
  induction l as [|g l IH]; intros Hin Hf; [contradiction|].
  cbn [with_keys].
  destruct (py_int_cases (split_head 46 (basename g))) as [[n Hn]|Hr];
    unfold sequence_number at 1.
  - rewrite Hn. cbn [bind]. destruct Hin as [->|Hin].
    + unfold sequence_number in Hf. congruence.
    + rewrite IH by assumption. reflexivity.
  - rewrite Hr. reflexivity.
Qed.

Lemma sequence_number_path_join (directory filename : str) :
  ~ In 47 filename ->
  sequence_number (path_join directory filename)
  = py_int (split_head 46 filename).
Proof.
  intros Hn. unfold sequence_number. rewrite basename_path_join by assumption.
  reflexivity.
Qed.

(** When every segment name has a numeric prefix, the catalog is the
    stable sort of the segment paths by their integer value. *)
Lemma scan_files_ok (directory : str) (listing : list str) :
  (forall f, In f listing -> ~ In 47 f) ->
  (forall f, In f listing -> str_endswith f (s_ ".qs") = true ->
             exists n, numeric_prefix f n) ->
  scan_files directory listing
  = Ok (map snd (sort_keyed (map (fun f => (key_of f, f))
                                 (segment_paths directory listing)))).
Proof.
  intros Hslash Hnum. unfold scan_files. fold (segment_paths directory listing).
  rewrite with_keys_ok; [reflexivity|].
  intros p Hp. unfold segment_paths in Hp. apply in_map_iff in Hp.
  destruct Hp as (f & <- & Hf). apply filter_In in Hf. destruct Hf as [Hin Hqs].
  rewrite sequence_number_path_join by (apply Hslash; assumption).
  apply Hnum; assumption.
Qed.

End CatalogProperties.

Lemma split_head_app (digits rest : str) :
  Forall (fun c => c <> 46) digits ->
  split_head 46 (digits ++ 46 :: rest) = digits.
Proof.
  induction 1 as [|c digits Hc _ IH]; cbn [app split_head].
  - reflexivity.
  - destruct (Z.eqb_spec c 46); [contradiction|]. rewrite IH. reflexivity.
Qed.

Lemma rstrip_with_all_kept {A : Type} (q : A -> bool) (l : list A) :
  Forall (fun x => q x = false) l -> rstrip_with q l = l.
Proof.
  unfold rstrip_with. induction 1 as [|x l Hx _ IH]; cbn [fold_right];
    [reflexivity|].
  rewrite IH. destruct l; [rewrite Hx|]; reflexivity.
Qed.

Lemma strip_with_all_kept {A : Type} (q : A -> bool) (l : list A) :
  Forall (fun x => q x = false) l -> strip_with q l = l.
Proof.
  intros Hall. unfold strip_with.
  replace (lstrip_with q l) with l
    by (destruct Hall as [|x l Hx _]; cbn [lstrip_with];
        [|rewrite Hx]; reflexivity).
  apply rstrip_with_all_kept. assumption.
Qed.

Section CatalogValues.
Context {db : UnicodeDB}.

(** Digits after a digit, or at the start when there is one: the number
    they denote. *)
Lemma parse_digits_decimal (l : str) :
  Forall (fun c => 48 <= c <= 57) l ->
  forall (acc : Z) (after_digit : bool),
    (l <> [] \/ after_digit = true) ->
    parse_digits l acc after_digit
    = Some (fold_left (fun acc c => acc * 10 + (c - 48)) l acc).
Proof.
  induction 1 as [|c l Hc _ IH]; intros acc after_digit Hstart.
  - destruct Hstart as [Hne|Hflag]; [contradiction|]. rewrite Hflag.
    reflexivity.
  - cbn [parse_digits fold_left].
    destruct (Z.eqb_spec c 95); [lia|].
    unfold decimal_value. destruct (Z.ltb_spec c 128); [|lia].
    destruct (Z.leb_spec 48 c); [|lia]. destruct (Z.leb_spec c 57); [|lia].
    cbn [andb]. apply IH. right. reflexivity.
Qed.

(** A prefix of ASCII digits is read by [int] as the number that the
    digits denote. *)
Lemma numeric_prefix_decimal (digits rest : str) :
  ascii_digits digits ->
  numeric_prefix (digits ++ 46 :: rest) (decimal digits).
Proof.
  intros [Hne Hall]. unfold numeric_prefix.
  rewrite split_head_app
    by (rewrite Forall_forall in *; intros c Hc; specialize (Hall c Hc); lia).
  unfold py_int.
  rewrite strip_with_all_kept
    by (rewrite Forall_forall in *; intros c Hc; specialize (Hall c Hc);
        unfold int_isspace;
        destruct (Z.ltb_spec c 127); [|lia];
        destruct (Z.eqb_spec c 32); [lia|];
        destruct (Z.leb_spec 9 c); [|lia];
        destruct (Z.leb_spec c 13); [lia|reflexivity]).
  destruct digits as [|c r]; [contradiction|].
  assert (Hc : 48 <= c <= 57) by (inversion Hall; assumption).
  destruct (Z.eqb_spec c 43); [lia|]. destruct (Z.eqb_spec c 45); [lia|].
  rewrite parse_digits_decimal; [reflexivity|assumption|left; assumption].
Qed.

End CatalogValues.

(** *** The order of the catalog *)

Lemma insert_keyed_relabel (g : str -> str) (x : Z * str)
  (l : list (Z * str)) :
  insert_keyed (fst x, g (snd x)) (map (fun kf => (fst kf, g (snd kf))) l)
  = map (fun kf => (fst kf, g (snd kf))) (insert_keyed x l).
Proof.
  induction l as [|y l IH]; cbn [map insert_keyed fst]; [reflexivity|].
  destruct (fst x <=? fst y); cbn [map]; [reflexivity|].
  rewrite IH. reflexivity.
Qed.

(** The sort looks at the keys only. *)
Lemma sort_keyed_relabel (g : str -> str) (l : list (Z * str)) :
  sort_keyed (map (fun kf => (fst kf, g (snd kf))) l)
  = map (fun kf => (fst kf, g (snd kf))) (sort_keyed l).
Proof.
  unfold sort_keyed. induction l as [|x l IH]; cbn [map fold_right];
    [reflexivity|].
  rewrite IH. apply insert_keyed_relabel.
Qed.

Lemma StronglySorted_weaken {A : Type} (R R' : A -> A -> Prop) (l : list A) :
  (forall a b, In a l -> In b l -> R a b -> R' a b) ->
  StronglySorted R l -> StronglySorted R' l.
Proof.
  intros Himp Hs. induction Hs as [|x l Hs IH Hx]; constructor.
  - apply IH. intros a b Ha Hb. apply Himp; right; assumption.
  - rewrite Forall_forall in *. intros y Hy.
    apply Himp; [left; reflexivity|right; assumption|apply Hx; assumption].
Qed.

Lemma sorted_by_key (v : str -> Z) (keyed : list (Z * str)) :
  Forall (fun kf => fst kf = v (snd kf)) keyed ->
  StronglySorted key_le keyed ->
  StronglySorted (fun a b => v a <= v b) (map snd keyed).
Proof.
  intros Hall Hs. induction Hs as [|x l Hs IH Hx]; cbn [map]; constructor.
  - apply IH. inversion Hall; assumption.
  - inversion Hall as [|? ? Hxv Hl]; subst. rewrite Forall_forall in *.
    intros y Hy. apply in_map_iff in Hy. destruct Hy as (kf & <- & Hkf).
    rewrite <- Hxv, <- (Hl kf Hkf). apply Hx. assumption.
Qed.

Lemma StronglySorted_map_le {A : Type} (v : A -> Z) (l : list A) :
  StronglySorted (fun a b => v a <= v b) l -> StronglySorted Z.le (map v l).
Proof.
  induction 1 as [|x l _ IH Hx]; cbn [map]; constructor; [assumption|].
  rewrite Forall_forall in *. intros k Hk. apply in_map_iff in Hk.
  destruct Hk as (y & <- & Hy). apply Hx. assumption.
Qed.

(** In a strictly ascending list the value determines the element. *)
Lemma strictly_sorted_inj {A : Type} (v : A -> Z) (l : list A) :
  StronglySorted (fun a b => v a < v b) l ->
  forall x y, In x l -> In y l -> v x = v y -> x = y.
Proof.
  induction 1 as [|z l _ IH Hz]; intros x y Hx Hy Heq; [contradiction|].
  rewrite Forall_forall in Hz.
  destruct Hx as [->|Hx], Hy as [->|Hy].
  - reflexivity.
  - specialize (Hz y Hy). lia.
  - specialize (Hz x Hx). lia.
  - apply IH; assumption.
Qed.

Lemma map_eq_inj {A : Type} (v : A -> Z) (l1 : list A) : forall l2,
  (forall x y, In x l1 -> In y l2 -> v x = v y -> x = y) ->
  map v l1 = map v l2 -> l1 = l2.
Proof.
  induction l1 as [|a l1 IH]; intros [|b l2] Hinj Heq; try discriminate Heq;
    [reflexivity|].
  cbn [map] in Heq. injection Heq as Hab Hrest.
  rewrite (Hinj a b (or_introl eq_refl) (or_introl eq_refl) Hab).
  f_equal. apply IH; [|assumption].
  intros x y Hx Hy. apply Hinj; right; assumption.
Qed.


Section CatalogTheorems.
Context {db : UnicodeDB}.

Import Samples.

Lemma numeric_prefix_functional (f : str) (n m : Z) :
  numeric_prefix f n -> numeric_prefix f m -> n = m.
Proof. unfold numeric_prefix. intros Hn Hm. congruence. Qed.

(** The key of the path of a name is the integer before the first dot of
    the name. *)
Lemma key_of_path_join (directory filename : str) (n : Z) :
  ~ In 47 filename -> numeric_prefix filename n ->
  key_of (path_join directory filename) = n.
Proof.
  intros Hslash Hn. unfold key_of.
  rewrite sequence_number_path_join by assumption.
  unfold numeric_prefix in Hn. rewrite Hn. reflexivity.
Qed.

(** Names of equal values carry the same integer. *)
Lemma same_values_same_prefix (v : str -> Z) (l1 : list str) : forall l2,
  (forall f, In f l1 -> numeric_prefix f (v f)) ->
  (forall f, In f l2 -> numeric_prefix f (v f)) ->
  map v l1 = map v l2 -> Forall2 same_prefix l1 l2.
Proof.
  induction l1 as [|a l1 IH]; intros [|b l2] H1 H2 Heq; try discriminate Heq;
    constructor.
  - cbn [map] in Heq. injection Heq as Hab _.
    pose proof (H1 a (or_introl eq_refl)) as Ha.
    pose proof (H2 b (or_introl eq_refl)) as Hb.
    intros n. split; intros Hn.
    + rewrite (numeric_prefix_functional _ _ _ Hn Ha), Hab. exact Hb.
    + rewrite (numeric_prefix_functional _ _ _ Hn Hb), <- Hab. exact Ha.
  - cbn [map] in Heq. injection Heq as _ Hrest. apply IH; [| |assumption].
    + intros f Hf. apply H1. right. assumption.
    + intros f Hf. apply H2. right. assumption.
Qed.

(** The paths of the catalog with their keys are the names with the
    keys of their paths. *)
Lemma keyed_paths_names (directory : str) (names : list str) :
  map (fun f => (key_of f, f)) (map (path_join directory) names)
  = map (fun kf => (fst kf, path_join directory (snd kf)))
        (map (fun f => (key_of (path_join directory f), f)) names).
Proof. rewrite !map_map. reflexivity. Qed.

(** When every segment name has a numeric prefix, the catalog is the
    paths of the segment names, sorted by the keys of their paths. *)
Lemma scan_files_names (directory : str) (listing : list str) :
  (forall f, In f listing -> ~ In 47 f) ->
  (forall f, In f listing -> str_endswith f (s_ ".qs") = true ->
             exists n, numeric_prefix f n) ->
  exists names,
    scan_files directory listing = Ok (map (path_join directory) names)
    /\ Permutation names (segment_names listing)
    /\ StronglySorted
         (fun a b => key_of (path_join directory a)
                     <= key_of (path_join directory b)) names.
Proof.
  intros Hslash Hnum.
  set (keyed := map (fun f => (key_of (path_join directory f), f))
                    (segment_names listing)).
  exists (map snd (sort_keyed keyed)). split; [|split].
  - rewrite (scan_files_ok directory listing Hslash Hnum).
    unfold segment_paths. fold (segment_names listing).
    rewrite keyed_paths_names. fold keyed.
    rewrite sort_keyed_relabel, !map_map. reflexivity.
  - replace (segment_names listing) with (map snd keyed)
      by (unfold keyed; rewrite map_map; apply map_id).
    apply Permutation_map. apply sort_keyed_perm.
  - apply sorted_by_key; [|apply sort_keyed_sorted].
    apply (Permutation_Forall (Permutation_sym (sort_keyed_perm keyed))).
    unfold keyed. apply Forall_forall. intros kf Hkf.
    apply in_map_iff in Hkf. destruct Hkf as (f & <- & _). reflexivity.
Qed.

(** C9.  When every name of the listing that carries the extension
    [.qs] has an integer before its first dot, the catalog holds exactly
    the paths of those names, in ascending order of the integers of the
    names: of two names, the one that stands first does not carry the
    greater integer.  When the integers are all different this fixes the
    catalog: it is the one arrangement of the names in strictly ascending
    order.  For every other order of the same listing the catalog holds
    the same names, and at every place a name of the same integer.  The
    integer of a name that begins with ASCII digits and a dot is the
    number that the digits denote. *)
Theorem scan_files_sorted (directory : str) (listing : list str) :
  (forall f, In f listing -> ~ In 47 f) ->
  (forall f, In f listing -> str_endswith f (s_ ".qs") = true ->
             exists n, numeric_prefix f n) ->
  (exists names,
     scan_files directory listing = Ok (map (path_join directory) names)
     /\ Permutation names (segment_names listing)
     /\ StronglySorted prefix_le names
     /\ (forall candidates,
           Permutation candidates (segment_names listing) ->
           StronglySorted prefix_lt candidates -> names = candidates)
     /\ (forall listing', Permutation listing listing' ->
           exists names',
             scan_files directory listing'
             = Ok (map (path_join directory) names')
             /\ Permutation names' names
             /\ Forall2 same_prefix names' names))
  /\ (forall digits rest,
        ascii_digits digits ->
        numeric_prefix (digits ++ 46 :: rest) (decimal digits)).
Proof.
  intros Hslash Hnum. split; [|intros; apply numeric_prefix_decimal; assumption].
  set (v := fun f => key_of (path_join directory f)).
  assert (Hv : forall l, Permutation listing l ->
            forall f, In f (segment_names l) -> numeric_prefix f (v f)).
  { intros l Hp f Hf. apply filter_In in Hf. destruct Hf as [Hin Hqs].
    apply (Permutation_in _ (Permutation_sym Hp)) in Hin.
    destruct (Hnum f Hin Hqs) as [n Hn].
    unfold v. rewrite (key_of_path_join directory f n (Hslash f Hin) Hn).
    exact Hn. }
  assert (Hout : forall l, Permutation listing l ->
            exists names,
              scan_files directory l = Ok (map (path_join directory) names)
              /\ Permutation names (segment_names listing)
              /\ StronglySorted (fun a b => v a <= v b) names).
  { intros l Hp.
    destruct (scan_files_names directory l) as (names & Hscan & Hperm & Hs).
    - intros f Hf. apply Hslash.
      apply (Permutation_in _ (Permutation_sym Hp)). assumption.
    - intros f Hf. apply Hnum.
      apply (Permutation_in _ (Permutation_sym Hp)). assumption.
    - exists names. split; [assumption|]. split; [|assumption].
      rewrite Hperm. apply Permutation_filter_same. apply Permutation_sym.
      assumption. }
  destruct (Hout listing (Permutation_refl _)) as (names & Hscan & Hperm & Hs).
  pose proof (Hv listing (Permutation_refl _)) as Hvalue.
  exists names. split; [assumption|]. split; [assumption|].
  split; [|split].
  - apply (StronglySorted_weaken (fun a b => v a <= v b)); [|assumption].
    intros a b Ha Hb Hab n m Hn Hm.
    rewrite (numeric_prefix_functional a n (v a) Hn)
      by (apply Hvalue; apply (Permutation_in _ Hperm); assumption).
    rewrite (numeric_prefix_functional b m (v b) Hm)
      by (apply Hvalue; apply (Permutation_in _ Hperm); assumption).
    exact Hab.
  - intros candidates Hcand Hstrict.
    assert (Hlt : StronglySorted (fun a b => v a < v b) candidates).
    { apply (StronglySorted_weaken prefix_lt); [|assumption].
      intros a b Ha Hb Hab. apply Hab; apply Hvalue;
        apply (Permutation_in _ Hcand); assumption. }
    assert (Hboth : Permutation names candidates)
      by (rewrite Hperm; apply Permutation_sym; assumption).
    apply (map_eq_inj v).
    + intros x y Hx Hy. apply (strictly_sorted_inj v candidates Hlt);
        [apply (Permutation_in _ Hboth)|]; assumption.
    + apply sorted_perm_unique.
      * apply StronglySorted_map_le. assumption.
      * apply StronglySorted_map_le.
        apply (StronglySorted_weaken (fun a b => v a < v b)); [|assumption].
        intros a b _ _ Hab. lia.
      * apply Permutation_map. assumption.
  - intros listing' Hp.
    destruct (Hout listing' Hp) as (names' & Hscan' & Hperm' & Hs').
    exists names'. split; [assumption|].
    assert (Hboth : Permutation names' names)
      by (rewrite Hperm'; apply Permutation_sym; assumption).
    split; [assumption|].
    apply (same_values_same_prefix v).
    + intros f Hf. apply Hvalue. apply (Permutation_in _ Hperm'). assumption.
    + intros f Hf. apply Hvalue. apply (Permutation_in _ Hperm). assumption.
    + apply sorted_perm_unique.
      * apply StronglySorted_map_le. assumption.
      * apply StronglySorted_map_le. assumption.
      * apply Permutation_map. assumption.
Qed.

(** C6 (as amended).  When the listing holds a name with the extension
    [.qs] that has no valid integer before its first dot, [scan_files]
    raises [ValueError]; nothing catches it, so the run ends there, with
    no file processed and nothing published.  No file is skipped. *)
Theorem scan_files_invalid_name (directory : str) (listing : list str)
  (bad : str) :
  In bad listing -> str_endswith bad (s_ ".qs") = true -> ~ In 47 bad ->
  invalid_prefix bad ->
  scan_files directory listing = Raise ValueError
  /\ (forall (br : Broker) cfg fs out,
        RecoveryImprovedJson.main cfg fs directory listing out
        = (Raise ValueError, out))
  /\ (forall (br : Broker) cfg fs out,
        RabbitmqRecovery.main cfg fs directory listing out
        = (Raise ValueError, out)).
Proof.
  intros Hin Hqs Hslash Hbad.
  assert (Hscan : scan_files directory listing = Raise ValueError).
  { unfold scan_files.
    rewrite (with_keys_raise _ (path_join directory bad)); [reflexivity| |].
    - apply in_map. apply filter_In. split; assumption.
    - rewrite sequence_number_path_join by assumption. exact Hbad. }
  split; [assumption|]. split; intros br cfg fs out.
  - unfold RecoveryImprovedJson.main. rewrite Hscan. reflexivity.
  - unfold RabbitmqRecovery.main. rewrite Hscan. reflexivity.
Qed.

End CatalogTheorems.

Lemma scan_files_sorted_witness :
  @scan_files ascii_only_db (s_ "d")
    [s_ "10.qs"; s_ "9.qs"; s_ "x.txt"; s_ "1.qs"]
  = Ok [s_ "d/1.qs"; s_ "d/9.qs"; s_ "d/10.qs"].
Proof.
  destruct (@scan_files_sorted ascii_only_db (s_ "d")
              [s_ "10.qs"; s_ "9.qs"; s_ "x.txt"; s_ "1.qs"])
    as [(names & Hscan & _ & _ & Hfixed & _) _].
  - intros f [<-|[<-|[<-|[<-|[]]]]]; cbv; intuition discriminate.
  - intros f [<-|[<-|[<-|[<-|[]]]]] Hqs.
    + exists 10. vm_compute. reflexivity.
    + exists 9. vm_compute. reflexivity.
    + vm_compute in Hqs. discriminate Hqs.
    + exists 1. vm_compute. reflexivity.
  - rewrite Hscan.
    rewrite (Hfixed [s_ "1.qs"; s_ "9.qs"; s_ "10.qs"]).
    + reflexivity.
    + apply (Permutation_rev [s_ "1.qs"; s_ "9.qs"; s_ "10.qs"]).
    + repeat (constructor;
              [|repeat (constructor; [unfold prefix_lt; intros n m Hn Hm;
                                      vm_compute in Hn, Hm;
                                      injection Hn as <-; injection Hm as <-;
                                      lia|]); constructor]).
      constructor.
Defined.

Lemma scan_files_invalid_name_witness :
  @scan_files ascii_only_db (s_ "d") [s_ "1.qs"; s_ "abc.qs"] = Raise ValueError.
Proof.
  apply (@scan_files_invalid_name ascii_only_db (s_ "d")
           [s_ "1.qs"; s_ "abc.qs"] (s_ "abc.qs")).
  - right. left. reflexivity.
  - vm_compute. reflexivity.
  - cbv. intuition discriminate.
  - vm_compute. reflexivity.
Defined.

(** C6, as it is written.  With [abc.qs] next to [1.qs] in the listing
    the catalog is not the catalog of [1.qs] alone: [scan_files] raises,
    and the run, which publishes one message when [abc.qs] is absent,
    publishes nothing. *)
Lemma scan_files_does_not_skip :
  @scan_files ascii_only_db (s_ "d") [s_ "1.qs"; s_ "abc.qs"]
    = Raise ValueError
  /\ @scan_files ascii_only_db (s_ "d") [s_ "1.qs"] = Ok [s_ "d/1.qs"]
  /\ @RecoveryImprovedJson.main ascii_only_db accepting_broker
       (Samples.publishing 0)
       (Samples.two_segments Samples.segment_one []) (s_ "d")
       [s_ "1.qs"; s_ "abc.qs"] []
     = (Raise ValueError, [])
  /\ fst (@RecoveryImprovedJson.main ascii_only_db accepting_broker
            (Samples.publishing 0)
            (Samples.two_segments Samples.segment_one []) (s_ "d")
            [s_ "1.qs"] [])
     = Ok 1.
Proof.
  repeat split; vm_compute; reflexivity.
Qed.

(** ** RawScanner *)

Lemma range_In (n i : Z) : In i (range n) -> 0 <= i < n.
Proof.
  unfold range. intros H. apply in_map_iff in H. destruct H as (k & <- & Hk).
  apply in_seq in Hk. lia.
Qed.

(** The marker test, where the four bytes exist: it does not raise, and
    it holds exactly where the tag stands. *)
Lemma marker_at_in_range (data : bytes) (tag i : Z) :
  0 <= i -> i + 3 < len data ->
  RabbitmqRecovery.marker_at data tag i = Ok (tag_at data tag i).
Proof.
  intros H0 H3. unfold RabbitmqRecovery.marker_at, tag_at, byte_is.
  destruct (getitem_in_range data i) as [b0 E0]; [lia|].
  destruct (getitem_in_range data (i + 1)) as [b1 E1]; [lia|].
  destruct (getitem_in_range data (i + 2)) as [b2 E2]; [lia|].
  destruct (getitem_in_range data (i + 3)) as [b3 E3]; [lia|].
  rewrite E0, E1, E2, E3. cbn [bind].
  destruct (byte_val b0 =? tag); cbn [negb andb]; [|reflexivity].
  destruct (byte_val b1 =? 0); cbn [negb andb]; [|reflexivity].
  destruct (byte_val b2 =? 0); cbn [negb andb]; reflexivity.
Qed.

Lemma marker_positions_filter (data : bytes) (tag : Z) (indices : list Z) :
  (forall i, In i indices -> 0 <= i /\ i + 3 < len data) ->
  RabbitmqRecovery.marker_positions data tag indices
  = Ok (filter (tag_at data tag) indices).
Proof.
  induction indices as [|i indices IH]; intros Hall; [reflexivity|].
  cbn [RabbitmqRecovery.marker_positions filter].
  destruct (Hall i (or_introl eq_refl)) as [H0 H3].
  rewrite marker_at_in_range by assumption. cbn [bind].
  rewrite IH by (intros j Hj; apply Hall; right; assumption).
  destruct (tag_at data tag i); reflexivity.
Qed.

(** Both marker loops find the tags that stand at positions below
    [len(data) - 4], and no others. *)
Lemma marker_positions_found (data : bytes) (tag : Z) :
  RabbitmqRecovery.marker_positions data tag (range (len data - 4))
  = Ok (filter (tag_at data tag) (range (len data - 4))).
Proof.
  apply marker_positions_filter. intros i Hi. apply range_In in Hi. lia.
Qed.

(** C8 at an end tag that closes the file.  In the sample the start tag
    stands at position 0 of the data and the only end tag at position 17,
    in the last four of the 21 bytes.  Paired as the claim says, they
    yield one message; the scan, which stops looking for tags four
    positions before the end, finds no end tag and yields none.  With
    one more byte after the end tag it yields the message (the broker
    accepts it). *)
Theorem end_marker_in_last_bytes :
  tag_positions (skipn 64 Samples.segment_end_marker_last) 109 = [0]
  /\ tag_positions (skipn 64 Samples.segment_end_marker_last) 116 = [17]
  /\ len (skipn 64 Samples.segment_end_marker_last) = 21
  /\ raw_messages Samples.segment_end_marker_last
     = [skipn 4 (firstn 17 (Samples.marked_message "1"))]
  /\ @RabbitmqRecovery.extract_and_publish_exact_markers accepting_broker
       (Samples.publishing 0)
       (Samples.two_segments Samples.segment_end_marker_last [])
       (s_ "d/1.qs") []
     = (0, [])
  /\ fst (@RabbitmqRecovery.extract_and_publish_exact_markers
            accepting_broker (Samples.publishing 0)
            (Samples.two_segments Samples.segment_end_marker_inside [])
            (s_ "d/1.qs") [])
     = 1
  /\ raw_messages Samples.segment_end_marker_inside
     = [skipn 4 (firstn 17 (Samples.marked_message "1"))].
Proof.
  repeat split; vm_compute; reflexivity.
Qed.

(** ** RecoveryPipeline *)

Section PipelineRuns.
Context {db : UnicodeDB}.

(** C5 at two runs.  With a message limit of 2, a first file with one
    message and a second file with three, the entry decoder publishes
    three messages: the test inside the file loop compares the limit
    with the count of the current file, which starts again at zero.
    With a message limit of 1 and a file with two messages the marker
    scan, which has no test inside the file, publishes two.  In both
    runs the broker accepts every message. *)
Theorem message_limit_overrun :
  message_limit (Samples.publishing 2) = 2
  /\ fst (@RecoveryImprovedJson.process_files db accepting_broker
            (Samples.publishing 2)
            (Samples.two_segments Samples.segment_one Samples.segment_three)
            [s_ "d/1.qs"; s_ "d/2.qs"] [])
     = Ok 3
  /\ len (snd (@RecoveryImprovedJson.process_files db accepting_broker
                 (Samples.publishing 2)
                 (Samples.two_segments Samples.segment_one Samples.segment_three)
                 [s_ "d/1.qs"; s_ "d/2.qs"] []))
     = 3
  /\ message_limit (Samples.publishing 1) = 1
  /\ fst (@RabbitmqRecovery.process_files accepting_broker
            (Samples.publishing 1)
            (Samples.two_segments Samples.segment_two_marked [])
            [s_ "d/1.qs"] [])
     = Ok 2
  /\ len (snd (@RabbitmqRecovery.process_files accepting_broker
                 (Samples.publishing 1)
                 (Samples.two_segments Samples.segment_two_marked [])
                 [s_ "d/1.qs"] []))
     = 2.
Proof.
  repeat split; vm_compute; reflexivity.
Qed.

End PipelineRuns.

(** ** The fuel of the loops is enough *)

(** Where the cursor goes in one iteration of the entry loop. *)
Lemma entry_step_cursor (file_data : bytes) (pos : Z) :
  0 <= pos ->
  match snd (entry_step file_data pos) with
  | Resync pos' => pos' = pos + 8 /\ pos' <= len file_data
  | Entry _ pos' => pos + 8 < pos' /\ pos' <= len file_data
  | RaiseIndexError => False
  | LoopEnd | BreakShortHeader | BreakTruncated => True
  end.
Proof.
  intros Hpos. unfold entry_step.
  pose proof (int_from_bytes_big_nonneg (slice file_data pos (pos + 4))) as Hsz.
  destruct (Z.ltb_spec pos (len file_data)); cbn [negb]; [|exact I].
  destruct (Z.gtb_spec (pos + 8) (len file_data)); [exact I|].
  destruct (getitem_in_range file_data (pos + 4)) as [flags Hflags]; [lia|].
  rewrite Hflags.
  destruct (Z.eqb_spec (int_from_bytes_big (slice file_data pos (pos + 4))) 0);
    cbn [orb snd]; [lia|].
  destruct (Z.gtb_spec (int_from_bytes_big (slice file_data pos (pos + 4)))
                       MAX_ENTRY_SIZE); cbn [snd]; [lia|].
  destruct (Z.gtb_spec (pos + 8 + int_from_bytes_big (slice file_data pos (pos + 4)))
                       (len file_data)); cbn [snd]; [exact I|lia].
Qed.

Section Totality.
Context {db : UnicodeDB} {br : Broker}.

(** Handling one entry does not run out of fuel, and raises only when a
    call of [basic_publish] does. *)
Lemma handle_entry_returns (cfg : config) (msg_data : bytes) (n : Z)
  (out : sink) :
  (exists n' stop out',
     handle_entry cfg msg_data n out = (Ok (n', stop), out'))
  \/ handle_entry cfg msg_data n out = (Raise AMQPError, out).
Proof.
  unfold handle_entry, basic_publish. rewrite extract_payload_largest_of.
  repeat match goal with
         | |- context [if ?c then _ else _] => destruct c
         | |- context [match ?o with Some _ => _ | None => _ end] => destruct o
         end; eauto.
Qed.

(** The entry loop does not run out of fuel: from a cursor inside or
    after the file, a fuel above the number of bytes left is never used
    up. *)
Lemma entries_loop_returns (cfg : config) (file_data : bytes) (fuel : nat) :
  forall (pos n : Z) (out : sink),
    0 <= pos -> (0 < fuel)%nat -> len file_data - pos < Z.of_nat fuel ->
    exists r out',
      entries_loop fuel cfg file_data pos n out = (r, out')
      /\ r <> OutOfFuel.
Proof.
  induction fuel as [|fuel IH]; intros pos n out Hpos Hfuel Henough; [lia|].
  cbn [entries_loop]. pose proof (entry_step_cursor file_data pos Hpos) as Hc.
  destruct (snd (entry_step file_data pos)) as [| |pos'| |msg_data pos'|];
    try (eexists; eexists; split; [reflexivity|discriminate]).
  - apply IH; lia.
  - destruct (handle_entry_returns cfg msg_data n out)
      as [(n' & stop & out' & ->)| ->].
    + destruct stop; [eexists; eexists; split; [reflexivity|discriminate]|].
      apply IH; lia.
    + eexists; eexists; split; [reflexivity|discriminate].
Qed.

(** The file function returns a count, whatever happens inside. *)
Lemma extract_messages_returns (cfg : config) (fs : filesystem)
  (file_path : str) (out : sink) :
  exists n out',
    extract_messages_from_erlang_entries cfg fs file_path out = (Ok n, out').
Proof.
  unfold extract_messages_from_erlang_entries.
  destruct (fs file_path) as [file_data|]; [|eexists; eexists; reflexivity].
  destruct (entries_loop_returns cfg file_data (S (length file_data)) 64 0 out)
    as (r & out' & -> & Hr); [lia|lia|unfold len; lia|].
  destruct r as [n|e|]; [| |congruence]; eexists; eexists; reflexivity.
Qed.

End Totality.

Lemma str_eqb_refl (s : str) : str_eqb s s = true.
Proof.
  induction s as [|c s IH]; [reflexivity|].
  cbn [str_eqb]. rewrite Z.eqb_refl. assumption.
Qed.

Lemma index_of_found (l : list str) (x : str) :
  In x l -> exists i, index_of l x = Ok i /\ 0 <= i < len l.
Proof.
  induction l as [|y l IH]; intros Hin; [contradiction|].
  cbn [index_of]. unfold len in *. cbn [length].
  destruct (str_eqb y x) eqn:E; [exists 0; split; [reflexivity|lia]|].
  destruct Hin as [->|Hin]; [rewrite str_eqb_refl in E; discriminate|].
  destruct (IH Hin) as (i & -> & Hi). exists (i + 1). split; [reflexivity|lia].
Qed.

Lemma file_limit_reached_returns (cfg : config) (qs_files : list str)
  (qs_file : str) :
  In qs_file qs_files ->
  exists b, file_limit_reached cfg qs_files qs_file = Ok b.
Proof.
  intros Hin. unfold file_limit_reached.
  destruct (file_limit cfg >? 0); [|eauto].
  destruct (index_of_found _ _ Hin) as (i & -> & _). cbn [bind]. eauto.
Qed.

Section RunTotality.
Context {db : UnicodeDB} {br : Broker}.

(** A run of the entry decoder over a catalog returns a total. *)
Lemma process_files_returns (cfg : config) (fs : filesystem)
  (qs_files : list str) (out : sink) :
  exists total out',
    RecoveryImprovedJson.process_files cfg fs qs_files out = (Ok total, out').
Proof.
  unfold RecoveryImprovedJson.process_files.
  assert (H : forall todo total out,
            incl todo qs_files ->
            exists total' out',
              RecoveryImprovedJson.process_loop cfg fs qs_files todo total out
              = (Ok total', out')).
  { induction todo as [|f todo IH]; intros total out0 Hincl;
      cbn [RecoveryImprovedJson.process_loop]; [eauto|].
    destruct (file_limit_reached_returns cfg qs_files f) as [b ->].
    { apply Hincl. left. reflexivity. }
    destruct b; [eauto|].
    destruct (extract_messages_returns cfg fs f out0) as (n & out1 & ->).
    destruct (message_limit_reached cfg (total + n)); [eauto|].
    apply IH. intros x Hx. apply Hincl. right. assumption. }
  apply H. apply incl_refl.
Qed.

End RunTotality.

(** *** The UTF-8 decoder *)

Lemma utf8_next_consumes (l : bytes) :
  match utf8_next l with
  | U8Char _ n | U8Bad n => (1 <= n)%nat /\ l <> []
  | U8End => l = []
  end.
Proof.
  unfold utf8_next. destruct l as [|b0 l]; [reflexivity|]. cbn [map].
  repeat match goal with
         | |- context [if ?c then _ else _] => destruct c
         | |- context [match map byte_val ?r with _ => _ end] =>
             destruct r; cbn [map]
         end; (split; [lia|discriminate]).
Qed.

(** Any fuel of at least the length of the input gives the same
    decoding: the fuel of [utf8_decode] is never used up. *)
Lemma decode_loop_fuel (mode : errors_mode) (fuel1 : nat) :
  forall (fuel2 : nat) (l : bytes),
    (length l <= fuel1)%nat -> (length l <= fuel2)%nat ->
    decode_loop fuel1 mode l = decode_loop fuel2 mode l.
Proof.
  induction fuel1 as [|fuel1 IH]; intros fuel2 l H1 H2.
  - destruct l; [|cbn [length] in H1; lia].
    destruct fuel2; reflexivity.
  - destruct fuel2 as [|fuel2].
    + destruct l; [reflexivity|cbn [length] in H2; lia].
    + cbn [decode_loop]. pose proof (utf8_next_consumes l) as Hn.
      assert (Hskip : forall n, (1 <= n)%nat -> l <> [] ->
                (length (skipn n l) <= fuel1)%nat
                /\ (length (skipn n l) <= fuel2)%nat).
      { intros n Hn1 Hne. rewrite length_skipn.
        destruct l; [congruence|]. cbn [length] in *. lia. }
      destruct (utf8_next l) as [cp n|n|]; [| |reflexivity];
        destruct Hn as [Hn1 Hne]; destruct (Hskip n Hn1 Hne) as [Ha Hb].
      * rewrite (IH fuel2 (skipn n l) Ha Hb). reflexivity.
      * destruct mode; [reflexivity| |];
          rewrite (IH fuel2 (skipn n l) Ha Hb); reflexivity.
Qed.

(** ** Publications of the entry decoder *)

Section EntryAccounting.
Context {db : UnicodeDB} {br : Broker}.

(** What handling one entry can do: nothing; or count one message and,
    unless the run is dry, publish it; or, when the call of
    [basic_publish] raises, leave with its exception, the sink and the
    count as they were. *)
Lemma handle_entry_cases (cfg : config) (msg_data : bytes) (n : Z)
  (out : sink) :
  handle_entry cfg msg_data n out = (Ok (n, false), out)
  \/ exists p,
       entry_publication cfg p
       /\ (((dry_run cfg = true \/ accepts out p = true)
            /\ handle_entry cfg msg_data n out
               = (Ok (n + 1, message_limit_reached cfg (n + 1)),
                  if dry_run cfg then out else out ++ [p]))
           \/ (dry_run cfg = false /\ accepts out p = false
               /\ handle_entry cfg msg_data n out = (Raise AMQPError, out))).
Proof.
  unfold handle_entry. rewrite extract_payload_largest_of.
  destruct (_ && _); [|left; reflexivity].
  destruct (utf8_decode Strict _) as [content_str|]; [|left; reflexivity].
  destruct (is_valid_content content_str) eqn:Hvalid; [|left; reflexivity].
  right.
  exists {| pub_exchange := exchange cfg;
            pub_routing_key := effective_routing_key cfg;
            pub_body := content_str;
            pub_delivery_mode := 2;
            pub_content_type :=
              if str_startswith (str_strip content_str) (s_ "{")
              then ApplicationJson else TextPlain |}.
  split.
  - unfold entry_publication, addressed.
    cbn [pub_exchange pub_routing_key pub_delivery_mode pub_body
         pub_content_type].
    repeat split. exact Hvalid.
  - unfold basic_publish. destruct (dry_run cfg).
    + left. split; [left; reflexivity|reflexivity].
    + destruct (accepts out _).
      * left. split; [right; reflexivity|reflexivity].
      * right. repeat split.
Qed.

(** The entry loop: what it adds to the sink, how far the count can go,
    and when it raises. *)
Lemma entries_loop_accounting (cfg : config) (file_data : bytes) (fuel : nat) :
  forall (pos n : Z) (out : sink) (r : result Z) (out' : sink),
    0 <= pos ->
    entries_loop fuel cfg file_data pos n out = (r, out') ->
    exists news,
      out' = out ++ news
      /\ Forall (entry_publication cfg) news
      /\ (dry_run cfg = true -> news = [])
      /\ match r with
         | Ok n' =>
             n <= n'
             /\ (dry_run cfg = false -> len news = n' - n)
             /\ (0 < message_limit cfg -> n < message_limit cfg ->
                 n' <= message_limit cfg)
         | Raise _ =>
             dry_run cfg = false /\ exists p, accepts out' p = false
         | OutOfFuel => True
         end.
Proof.
  induction fuel as [|fuel IH]; intros pos n out r out' Hpos Hrun.
  - cbn [entries_loop] in Hrun. injection Hrun as <- <-.
    exists []. rewrite app_nil_r. repeat split; constructor.
  - cbn [entries_loop] in Hrun.
    assert (Hstop : (Ok n, out) = (r, out') ->
              exists news, out' = out ++ news
                /\ Forall (entry_publication cfg) news
                /\ (dry_run cfg = true -> news = [])
                /\ match r with
                   | Ok n' => n <= n'
                       /\ (dry_run cfg = false -> len news = n' - n)
                       /\ (0 < message_limit cfg -> n < message_limit cfg ->
                           n' <= message_limit cfg)
                   | Raise _ =>
                       dry_run cfg = false /\ exists p, accepts out' p = false
                   | OutOfFuel => True
                   end).
    { intros Heq. injection Heq as <- <-. exists [].
      rewrite app_nil_r. repeat split; try constructor; try lia.
      unfold len. cbn [length]. lia. }
    pose proof (entry_step_cursor file_data pos Hpos) as Hc.
    destruct (snd (entry_step file_data pos)) as [| |pos'| |msg_data pos'|];
      [apply Hstop; assumption|apply Hstop; assumption| |
       apply Hstop; assumption| |contradiction].
    + apply (IH pos' _ _ _ _ ltac:(lia) Hrun).
    + destruct (handle_entry_cases cfg msg_data n out)
        as [He|(p & Hp & [[Hacc He]|(Hwet & Hacc & He)])];
        rewrite He in Hrun.
      * apply (IH pos' _ _ _ _ ltac:(lia) Hrun).
      * destruct (message_limit_reached cfg (n + 1)) eqn:Hlim.
        -- injection Hrun as <- <-.
           exists (if dry_run cfg then [] else [p]).
           split; [destruct (dry_run cfg); [rewrite app_nil_r|]; reflexivity|].
           split; [destruct (dry_run cfg);
                   [constructor|constructor; [assumption|constructor]]|].
           split; [intros ->; reflexivity|].
           split; [lia|]. split.
           ++ intros ->. unfold len. cbn [length]. lia.
           ++ intros Hm Hn. lia.
        -- destruct (IH pos' _ _ _ _ ltac:(lia) Hrun)
             as (news & -> & Hall & Hdry & Hr).
           exists ((if dry_run cfg then [] else [p]) ++ news).
           split; [destruct (dry_run cfg); rewrite <- ?app_assoc; reflexivity|].
           split; [apply Forall_app; split;
                   [destruct (dry_run cfg);
                    [constructor|constructor; [assumption|constructor]]
                   |assumption]|].
           split; [intros Hd; rewrite Hd; cbn [app]; apply Hdry; assumption|].
           destruct r as [n'|e|]; [|exact Hr|exact I].
           destruct Hr as (Hle & Hlen & Hcap). repeat split; try lia.
           ++ intros Hd. rewrite Hd. rewrite len_app. rewrite (Hlen Hd).
              unfold len. cbn [length]. lia.
           ++ intros Hm Hn. apply Hcap; [assumption|].
              unfold message_limit_reached in Hlim.
              destruct (Z.gtb_spec (message_limit cfg) 0); [|lia].
              cbn [andb] in Hlim.
              destruct (Z.geb_spec (n + 1) (message_limit cfg));
                [discriminate|lia].
      * injection Hrun as <- <-. exists []. rewrite app_nil_r.
        split; [reflexivity|]. split; [constructor|].
        split; [reflexivity|]. split; [assumption|].
        exists p. assumption.
Qed.

End EntryAccounting.

Section EntryRuns.
Context {db : UnicodeDB} {br : Broker}.

(** One file under the entry decoder: the answer is a count, and the
    sink grows by the publications of the file.  The count is their
    number, unless a call of [basic_publish] raised: then the count is 0,
    and what was published before stays published. *)
Lemma extract_messages_accounting (cfg : config) (fs : filesystem)
  (file_path : str) (out : sink) :
  exists n news,
    extract_messages_from_erlang_entries cfg fs file_path out
    = (Ok n, out ++ news)
    /\ 0 <= n
    /\ Forall (entry_publication cfg) news
    /\ (dry_run cfg = true -> news = [])
    /\ (dry_run cfg = false ->
        len news = n
        \/ (n = 0 /\ exists p, accepts (out ++ news) p = false))
    /\ (0 < message_limit cfg -> n <= message_limit cfg).
Proof.
  unfold extract_messages_from_erlang_entries.
  destruct (fs file_path) as [file_data|].
  - destruct (entries_loop_returns cfg file_data (S (length file_data)) 64 0 out)
      as (r & out' & Hrun & Hr); [lia|lia|unfold len; lia|].
    rewrite Hrun.
    destruct (entries_loop_accounting cfg file_data _ 64 0 out r out'
                ltac:(lia) Hrun)
      as (news & -> & Hall & Hdry & Hacc).
    destruct r as [n|e|]; [| |congruence].
    + destruct Hacc as (Hle & Hlen & Hcap).
      exists n, news. repeat split; try assumption.
      * intros Hd. left. rewrite (Hlen Hd). lia.
      * intros Hm. apply Hcap; lia.
    + destruct Hacc as [Hwet Hfail].
      exists 0, news. repeat split; try assumption; try lia.
      intros _. right. split; [reflexivity|assumption].
  - exists 0, []. rewrite app_nil_r.
    split; [reflexivity|]. split; [lia|]. split; [constructor|].
    split; [reflexivity|]. split; [intros _; left; reflexivity|].
    intros Hm. lia.
Qed.

(** A run of the entry decoder: the total, and what the sink gains. *)
Lemma process_loop_accounting (cfg : config) (fs : filesystem)
  (qs_files : list str) (todo : list str) :
  forall (total : Z) (out : sink) (r : result Z) (out' : sink),
    RecoveryImprovedJson.process_loop cfg fs qs_files todo total out = (r, out') ->
    exists news,
      out' = out ++ news
      /\ Forall (entry_publication cfg) news
      /\ (dry_run cfg = true -> news = [])
      /\ match r with
         | Ok total' =>
             total <= total'
             /\ (dry_run cfg = false -> total' - total <= len news)
             /\ (dry_run cfg = false -> reliable br ->
                 len news = total' - total)
             /\ (0 < message_limit cfg -> total < message_limit cfg ->
                 total' <= 2 * message_limit cfg - 1)
         | _ => True
         end.
Proof.
  assert (Hnone : forall (total : Z) (out : sink) (r : result Z),
            match r with Ok t => t = total | _ => True end ->
            exists news, out = out ++ news
              /\ Forall (entry_publication cfg) news
              /\ (dry_run cfg = true -> news = [])
              /\ match r with
                 | Ok total' =>
                     total <= total'
                     /\ (dry_run cfg = false -> total' - total <= len news)
                     /\ (dry_run cfg = false -> reliable br ->
                         len news = total' - total)
                     /\ (0 < message_limit cfg -> total < message_limit cfg ->
                         total' <= 2 * message_limit cfg - 1)
                 | _ => True
                 end).
  { intros total out r Hr. exists []. rewrite app_nil_r.
    repeat split; try constructor.
    destruct r as [t| |]; try exact I. subst t.
    change (len (@nil publication)) with 0. repeat split; try lia. }
  induction todo as [|f todo IH]; intros total out r out' Hrun;
    cbn [RecoveryImprovedJson.process_loop] in Hrun.
  - injection Hrun as <- <-. apply (Hnone total out (Ok total)). reflexivity.
  - destruct (file_limit_reached cfg qs_files f) as [[|]|e|].
    + injection Hrun as <- <-. apply (Hnone total out (Ok total)). reflexivity.
    + destruct (extract_messages_accounting cfg fs f out)
        as (n & news & Hfile & Hn & Hall & Hdry & Hlen & Hcap).
      rewrite Hfile in Hrun.
      assert (Hge : dry_run cfg = false -> n <= len news).
      { intros Hd. pose proof (len_nonneg news).
        destruct (Hlen Hd) as [->|[-> _]]; lia. }
      assert (Heq : dry_run cfg = false -> reliable br -> len news = n).
      { intros Hd Hrel. destruct (Hlen Hd) as [H|[_ [p Hp]]]; [exact H|].
        rewrite (Hrel _ p) in Hp. discriminate Hp. }
      destruct (message_limit_reached cfg (total + n)) eqn:Hlim.
      * injection Hrun as <- <-. exists news.
        split; [reflexivity|]. split; [assumption|]. split; [assumption|].
        split; [lia|]. split; [intros Hd; specialize (Hge Hd); lia|].
        split; [intros Hd Hrel; rewrite (Heq Hd Hrel); lia|].
        intros Hm Ht. specialize (Hcap Hm). lia.
      * destruct (IH _ _ _ _ Hrun) as (news' & -> & Hall' & Hdry' & Hr).
        exists (news ++ news'). rewrite app_assoc.
        split; [reflexivity|]. split; [apply Forall_app; split; assumption|].
        split; [intros Hd; rewrite (Hdry Hd), (Hdry' Hd); reflexivity|].
        destruct r as [t| |]; try exact I.
        destruct Hr as (Hle & Hge' & Hlen' & Hbound).
        split; [lia|].
        split; [intros Hd; rewrite len_app; specialize (Hge Hd);
                specialize (Hge' Hd); lia|].
        split; [intros Hd Hrel; rewrite len_app, (Heq Hd Hrel),
                (Hlen' Hd Hrel); lia|].
        intros Hm Ht. apply Hbound; [assumption|].
        unfold message_limit_reached in Hlim.
        destruct (Z.gtb_spec (message_limit cfg) 0); [|lia].
        cbn [andb] in Hlim.
        destruct (Z.geb_spec (total + n) (message_limit cfg));
          [discriminate|lia].
    + injection Hrun as <- <-. apply (Hnone total out (Raise e)). exact I.
    + injection Hrun as <- <-. apply (Hnone total out OutOfFuel). exact I.
Qed.

(** X1.  Under the entry decoder a file never makes the recovery fail:
    whatever the file holds, and also when it cannot be read or a call of
    [basic_publish] raises, the file function returns a count that is not
    negative.  In a dry run nothing is published.  Otherwise the sink
    grows by exactly as many publications as the count says, unless a
    call of [basic_publish] raised: then the count is 0, whatever number
    of messages was published before.  So it is with a broker that raises
    at the second message of a file of three: one message is published
    and the count is 0. *)
Theorem entry_file_count_is_publications (cfg : config) (fs : filesystem)
  (file_path : str) (out : sink) :
  (exists n news,
     extract_messages_from_erlang_entries cfg fs file_path out
     = (Ok n, out ++ news)
     /\ 0 <= n
     /\ (if dry_run cfg then news = []
         else len news = n
              \/ (n = 0 /\ exists p, accepts (out ++ news) p = false)))
  /\ @extract_messages_from_erlang_entries db (broker_of_capacity 1)
       (Samples.publishing 0)
       (Samples.two_segments Samples.segment_one Samples.segment_three)
       (s_ "d/2.qs") []
     = (Ok 0, [verbatim_publication (Samples.publishing 0)
                 (Samples.id_message "20001")]).
Proof.
  split; [|vm_compute; reflexivity].
  destruct (extract_messages_accounting cfg fs file_path out)
    as (n & news & Hfile & Hn & _ & Hdry & Hlen & _).
  exists n, news. repeat split; try assumption.
  destruct (dry_run cfg); [apply Hdry|apply Hlen]; reflexivity.
Qed.

(** X2.  With a positive message limit, the entry decoder takes at most
    that many messages from any one file. *)
Theorem entry_file_count_capped (cfg : config) (fs : filesystem)
  (file_path : str) (out : sink) :
  0 < message_limit cfg ->
  exists n out',
    extract_messages_from_erlang_entries cfg fs file_path out = (Ok n, out')
    /\ n <= message_limit cfg.
Proof.
  intros Hm. destruct (extract_messages_accounting cfg fs file_path out)
    as (n & news & Hfile & _ & _ & _ & _ & Hcap).
  exists n, (out ++ news). split; [assumption|apply Hcap; assumption].
Qed.

(** X3.  Every publication of a run of the entry decoder is addressed to
    the configured exchange under the routing key, or the queue name when
    the routing key is empty, asks for persistent delivery, carries a
    body that the validator accepts, of at least 10 characters, and is
    typed as JSON exactly when the body begins, after whitespace, with an
    opening brace. *)
Theorem entry_publications_well_formed (cfg : config) (fs : filesystem)
  (qs_files : list str) (out : sink) :
  exists r news,
    RecoveryImprovedJson.process_files cfg fs qs_files out = (r, out ++ news)
    /\ Forall (fun p => entry_publication cfg p /\ 10 <= len (pub_body p)) news.
Proof.
  destruct (RecoveryImprovedJson.process_files cfg fs qs_files out)
    as [r out'] eqn:Hrun.
  destruct (process_loop_accounting _ _ _ _ _ _ _ _ Hrun)
    as (news & -> & Hall & _).
  exists r, news. split; [reflexivity|].
  apply Forall_forall. intros p Hp. rewrite Forall_forall in Hall.
  specialize (Hall p Hp). split; [assumption|].
  destruct Hall as (_ & Hvalid & _). unfold is_valid_content in Hvalid.
  destruct (Z.ltb_spec (len (pub_body p)) 10); [discriminate|assumption].
Qed.

(** X4.  A publishing run of the entry decoder with a positive message
    limit [m] reports a total of at most [2 * m - 1].  The total never
    exceeds the number of publications made, and it is that number when
    no call of [basic_publish] raises, so that the run then publishes at
    most [2 * m - 1] messages. *)
Theorem entry_run_total_bounded (cfg : config) (fs : filesystem)
  (qs_files : list str) (out : sink) :
  0 < message_limit cfg -> dry_run cfg = false ->
  exists total news,
    RecoveryImprovedJson.process_files cfg fs qs_files out
    = (Ok total, out ++ news)
    /\ 0 <= total <= 2 * message_limit cfg - 1
    /\ total <= len news
    /\ (reliable br -> len news = total).
Proof.
  intros Hm Hwet.
  destruct (process_files_returns cfg fs qs_files out) as (total & out' & Hrun).
  destruct (process_loop_accounting _ _ _ _ _ _ _ _ Hrun)
    as (news & -> & _ & _ & Hle & Hge & Hlen & Hbound).
  exists total, news. split; [assumption|].
  split; [split; [lia|apply Hbound; lia]|].
  split; [specialize (Hge Hwet); lia|].
  intros Hrel. rewrite (Hlen Hwet Hrel). lia.
Qed.

End EntryRuns.

Lemma accepting_broker_reliable : reliable accepting_broker.
Proof. intros out p. reflexivity. Qed.

Lemma entry_file_count_capped_witness :
  exists n out',
    @extract_messages_from_erlang_entries ascii_only_db accepting_broker
      (Samples.publishing 2)
      (Samples.two_segments Samples.segment_one Samples.segment_three)
      (s_ "d/2.qs") []
    = (Ok n, out')
    /\ n <= 2.
Proof.
  apply (@entry_file_count_capped ascii_only_db accepting_broker
           (Samples.publishing 2)).
  reflexivity.
Defined.

Lemma entry_run_total_bounded_witness :
  exists total news,
    @RecoveryImprovedJson.process_files ascii_only_db accepting_broker
      (Samples.publishing 2)
      (Samples.two_segments Samples.segment_one Samples.segment_three)
      [s_ "d/1.qs"; s_ "d/2.qs"] []
    = (Ok total, [] ++ news)
    /\ 0 <= total <= 2 * 2 - 1
    /\ len news = total.
Proof.
  destruct (@entry_run_total_bounded ascii_only_db accepting_broker
              (Samples.publishing 2)
              (Samples.two_segments Samples.segment_one Samples.segment_three)
              [s_ "d/1.qs"; s_ "d/2.qs"] [])
    as (total & news & Hrun & Hbound & _ & Hlen).
  - reflexivity.
  - reflexivity.
  - exists total, news. split; [exact Hrun|]. split; [exact Hbound|].
    apply Hlen. exact accepting_broker_reliable.
Defined.

(** ** Dry runs and limits of the entry decoder *)

Section EntryCounts.
Context {db : UnicodeDB} {br : Broker}.

(** As long as no call of [basic_publish] raises, be it because the run
    is dry or because the broker accepts every message, the count that
    [handle_entry] returns depends on the configuration through the
    message limit only, and not on the sink. *)
Lemma handle_entry_count (cfg cfg' : config) (msg_data : bytes) (n : Z)
  (out out' : sink) :
  message_limit cfg = message_limit cfg' ->
  dry_run cfg = true \/ reliable br ->
  dry_run cfg' = true \/ reliable br ->
  fst (handle_entry cfg msg_data n out) = fst (handle_entry cfg' msg_data n out').
Proof.
  intros Hm Hok Hok'.
  assert (Hpub : forall (c : config) (o : sink) (p : publication),
            dry_run c = true \/ reliable br ->
            exists o', (if dry_run c then Ok o else basic_publish o p) = Ok o').
  { intros c o p [Hd|Hrel].
    - rewrite Hd. eauto.
    - unfold basic_publish. rewrite (Hrel o p). destruct (dry_run c); eauto. }
  unfold handle_entry, message_limit_reached. rewrite Hm.
  destruct (extract_payload_from_erlang _); try reflexivity.
  destruct (_ && _); [|reflexivity].
  destruct (utf8_decode Strict _); [|reflexivity].
  destruct (is_valid_content _); [|reflexivity].
  match goal with
  | |- fst match ?a with _ => _ end = fst match ?b with _ => _ end =>
      match a with
      | (if dry_run cfg then Ok out else basic_publish out ?p) =>
          destruct (Hpub cfg out p Hok) as [o Ho]
      end;
      match b with
      | (if dry_run cfg' then Ok out' else basic_publish out' ?p') =>
          destruct (Hpub cfg' out' p' Hok') as [o' Ho']
      end
  end.
  rewrite Ho, Ho'. reflexivity.
Qed.

Lemma entries_loop_count (cfg cfg' : config) (file_data : bytes) (fuel : nat) :
  message_limit cfg = message_limit cfg' ->
  dry_run cfg = true \/ reliable br ->
  dry_run cfg' = true \/ reliable br ->
  forall (pos n : Z) (out out' : sink),
    fst (entries_loop fuel cfg file_data pos n out)
    = fst (entries_loop fuel cfg' file_data pos n out').
Proof.
  intros Hm Hok Hok'. induction fuel as [|fuel IH]; intros pos n out out';
    cbn [entries_loop]; [reflexivity|].
  destruct (snd (entry_step file_data pos)) as [| |pos'| |msg_data pos'|];
    try reflexivity; [apply IH|].
  pose proof (handle_entry_count cfg cfg' msg_data n out out' Hm Hok Hok') as Hc.
  destruct (handle_entry cfg msg_data n out) as [r1 o1].
  destruct (handle_entry cfg' msg_data n out') as [r2 o2].
  cbn [fst] in Hc. subst r2. destruct r1 as [[n1 stop]| |]; try reflexivity.
  destruct stop; [reflexivity|apply IH].
Qed.

Lemma extract_messages_count (cfg cfg' : config) (fs : filesystem)
  (file_path : str) (out out' : sink) :
  message_limit cfg = message_limit cfg' ->
  dry_run cfg = true \/ reliable br ->
  dry_run cfg' = true \/ reliable br ->
  fst (extract_messages_from_erlang_entries cfg fs file_path out)
  = fst (extract_messages_from_erlang_entries cfg' fs file_path out').
Proof.
  intros Hm Hok Hok'. unfold extract_messages_from_erlang_entries.
  destruct (fs file_path) as [file_data|]; [|reflexivity].
  pose proof (entries_loop_count cfg cfg' file_data (S (length file_data)) Hm
                Hok Hok' 64 0 out out') as Hc.
  destruct (entries_loop _ cfg _ _ _ _) as [r1 o1].
  destruct (entries_loop _ cfg' _ _ _ _) as [r2 o2].
  cbn [fst] in Hc. subst r2. destruct r1; reflexivity.
Qed.

Lemma process_loop_count (cfg cfg' : config) (fs : filesystem)
  (qs_files : list str) (todo : list str) :
  message_limit cfg = message_limit cfg' ->
  file_limit cfg = file_limit cfg' ->
  dry_run cfg = true \/ reliable br ->
  dry_run cfg' = true \/ reliable br ->
  forall (total : Z) (out out' : sink),
    fst (RecoveryImprovedJson.process_loop cfg fs qs_files todo total out)
    = fst (RecoveryImprovedJson.process_loop cfg' fs qs_files todo total out').
Proof.
  intros Hm Hf Hok Hok'. induction todo as [|f todo IH]; intros total out out';
    cbn [RecoveryImprovedJson.process_loop]; [reflexivity|].
  unfold file_limit_reached, message_limit_reached. rewrite <- Hm, <- Hf.
  destruct (if file_limit cfg >? 0 then _ else _) as [[|]| |]; try reflexivity.
  pose proof (extract_messages_count cfg cfg' fs f out out' Hm Hok Hok') as Hc.
  destruct (extract_messages_from_erlang_entries cfg fs f out) as [r1 o1].
  destruct (extract_messages_from_erlang_entries cfg' fs f out') as [r2 o2].
  cbn [fst] in Hc. subst r2. destruct r1 as [n| |]; try reflexivity.
  destruct (_ && _); [reflexivity|apply IH].
Qed.

(** X5.  A dry run of the entry decoder leaves the sink as it was,
    whatever the broker would do; and when no call of [basic_publish]
    raises, it reports the total that the same run reports when it
    publishes. *)
Theorem entry_dry_run_same_total (cfg : config) (fs : filesystem)
  (qs_files : list str) (out : sink) :
  snd (RecoveryImprovedJson.process_files (set_dry_run true cfg) fs qs_files out)
  = out
  /\ (reliable br ->
      fst (RecoveryImprovedJson.process_files (set_dry_run true cfg) fs
             qs_files out)
      = fst (RecoveryImprovedJson.process_files (set_dry_run false cfg) fs
               qs_files out)).
Proof.
  split.
  - destruct (RecoveryImprovedJson.process_files (set_dry_run true cfg) fs
                qs_files out) as [r out'] eqn:Hrun.
    destruct (process_loop_accounting _ _ _ _ _ _ _ _ Hrun)
      as (news & -> & _ & Hdry & _).
    cbn [snd]. rewrite (Hdry eq_refl). apply app_nil_r.
  - intros Hrel. apply process_loop_count; try reflexivity.
    + left. reflexivity.
    + right. exact Hrel.
Qed.

(** A file that cannot be read, and a file too short to hold an entry
    header after the 64 header bytes, give no message. *)
Lemma entries_loop_short (cfg : config) (file_data : bytes) (fuel : nat)
  (n : Z) (out : sink) :
  len file_data < 72 ->
  entries_loop (S fuel) cfg file_data 64 n out = (Ok n, out).
Proof.
  intros Hshort. cbn [entries_loop]. unfold entry_step.
  destruct (Z.ltb_spec 64 (len file_data)); cbn [negb snd]; [|reflexivity].
  destruct (Z.gtb_spec (64 + 8) (len file_data)); [reflexivity|lia].
Qed.

Lemma extract_messages_empty_file (cfg : config) (fs : filesystem)
  (file_path : str) (out : sink) :
  empty_file fs file_path ->
  extract_messages_from_erlang_entries cfg fs file_path out = (Ok 0, out).
Proof.
  unfold empty_file, extract_messages_from_erlang_entries.
  destruct (fs file_path) as [file_data|]; intros H; [|reflexivity].
  rewrite entries_loop_short by assumption. reflexivity.
Qed.

(** Without a file limit the loop over the files does not consult the
    catalog it was started from. *)
Lemma process_loop_unlimited (cfg : config) (fs : filesystem)
  (qs_files qs_files' : list str) (todo : list str) :
  file_limit cfg <= 0 ->
  forall (total : Z) (out : sink),
    RecoveryImprovedJson.process_loop cfg fs qs_files todo total out
    = RecoveryImprovedJson.process_loop cfg fs qs_files' todo total out.
Proof.
  intros Hf. induction todo as [|f todo IH]; intros total out;
    cbn [RecoveryImprovedJson.process_loop]; [reflexivity|].
  unfold file_limit_reached.
  destruct (Z.gtb_spec (file_limit cfg) 0); [lia|].
  destruct (extract_messages_from_erlang_entries cfg fs f out) as [[n| |] o];
    try reflexivity.
  destruct (message_limit_reached cfg (total + n)); [reflexivity|apply IH].
Qed.

(** X6.  Without a file limit, a run of the entry decoder goes on past a
    file that cannot be read and past a file of fewer than 72 bytes (the
    64 header bytes and one entry header): the run over a catalog with
    such a file gives the total and the publications of the run over the
    catalog without it. *)
Theorem entry_run_skips_empty_file (cfg : config) (fs : filesystem)
  (before after : list str) (file_path : str) (out : sink) :
  file_limit cfg <= 0 ->
  empty_file fs file_path ->
  RecoveryImprovedJson.process_files cfg fs (before ++ file_path :: after) out
  = RecoveryImprovedJson.process_files cfg fs (before ++ after) out.
Proof.
  intros Hf Hempty. unfold RecoveryImprovedJson.process_files.
  rewrite (process_loop_unlimited cfg fs _ (before ++ after)) by assumption.
  assert (H : forall todo total out0,
            message_limit_reached cfg total = false ->
            RecoveryImprovedJson.process_loop cfg fs (before ++ after)
              (todo ++ file_path :: after) total out0
            = RecoveryImprovedJson.process_loop cfg fs (before ++ after)
                (todo ++ after) total out0).
  { induction todo as [|f todo IH]; intros total out0 Hlim;
      cbn [app RecoveryImprovedJson.process_loop].
    - unfold file_limit_reached. destruct (Z.gtb_spec (file_limit cfg) 0); [lia|].
      rewrite extract_messages_empty_file by assumption.
      rewrite Z.add_0_r, Hlim. reflexivity.
    - unfold file_limit_reached. destruct (Z.gtb_spec (file_limit cfg) 0); [lia|].
      destruct (extract_messages_from_erlang_entries cfg fs f out0)
        as [[n| |] o]; try reflexivity.
      destruct (message_limit_reached cfg (total + n)) eqn:E; [reflexivity|].
      apply IH. assumption. }
  apply H. unfold message_limit_reached.
  destruct (Z.gtb_spec (message_limit cfg) 0); [|reflexivity].
  destruct (Z.geb_spec 0 (message_limit cfg)); [lia|reflexivity].
Qed.

End EntryCounts.

Lemma entry_dry_run_same_total_witness :
  fst (@RecoveryImprovedJson.process_files ascii_only_db accepting_broker
         (set_dry_run true (Samples.publishing 2))
         (Samples.two_segments Samples.segment_one Samples.segment_three)
         [s_ "d/1.qs"; s_ "d/2.qs"] [])
  = fst (@RecoveryImprovedJson.process_files ascii_only_db accepting_broker
           (set_dry_run false (Samples.publishing 2))
           (Samples.two_segments Samples.segment_one Samples.segment_three)
           [s_ "d/1.qs"; s_ "d/2.qs"] []).
Proof.
  apply (@entry_dry_run_same_total ascii_only_db accepting_broker
           (Samples.publishing 2)).
  exact accepting_broker_reliable.
Defined.

Lemma entry_run_skips_empty_file_witness :
  @RecoveryImprovedJson.process_files ascii_only_db accepting_broker
    (Samples.publishing 0)
    (Samples.two_segments Samples.segment_one Samples.segment_three)
    ([s_ "d/1.qs"] ++ s_ "d/missing.qs" :: [s_ "d/2.qs"]) []
  = @RecoveryImprovedJson.process_files ascii_only_db accepting_broker
      (Samples.publishing 0)
      (Samples.two_segments Samples.segment_one Samples.segment_three)
      ([s_ "d/1.qs"] ++ [s_ "d/2.qs"]) [].
Proof.
  apply (@entry_run_skips_empty_file ascii_only_db accepting_broker).
  - vm_compute. discriminate.
  - exact I.
Defined.

(** ** Messages of the marker scan *)

Lemma startswith_prefix (l sub : bytes) :
  startswith l sub = true <-> exists rest, l = sub ++ rest.
Proof.
  revert l. induction sub as [|x sub IH]; intros l.
  - rewrite startswith_nil. split; [intros _; exists l; reflexivity|reflexivity].
  - destruct l as [|y l]; cbn [startswith].
    + split; [discriminate|]. intros [rest H]. discriminate H.
    + rewrite andb_true_iff, byte_eqb_eq, IH. split.
      * intros [-> [rest ->]]. exists rest. reflexivity.
      * intros [rest H]. injection H as -> ->. split; [reflexivity|eauto].
Qed.

(** Where [find_at] points, the pattern stands. *)
Lemma find_at_hit (sub l : bytes) : forall (i r : Z),
  0 <= i -> find_at sub l i = r -> r <> -1 ->
  exists k, r = i + Z.of_nat k /\ (k <= length l)%nat
            /\ startswith (skipn k l) sub = true.
Proof.
  induction l as [|x l IH]; intros i r Hi Hr Hne; cbn [find_at] in Hr.
  - destruct (startswith [] sub) eqn:E; [|congruence].
    exists 0%nat. repeat split; [lia|reflexivity|exact E].
  - destruct (startswith (x :: l) sub) eqn:E.
    + exists 0%nat. repeat split; [lia|cbn [length]; lia|exact E].
    + destruct (IH (i + 1) r ltac:(lia) Hr Hne) as (k & -> & Hk & Hs).
      exists (S k). repeat split; [lia|cbn [length]; lia|exact Hs].
Qed.

Lemma find_hit (data sub : bytes) (start r : Z) :
  0 <= start -> find data sub start = r -> r <> -1 ->
  start <= r /\ r <= len data
  /\ startswith (skipn (Z.to_nat r) data) sub = true.
Proof.
  intros Hs Hr Hne. unfold find in Hr.
  destruct (Z.gtb_spec start (len data)); [congruence|].
  destruct (find_at_hit _ _ _ _ Hs Hr Hne) as (k & -> & Hk & Hsw).
  unfold slice_from in *. rewrite length_skipn in Hk. rewrite skipn_skipn in Hsw.
  unfold len in *. repeat split; try lia.
  replace (Z.to_nat (start + Z.of_nat k)) with (k + Z.to_nat start)%nat by lia.
  exact Hsw.
Qed.

(** Where [rfind_at] points, the pattern stands. *)
Lemma rfind_at_hit (sub l : bytes) : forall (i r : Z),
  0 <= i -> rfind_at sub l i = r -> r <> -1 ->
  exists k, r = i + Z.of_nat k /\ (k <= length l)%nat
            /\ startswith (skipn k l) sub = true.
Proof.
  induction l as [|x l IH]; intros i r Hi Hr Hne; cbn [rfind_at] in Hr.
  - destruct (startswith [] sub) eqn:E; [|congruence].
    exists 0%nat. repeat split; [lia|reflexivity|exact E].
  - destruct (Z.eqb_spec (rfind_at sub l (i + 1)) (-1)) as [Hnone|Hsome].
    + destruct (startswith (x :: l) sub) eqn:E; [|congruence].
      exists 0%nat. repeat split; [lia|cbn [length]; lia|exact E].
    + destruct (IH (i + 1) r ltac:(lia) Hr Hne) as (k & -> & Hk & Hs).
      exists (S k). repeat split; [lia|cbn [length]; lia|exact Hs].
Qed.

Lemma firstn_plus {A : Type} (n k : nat) (l : list A) :
  firstn (n + k) l = firstn n l ++ firstn k (skipn n l).
Proof.
  revert l. induction n as [|n IH]; intros l; [reflexivity|].
  destruct l as [|x l]; [cbn; rewrite firstn_nil; reflexivity|].
  cbn [Nat.add firstn skipn app]. f_equal. apply IH.
Qed.

(** A slice is the concatenation of its two parts. *)
Lemma slice_split {A : Type} (l : list A) (a b c : Z) :
  0 <= a -> a <= b -> b <= c ->
  slice l a c = slice l a b ++ slice l b c.
Proof.
  intros Ha Hb Hc. unfold slice.
  replace (Z.to_nat (c - a)) with (Z.to_nat (b - a) + Z.to_nat (c - b))%nat by lia.
  rewrite firstn_plus, skipn_skipn.
  replace (Z.to_nat (b - a) + Z.to_nat a)%nat with (Z.to_nat b) by lia.
  reflexivity.
Qed.

(** The bytes of a pattern that stands at position [r]. *)
Lemma slice_of_prefix (data sub : bytes) (r : Z) :
  0 <= r -> startswith (skipn (Z.to_nat r) data) sub = true ->
  slice data r (r + len sub) = sub.
Proof.
  intros Hr Hs. apply startswith_prefix in Hs. destruct Hs as [rest Hs].
  unfold slice. rewrite Hs. replace (r + len sub - r) with (len sub) by lia.
  unfold len. rewrite Nat2Z.id, firstn_app, Nat.sub_diag, firstn_all.
  cbn [firstn]. apply app_nil_r.
Qed.

(** Where the message of a start marker lies and how it begins and
    ends. *)
Lemma marker_message_parts (data : bytes) (end_positions : list Z)
  (start_pos : Z) (message : bytes) :
  0 <= start_pos ->
  RabbitmqRecovery.message_at data end_positions start_pos = Some message ->
  exists json_start json_end next_end_pos,
    In next_end_pos end_positions
    /\ start_pos < json_start /\ json_start < json_end
    /\ json_end + 2 <= next_end_pos
    /\ message = slice data json_start (json_end + 2)
    /\ slice data json_start (json_start + 1) = [x7b]
    /\ slice data json_end (json_end + 2) = [x7d; x7d].
Proof.
  intros Hstart. unfold RabbitmqRecovery.message_at.
  destruct (List.find _ end_positions) as [next_end_pos|] eqn:Hfind; [|discriminate].
  apply find_some in Hfind. destruct Hfind as [Hin Hafter].
  change (b_ "{") with [x7b]. change (b_ "}}") with [x7d; x7d].
  destruct (Z.gtb_spec (find data [x7b] start_pos) start_pos) as [Hjs|];
    [|discriminate].
  destruct (Z.ltb_spec (find data [x7b] start_pos) next_end_pos) as [Hjs2|];
    [|discriminate].
  cbn [andb]. set (json_start := find data [x7b] start_pos) in *.
  destruct (Z.gtb_spec (rfind data [x7d; x7d] json_start next_end_pos) json_start)
    as [Hje|]; [|discriminate].
  set (json_end := rfind data [x7d; x7d] json_start next_end_pos) in *.
  intros Hm. injection Hm as <-.
  destruct (find_hit data [x7b] start_pos json_start Hstart eq_refl ltac:(lia))
    as (_ & Hjs_len & Hbrace).
  assert (Hr : exists k, json_end = json_start + Z.of_nat k
             /\ (k <= length (slice data json_start next_end_pos))%nat
             /\ startswith (skipn k (slice data json_start next_end_pos))
                  [x7d; x7d] = true).
  { unfold json_end, rfind.
    unfold json_end, rfind in Hje.
    destruct (Z.gtb_spec json_start (len data)); [lia|].
    apply rfind_at_hit; [lia|reflexivity|lia]. }
  destruct Hr as (k & Hk & Hklen & Hclose).
  apply startswith_prefix in Hclose. destruct Hclose as [rest Hclose].
  assert (Hk2 : (k + 2 <= length (slice data json_start next_end_pos))%nat).
  { rewrite <- (firstn_skipn k (slice data json_start next_end_pos)).
    rewrite Hclose, length_app, length_firstn. cbn [length app]. lia. }
  assert (Hfit : json_end + 2 <= next_end_pos /\ json_end + 2 <= len data).
  { unfold slice in Hk2. rewrite length_firstn, length_skipn in Hk2.
    unfold len. lia. }
  assert (Hbraces : slice data json_end (json_end + 2) = [x7d; x7d]).
  { apply (slice_of_prefix data [x7d; x7d]); [lia|].
    apply startswith_prefix. exists (skipn 2 (skipn (Z.to_nat json_end) data)).
    assert (Hsk : skipn k (slice data json_start next_end_pos)
                  = firstn (Z.to_nat (next_end_pos - json_end))
                           (skipn (Z.to_nat json_end) data)).
    { unfold slice. rewrite skipn_firstn_comm, skipn_skipn. f_equal; [lia|].
      f_equal. lia. }
    rewrite Hsk in Hclose.
    assert (H2 : firstn 2 (skipn (Z.to_nat json_end) data) = [x7d; x7d]).
    { replace 2%nat with (Nat.min 2 (Z.to_nat (next_end_pos - json_end))) by lia.
      rewrite <- firstn_firstn, Hclose. reflexivity. }
    rewrite <- H2. symmetry. apply firstn_skipn. }
  exists json_start, json_end, next_end_pos.
  repeat split; try assumption; try lia.
  apply (slice_of_prefix data [x7b] json_start); [lia|assumption].
Qed.

(** A slice that begins with an opening brace and ends, later, with two
    closing braces. *)
Lemma braced_slice (data : bytes) (json_start json_end : Z) :
  0 <= json_start -> json_start < json_end ->
  slice data json_start (json_start + 1) = [x7b] ->
  slice data json_end (json_end + 2) = [x7d; x7d] ->
  slice data json_start (json_end + 2)
  = [x7b] ++ slice data (json_start + 1) json_end ++ [x7d; x7d].
Proof.
  intros H0 Hlt Hopen Hclose.
  rewrite (slice_split data json_start (json_start + 1) (json_end + 2)) by lia.
  rewrite (slice_split data (json_start + 1) json_end (json_end + 2)) by lia.
  rewrite Hopen, Hclose. reflexivity.
Qed.



(** X7.  Every message that the marker scan cuts out for a start marker
    begins with an opening brace and ends with two closing braces; it is
    the slice of the data from a brace after the start marker to the
    braces, which lie before the paired end marker. *)
Theorem marker_message_shape (data : bytes) (end_positions : list Z)
  (start_pos : Z) (message : bytes) :
  0 <= start_pos ->
  RabbitmqRecovery.message_at data end_positions start_pos = Some message ->
  exists json_start json_end next_end_pos middle,
    In next_end_pos end_positions
    /\ start_pos < json_start /\ json_start < json_end
    /\ json_end + 2 <= next_end_pos
    /\ message = slice data json_start (json_end + 2)
    /\ message = [x7b] ++ middle ++ [x7d; x7d].
Proof.
  intros Hpos Hmsg.
  destruct (marker_message_parts _ _ _ _ Hpos Hmsg)
    as (json_start & json_end & next_end_pos & Hin & Hjs & Hje & Hfit
        & Hslice & Hopen & Hclose).
  exists json_start, json_end, next_end_pos,
    (slice data (json_start + 1) json_end).
  repeat split; try assumption.
  rewrite Hslice. apply braced_slice; try assumption. lia.
Qed.

Lemma marker_message_shape_parts (data : bytes) (end_positions : list Z)
  (start_pos : Z) (message : bytes) :
  0 <= start_pos ->
  RabbitmqRecovery.message_at data end_positions start_pos = Some message ->
  exists middle, message = [x7b] ++ middle ++ [x7d; x7d].
Proof.
  intros Hpos Hmsg.
  destruct (marker_message_parts _ _ _ _ Hpos Hmsg)
    as (json_start & json_end & next_end_pos & _ & Hjs & Hje & _
        & Hslice & Hopen & Hclose).
  exists (slice data (json_start + 1) json_end).
  rewrite Hslice. apply braced_slice; try assumption. lia.
Qed.

Lemma marker_message_shape_witness :
  exists json_start json_end next_end_pos middle,
    In next_end_pos [17]
    /\ 0 < json_start /\ json_start < json_end
    /\ json_end + 2 <= next_end_pos
    /\ skipn 4 (firstn 17 (Samples.marked_message "1"))
       = slice (Samples.marked_message "1" ++ [x00]) json_start (json_end + 2)
    /\ skipn 4 (firstn 17 (Samples.marked_message "1"))
       = [x7b] ++ middle ++ [x7d; x7d].
Proof.
  apply (marker_message_shape (Samples.marked_message "1" ++ [x00]) [17] 0).
  - lia.
  - vm_compute. reflexivity.
Defined.

(** ** Publications of the marker scan *)

Lemma range_nonneg (n : Z) : Forall (fun i => 0 <= i) (range n).
Proof.
  apply Forall_forall. intros i Hi. apply range_In in Hi. lia.
Qed.

Lemma Forall_filter_keep {A : Type} (P : A -> Prop) (p : A -> bool)
  (l : list A) :
  Forall P l -> Forall P (filter p l).
Proof.
  rewrite !Forall_forall. intros H x Hx. apply filter_In in Hx. apply H, Hx.
Qed.

Section MarkerRuns.
Context {br : Broker}.

(** The publishing loop of the marker scan: what it adds to the sink.  A
    call of [basic_publish] that raises adds nothing and is not
    counted. *)
Lemma publish_messages_accounting (cfg : config) (data : bytes)
  (end_positions : list Z) (start_positions : list Z) :
  Forall (fun i => 0 <= i) start_positions ->
  forall (n : Z) (out : sink),
  exists n' news,
    RabbitmqRecovery.publish_messages cfg data end_positions start_positions n out
    = (n', out ++ news)
    /\ Forall (marker_publication cfg) news
    /\ n <= n' <= n + len start_positions
    /\ (if dry_run cfg then news = [] else len news = n' - n).
Proof.
  induction 1 as [|start_pos rest Hpos _ IH]; intros n out;
    cbn [RabbitmqRecovery.publish_messages].
  - exists n, []. rewrite app_nil_r. repeat split; try constructor; try lia.
    + unfold len. cbn [length]. lia.
    + destruct (dry_run cfg); [reflexivity|unfold len; cbn [length]; lia].
  - assert (Hskip : forall k out0 news0,
              (exists n' news,
                 RabbitmqRecovery.publish_messages cfg data end_positions rest k out0
                 = (n', out0 ++ news)
                 /\ Forall (marker_publication cfg) news
                 /\ k <= n' <= k + len rest
                 /\ (if dry_run cfg then news = [] else len news = n' - k)) ->
              out0 = out ++ news0 ->
              Forall (marker_publication cfg) news0 ->
              n <= k <= n + 1 ->
              (if dry_run cfg then news0 = [] else len news0 = k - n) ->
              exists n' news,
                RabbitmqRecovery.publish_messages cfg data end_positions rest k out0
                = (n', out ++ news)
                /\ Forall (marker_publication cfg) news
                /\ n <= n' <= n + len (start_pos :: rest)
                /\ (if dry_run cfg then news = [] else len news = n' - n)).
    { intros k out0 news0 (n' & news & Hrun & Hall & Hn & Hlen) -> Hall0 Hk Hlen0.
      exists n', (news0 ++ news). rewrite app_assoc.
      split; [assumption|]. split; [apply Forall_app; split; assumption|].
      split; [unfold len in *; cbn [length]; lia|].
      destruct (dry_run cfg); [subst; reflexivity|rewrite len_app; lia]. }
    destruct (RabbitmqRecovery.message_at data end_positions start_pos)
      as [message|] eqn:Hmsg.
    + destruct (utf8_decode Replace message) as [content_str|] eqn:Hdec.
      * destruct (marker_message_shape_parts data end_positions start_pos message
                    Hpos Hmsg) as [middle Hshape].
        set (p := {| pub_exchange := exchange cfg;
                     pub_routing_key := effective_routing_key cfg;
                     pub_body := content_str;
                     pub_delivery_mode := 2;
                     pub_content_type := ApplicationJson |}).
        fold p.
        destruct (if dry_run cfg then Ok out else basic_publish out p)
          as [out1|e|] eqn:Hpub.
        -- assert (Hout1 : out1 = out ++ (if dry_run cfg then [] else [p])).
           { destruct (dry_run cfg).
             - injection Hpub as <-. rewrite app_nil_r. reflexivity.
             - unfold basic_publish in Hpub.
               destruct (accepts out p); [|discriminate Hpub].
               injection Hpub as <-. reflexivity. }
           apply (Hskip (n + 1) _ (if dry_run cfg then [] else [p])).
           ++ apply IH.
           ++ exact Hout1.
           ++ assert (Hp : marker_publication cfg p).
              { unfold marker_publication, addressed. cbn [p pub_exchange
                  pub_routing_key pub_delivery_mode pub_content_type pub_body].
                repeat split. exists message. split; [assumption|].
                exists middle. assumption. }
              destruct (dry_run cfg);
                [constructor|constructor; [assumption|constructor]].
           ++ lia.
           ++ destruct (dry_run cfg);
                [reflexivity|unfold len; cbn [length]; lia].
        -- apply (Hskip n out []).
           ++ apply IH.
           ++ symmetry. apply app_nil_r.
           ++ constructor.
           ++ lia.
           ++ destruct (dry_run cfg);
                [reflexivity|unfold len; cbn [length]; lia].
        -- apply (Hskip n out []).
           ++ apply IH.
           ++ symmetry. apply app_nil_r.
           ++ constructor.
           ++ lia.
           ++ destruct (dry_run cfg);
                [reflexivity|unfold len; cbn [length]; lia].
      * apply (Hskip n out []).
        -- apply IH.
        -- symmetry. apply app_nil_r.
        -- constructor.
        -- lia.
        -- destruct (dry_run cfg); [reflexivity|unfold len; cbn [length]; lia].
    + apply (Hskip n out []).
      * apply IH.
      * symmetry. apply app_nil_r.
      * constructor.
      * lia.
      * destruct (dry_run cfg); [reflexivity|unfold len; cbn [length]; lia].
Qed.

(** One file under the marker scan. *)
Lemma marker_file_accounting (cfg : config) (fs : filesystem)
  (file_path : str) (out : sink) :
  exists n news,
    RabbitmqRecovery.extract_and_publish_exact_markers cfg fs file_path out
    = (n, out ++ news)
    /\ 0 <= n
    /\ Forall (marker_publication cfg) news
    /\ (if dry_run cfg then news = [] else len news = n).
Proof.
  unfold RabbitmqRecovery.extract_and_publish_exact_markers.
  destruct (fs file_path) as [file_data|].
  - rewrite !marker_positions_found.
    destruct (publish_messages_accounting cfg (slice_from file_data 64)
                (filter (tag_at (slice_from file_data 64) 116)
                        (range (len (slice_from file_data 64) - 4)))
                (filter (tag_at (slice_from file_data 64) 109)
                        (range (len (slice_from file_data 64) - 4)))
                (Forall_filter_keep _ _ _ (range_nonneg _)) 0 out)
      as (n & news & Hrun & Hall & Hn & Hlen).
    exists n, news. rewrite Hrun. repeat split; try assumption; try lia.
    destruct (dry_run cfg); [assumption|lia].
  - exists 0, []. rewrite app_nil_r. repeat split; try constructor; try lia.
    destruct (dry_run cfg); reflexivity.
Qed.

(** A run of the marker scan over files of the catalog. *)
Lemma marker_loop_accounting (cfg : config) (fs : filesystem)
  (qs_files : list str) (todo : list str) :
  incl todo qs_files ->
  forall (total : Z) (out : sink),
  exists total' news,
    RabbitmqRecovery.process_loop cfg fs qs_files todo total out
    = (Ok total', out ++ news)
    /\ Forall (marker_publication cfg) news
    /\ total <= total'
    /\ (if dry_run cfg then news = [] else len news = total' - total).
Proof.
  induction todo as [|f todo IH]; intros Hincl total out;
    cbn [RabbitmqRecovery.process_loop].
  - exists total, []. rewrite app_nil_r. repeat split; try constructor; try lia.
    destruct (dry_run cfg); [reflexivity|unfold len; cbn [length]; lia].
  - destruct (file_limit_reached_returns cfg qs_files f) as [b ->].
    { apply Hincl. left. reflexivity. }
    destruct b.
    + exists total, []. rewrite app_nil_r. repeat split; try constructor; try lia.
      destruct (dry_run cfg); [reflexivity|unfold len; cbn [length]; lia].
    + destruct (marker_file_accounting cfg fs f out)
        as (n & news & -> & Hn & Hall & Hlen).
      destruct (message_limit_reached cfg (total + n)).
      * exists (total + n), news. repeat split; try assumption; try lia.
        destruct (dry_run cfg); [assumption|lia].
      * destruct (IH (fun x Hx => Hincl x (or_intror Hx)) (total + n) (out ++ news))
          as (total' & news' & -> & Hall' & Hle & Hlen').
        exists total', (news ++ news'). rewrite app_assoc.
        repeat split; try lia; [apply Forall_app; split; assumption|].
        destruct (dry_run cfg); [subst; reflexivity|rewrite len_app; lia].
Qed.

(** X8.  A run of the marker scan never fails on a file: it returns a
    total, the sink grows by exactly that many publications, or by none
    in a dry run, and every publication is addressed to the configured
    exchange and routing key, asks for persistent delivery, is typed as
    JSON, and carries the lossy UTF-8 decoding of bytes that begin with
    an opening brace and end with two closing braces. *)
Theorem marker_run_accounting (cfg : config) (fs : filesystem)
  (qs_files : list str) (out : sink) :
  exists total news,
    RabbitmqRecovery.process_files cfg fs qs_files out = (Ok total, out ++ news)
    /\ 0 <= total
    /\ Forall (marker_publication cfg) news
    /\ (if dry_run cfg then news = [] else len news = total).
Proof.
  unfold RabbitmqRecovery.process_files.
  destruct (marker_loop_accounting cfg fs qs_files qs_files (incl_refl _) 0 out)
    as (total & news & Hrun & Hall & Hle & Hlen).
  exists total, news. repeat split; try assumption.
  destruct (dry_run cfg); [assumption|lia].
Qed.





End MarkerRuns.


(** ** The file limit *)

Lemma str_eqb_eq (a b : str) : str_eqb a b = true <-> a = b.
Proof.
  revert b. induction a as [|x a IH]; intros [|y b]; cbn [str_eqb];
    try (split; [discriminate|discriminate]); [split; reflexivity|].
  rewrite andb_true_iff, Z.eqb_eq, IH. split.
  - intros [-> ->]. reflexivity.
  - intros H. injection H as -> ->. split; reflexivity.
Qed.

(** In a catalog without repetition, [index] gives the position. *)
Lemma index_of_position (done rest : list str) (f : str) :
  ~ In f done -> index_of (done ++ f :: rest) f = Ok (len done).
Proof.
  induction done as [|y done IH]; intros Hnin; cbn [app index_of].
  - rewrite str_eqb_refl. reflexivity.
  - destruct (str_eqb y f) eqn:E.
    + apply str_eqb_eq in E. subst y. exfalso. apply Hnin. left. reflexivity.
    + rewrite IH by (intros H; apply Hnin; right; assumption).
      cbn [bind]. unfold len. cbn [length]. f_equal. lia.
Qed.

(** The file-limit test at the file that follows [done]. *)
Lemma file_limit_reached_position (cfg : config) (done rest : list str)
  (f : str) :
  0 < file_limit cfg -> ~ In f done ->
  file_limit_reached cfg (done ++ f :: rest) f
  = Ok (len done + 1 >? file_limit cfg).
Proof.
  intros Hk Hnin. unfold file_limit_reached.
  destruct (Z.gtb_spec (file_limit cfg) 0); [|lia].
  rewrite index_of_position by assumption. cbn [bind]. f_equal. f_equal.
  unfold slice_to, len. rewrite length_firstn, length_app. cbn [length]. lia.
Qed.

Section FileLimit.
Context {db : UnicodeDB} {br : Broker}.

Lemma entries_loop_file_limit (k : Z) (cfg : config) (file_data : bytes)
  (fuel : nat) :
  forall (pos n : Z) (out : sink),
    entries_loop fuel (set_file_limit k cfg) file_data pos n out
    = entries_loop fuel cfg file_data pos n out.
Proof.
  induction fuel as [|fuel IH]; intros pos n out; cbn [entries_loop];
    [reflexivity|].
  destruct (snd (entry_step file_data pos)) as [| |pos'| |msg_data pos'|];
    try reflexivity; [apply IH|].
  change (handle_entry (set_file_limit k cfg) msg_data n out)
    with (handle_entry cfg msg_data n out).
  destruct (handle_entry cfg msg_data n out) as [[[n1 stop]| |] o];
    try reflexivity.
  destruct stop; [reflexivity|apply IH].
Qed.

Lemma extract_messages_file_limit (k : Z) (cfg : config) (fs : filesystem)
  (file_path : str) (out : sink) :
  extract_messages_from_erlang_entries (set_file_limit k cfg) fs file_path out
  = extract_messages_from_erlang_entries cfg fs file_path out.
Proof.
  unfold extract_messages_from_erlang_entries.
  destruct (fs file_path); [|reflexivity].
  rewrite entries_loop_file_limit. reflexivity.
Qed.

(** With a file limit the loop runs over the files of the catalog that
    lie below the limit, as a loop without limit would. *)
Lemma entry_loop_limited (cfg : config) (fs : filesystem)
  (qs_files other : list str) (todo : list str) :
  0 < file_limit cfg -> NoDup qs_files ->
  forall (done : list str) (total : Z) (out : sink),
    qs_files = done ++ todo ->
    RecoveryImprovedJson.process_loop cfg fs qs_files todo total out
    = RecoveryImprovedJson.process_loop (set_file_limit 0 cfg) fs other
        (firstn (Z.to_nat (file_limit cfg) - length done) todo) total out.
Proof.
  intros Hk Hnodup. induction todo as [|f todo IH]; intros done total out Hqs.
  - rewrite firstn_nil. reflexivity.
  - cbn [RecoveryImprovedJson.process_loop].
    assert (Hnin : ~ In f done).
    { rewrite Hqs in Hnodup. apply NoDup_remove_2 in Hnodup.
      intros H. apply Hnodup. apply in_or_app. left. assumption. }
    rewrite Hqs at 1. rewrite file_limit_reached_position by assumption.
    destruct (Z.gtb_spec (len done + 1) (file_limit cfg)) as [Hover|Hunder].
    + replace (Z.to_nat (file_limit cfg) - length done)%nat with 0%nat
        by (unfold len in Hover; lia).
      reflexivity.
    + replace (Z.to_nat (file_limit cfg) - length done)%nat
        with (S (Z.to_nat (file_limit cfg) - length (done ++ [f])))
        by (unfold len in Hunder; rewrite length_app; cbn [length]; lia).
      cbn [firstn RecoveryImprovedJson.process_loop].
      change (file_limit_reached (set_file_limit 0 cfg) other f) with (Ok false).
      rewrite extract_messages_file_limit.
      destruct (extract_messages_from_erlang_entries cfg fs f out)
        as [[n| |] o]; try reflexivity.
      change (message_limit_reached (set_file_limit 0 cfg) (total + n))
        with (message_limit_reached cfg (total + n)).
      destruct (message_limit_reached cfg (total + n)); [reflexivity|].
      apply IH. rewrite Hqs, <- app_assoc. reflexivity.
Qed.

Lemma publish_messages_file_limit (k : Z) (cfg : config) (data : bytes)
  (end_positions start_positions : list Z) :
  forall (n : Z) (out : sink),
    RabbitmqRecovery.publish_messages (set_file_limit k cfg) data end_positions
      start_positions n out
    = RabbitmqRecovery.publish_messages cfg data end_positions
        start_positions n out.
Proof.
  induction start_positions as [|s rest IH]; intros n out;
    cbn [RabbitmqRecovery.publish_messages]; [reflexivity|].
  destruct (RabbitmqRecovery.message_at data end_positions s); [|apply IH].
  destruct (utf8_decode Replace _); [|apply IH].
  match goal with
  | |- match ?a with _ => _ end = match ?b with _ => _ end =>
      change a with b; destruct b
  end; apply IH.
Qed.

Lemma marker_file_file_limit (k : Z) (cfg : config) (fs : filesystem)
  (file_path : str) (out : sink) :
  RabbitmqRecovery.extract_and_publish_exact_markers (set_file_limit k cfg)
    fs file_path out
  = RabbitmqRecovery.extract_and_publish_exact_markers cfg fs file_path out.
Proof.
  unfold RabbitmqRecovery.extract_and_publish_exact_markers.
  destruct (fs file_path); [|reflexivity].
  destruct (RabbitmqRecovery.marker_positions _ 109 _); try reflexivity.
  destruct (RabbitmqRecovery.marker_positions _ 116 _); try reflexivity.
  apply publish_messages_file_limit.
Qed.

Lemma marker_loop_limited (cfg : config) (fs : filesystem)
  (qs_files other : list str) (todo : list str) :
  0 < file_limit cfg -> NoDup qs_files ->
  forall (done : list str) (total : Z) (out : sink),
    qs_files = done ++ todo ->
    RabbitmqRecovery.process_loop cfg fs qs_files todo total out
    = RabbitmqRecovery.process_loop (set_file_limit 0 cfg) fs other
        (firstn (Z.to_nat (file_limit cfg) - length done) todo) total out.
Proof.
  intros Hk Hnodup. induction todo as [|f todo IH]; intros done total out Hqs.
  - rewrite firstn_nil. reflexivity.
  - cbn [RabbitmqRecovery.process_loop].
    assert (Hnin : ~ In f done).
    { rewrite Hqs in Hnodup. apply NoDup_remove_2 in Hnodup.
      intros H. apply Hnodup. apply in_or_app. left. assumption. }
    rewrite Hqs at 1. rewrite file_limit_reached_position by assumption.
    destruct (Z.gtb_spec (len done + 1) (file_limit cfg)) as [Hover|Hunder].
    + replace (Z.to_nat (file_limit cfg) - length done)%nat with 0%nat
        by (unfold len in Hover; lia).
      reflexivity.
    + replace (Z.to_nat (file_limit cfg) - length done)%nat
        with (S (Z.to_nat (file_limit cfg) - length (done ++ [f])))
        by (unfold len in Hunder; rewrite length_app; cbn [length]; lia).
      cbn [firstn RabbitmqRecovery.process_loop].
      change (file_limit_reached (set_file_limit 0 cfg) other f) with (Ok false).
      rewrite marker_file_file_limit.
      destruct (RabbitmqRecovery.extract_and_publish_exact_markers cfg fs f out)
        as [n o].
      change (message_limit_reached (set_file_limit 0 cfg) (total + n))
        with (message_limit_reached cfg (total + n)).
      destruct (message_limit_reached cfg (total + n)); [reflexivity|].
      apply IH. rewrite Hqs, <- app_assoc. reflexivity.
Qed.

(** X10.  With a positive file limit [k] and a catalog without
    repetition, a run reads the first [k] files of the catalog and no
    others: it gives the total and the publications of the run without
    file limit over the first [k] files.  This holds of both scripts. *)
Theorem file_limit_first_files (cfg : config)
  (fs : filesystem) (qs_files : list str) (out : sink) :
  0 < file_limit cfg -> NoDup qs_files ->
  RecoveryImprovedJson.process_files cfg fs qs_files out
  = RecoveryImprovedJson.process_files (set_file_limit 0 cfg) fs
      (firstn (Z.to_nat (file_limit cfg)) qs_files) out
  /\ RabbitmqRecovery.process_files cfg fs qs_files out
     = RabbitmqRecovery.process_files (set_file_limit 0 cfg) fs
         (firstn (Z.to_nat (file_limit cfg)) qs_files) out.
Proof.
  intros Hk Hnodup. split.
  - unfold RecoveryImprovedJson.process_files.
    rewrite (entry_loop_limited cfg fs qs_files
               (firstn (Z.to_nat (file_limit cfg)) qs_files) qs_files Hk Hnodup
               [] 0 out eq_refl).
    cbn [length]. rewrite Nat.sub_0_r. reflexivity.
  - unfold RabbitmqRecovery.process_files.
    rewrite (marker_loop_limited cfg fs qs_files
               (firstn (Z.to_nat (file_limit cfg)) qs_files) qs_files Hk Hnodup
               [] 0 out eq_refl).
    cbn [length]. rewrite Nat.sub_0_r. reflexivity.
Qed.

End FileLimit.

Lemma file_limit_first_files_witness :
  @RecoveryImprovedJson.process_files ascii_only_db accepting_broker
    (set_file_limit 1 (Samples.publishing 0))
    (Samples.two_segments Samples.segment_one Samples.segment_three)
    [s_ "d/1.qs"; s_ "d/2.qs"] []
  = @RecoveryImprovedJson.process_files ascii_only_db accepting_broker
      (set_file_limit 0 (set_file_limit 1 (Samples.publishing 0)))
      (Samples.two_segments Samples.segment_one Samples.segment_three)
      [s_ "d/1.qs"] [].
Proof.
  apply (@file_limit_first_files ascii_only_db accepting_broker
           (set_file_limit 1 (Samples.publishing 0))).
  - reflexivity.
  - repeat constructor; cbv; intuition discriminate.
Defined.

(** ** More on the sanitizer *)

(** Where the loop of [find_json_end] returns, from any state: one past
    a closing brace among the bytes it was given. *)
Lemma json_scan_return (l : bytes) :
  forall (i depth : Z) (in_string escape : bool) (r : Z),
    json_scan l i depth in_string escape = Some r ->
    exists k, (k < length l)%nat /\ r = i + Z.of_nat k + 1
              /\ nth_error l k = Some x7d.
Proof.
  induction l as [|b l IH]; intros i depth in_string escape r Hr;
    [discriminate|].
  assert (Hnext : forall d s e, json_scan l (i + 1) d s e = Some r ->
            exists k, (k < length (b :: l))%nat /\ r = i + Z.of_nat k + 1
                      /\ nth_error (b :: l) k = Some x7d).
  { intros d s e H. destruct (IH _ _ _ _ _ H) as (k & Hk & -> & Hnth).
    exists (S k). cbn [length nth_error]. repeat split; [lia|lia|assumption]. }
  cbn [json_scan] in Hr.
  destruct escape; [eapply Hnext; eassumption|].
  destruct (char_is (char_of b) 92 && in_string); [eapply Hnext; eassumption|].
  destruct (char_is (char_of b) 34); [eapply Hnext; eassumption|].
  destruct (negb in_string); [|eapply Hnext; eassumption].
  destruct (char_is (char_of b) 123); [eapply Hnext; eassumption|].
  destruct (char_is (char_of b) 125) eqn:Hclose; [|eapply Hnext; eassumption].
  destruct (depth - 1 =? 0); [|eapply Hnext; eassumption].
  injection Hr as <-. exists 0%nat. cbn [length nth_error].
  repeat split; [lia|lia|].
  rewrite char_is_val in Hclose by lia. apply Z.eqb_eq in Hclose.
  f_equal. apply byte_val_inj. rewrite Hclose. reflexivity.
Qed.

(** X11.  From any start inside the data, [find_json_end] answers with
    a position after the start and not beyond the end of the data;
    unless it is the length of the data, the byte before it is a closing
    brace.  So the slice that the sanitizer takes up to it is never cut
    short by the end of the data. *)
Theorem find_json_end_in_bounds (data : bytes) (start : Z) :
  0 <= start <= len data ->
  start <= find_json_end data start <= len data
  /\ (find_json_end data start = len data
      \/ (start < find_json_end data start
          /\ getitem data (find_json_end data start - 1) = Some x7d)).
Proof.
  intros Hstart. unfold find_json_end.
  destruct (json_scan (slice_from data start) start 0 false false) as [r|] eqn:Hscan.
  - destruct (json_scan_return _ _ _ _ _ _ Hscan) as (k & Hk & -> & Hnth).
    unfold slice_from in Hk, Hnth. rewrite length_skipn in Hk.
    unfold len in *. split; [lia|]. right. split; [lia|].
    unfold getitem. destruct (Z.ltb_spec (start + Z.of_nat k + 1 - 1) 0); [lia|].
    rewrite nth_error_skipn in Hnth.
    replace (Z.to_nat (start + Z.of_nat k + 1 - 1)) with (Z.to_nat start + k)%nat
      by lia.
    exact Hnth.
  - split; [lia|]. left. reflexivity.
Qed.

Lemma find_json_end_in_bounds_witness :
  6 <= find_json_end Samples.escaped_quote_input 6
    <= len Samples.escaped_quote_input
  /\ (find_json_end Samples.escaped_quote_input 6
      = len Samples.escaped_quote_input
      \/ (6 < find_json_end Samples.escaped_quote_input 6
          /\ getitem Samples.escaped_quote_input
               (find_json_end Samples.escaped_quote_input 6 - 1)
             = Some x7d)).
Proof.
  apply (find_json_end_in_bounds Samples.escaped_quote_input 6).
  vm_compute. split; discriminate.
Defined.

(** Reading a prefix of a prefix. *)
Lemma firstn_firstn_le {A : Type} (j k : nat) (l : list A) :
  (j <= k)%nat -> firstn j (firstn k l) = firstn j l.
Proof.
  intros H. rewrite firstn_firstn. f_equal. lia.
Qed.

Lemma never_rebalances_end (post : bytes) :
  never_rebalances (x7b :: post) ->
  find_json_end (x7b :: post) 0 = len (x7b :: post).
Proof.
  intros Hnever.
  destruct (find_json_end_at_brace [] post)
    as [(k & [H0 _] & _ & Hk & _)|[_ He]]; [|exact He].
  exfalso. apply (Hnever k Hk H0).
Qed.

(** The sanitizer on an input that begins with its first opening
    brace. *)
Lemma clean_json_head (post : bytes) :
  clean_json (x7b :: post)
  = Some (slice (x7b :: post) 0 (find_json_end (x7b :: post) 0)).
Proof.
  apply (clean_json_at_brace [] post). intros [].
Qed.

Section SanitizerTwice.
Context {db : UnicodeDB}.

(** The sanitizer at the first opening brace: the brace and what follows
    it up to where the depth returns to zero, or to the end. *)
Lemma clean_at_brace_cases (pre post : bytes) :
  ~ In x7b pre ->
  (exists k, rebalances_at (x7b :: post) (S k)
     /\ clean_message_content (pre ++ x7b :: post) = x7b :: firstn (S k) post)
  \/ (never_rebalances (x7b :: post)
      /\ clean_message_content (pre ++ x7b :: post) = x7b :: post).
Proof.
  intros Hnin. unfold clean_message_content, clean_message_content_via.
  rewrite clean_json_at_brace by assumption. cbn [snd].
  destruct (find_json_end_at_brace pre post)
    as [(k & Hk & Hnth & Hlt & ->)|[Hnever ->]].
  - left. destruct k as [|k]; [cbn in Hnth; discriminate Hnth|].
    exists k. split; [assumption|].
    replace (len pre + Z.of_nat (S k) + 1) with (len pre + Z.of_nat (S (S k)))
      by lia.
    rewrite slice_app. reflexivity.
  - right. split; [assumption|].
    replace (len (pre ++ x7b :: post))
      with (len pre + Z.of_nat (length (x7b :: post)))
      by (rewrite len_app; reflexivity).
    rewrite slice_app. apply firstn_all.
Qed.

(** X12.  On an input with an opening brace the sanitizer is idempotent:
    its result begins with an opening brace, and sanitizing the result
    again returns it unchanged. *)
Theorem clean_message_content_idempotent (raw : bytes) :
  In x7b raw ->
  (exists rest, clean_message_content raw = x7b :: rest)
  /\ clean_message_content (clean_message_content raw)
     = clean_message_content raw.
Proof.
  intros Hin. destruct (first_occurrence _ _ Hin) as (pre & post & -> & Hnin).
  destruct (clean_at_brace_cases pre post Hnin) as [(k & Hk & ->)|[Hnever ->]].
  - split; [eauto|].
    assert (Hk' : rebalances_at (x7b :: firstn (S k) post) (S k)).
    { destruct Hk as [H0 Hbefore]. split.
      - change (x7b :: firstn (S k) post) with (firstn (S (S k)) (x7b :: post)).
        rewrite firstn_firstn_le by lia. exact H0.
      - intros j Hj.
        change (x7b :: firstn (S k) post) with (firstn (S (S k)) (x7b :: post)).
        rewrite firstn_firstn_le by lia. apply Hbefore. assumption. }
    destruct (clean_at_brace_cases [] (firstn (S k) post) (fun H => H))
      as [(k' & Hk2 & He)|[_ He]]; cbn [app] in He; rewrite He; [|reflexivity].
    pose proof (rebalances_at_unique _ _ _ Hk' Hk2) as Heq.
    injection Heq as <-. rewrite firstn_firstn_le by lia. reflexivity.
  - split; [eauto|].
    destruct (clean_at_brace_cases [] post (fun H => H))
      as [(k' & Hk2 & He)|[_ He]]; cbn [app] in He; rewrite He; [|reflexivity].
    exfalso. apply (Hnever (S k')); [|apply Hk2].
    apply rebalances_at_in_range. assumption.
Qed.

End SanitizerTwice.

Lemma clean_message_content_idempotent_witness :
  (exists rest,
     @clean_message_content ascii_only_db Samples.two_backslash_input
     = x7b :: rest)
  /\ @clean_message_content ascii_only_db
       (@clean_message_content ascii_only_db Samples.two_backslash_input)
     = @clean_message_content ascii_only_db Samples.two_backslash_input.
Proof.
  apply (@clean_message_content_idempotent ascii_only_db).
  vm_compute. do 6 right. left. reflexivity.
Defined.

(** *** The XML strategy *)

Lemma rfind_at_absent (c : byte) (l : bytes) (i : Z) :
  ~ In c l -> rfind_at [c] l i = -1.
Proof.
  revert i. induction l as [|x l IH]; intros i Hnin; cbn [rfind_at startswith];
    [reflexivity|].
  rewrite IH by (intros H; apply Hnin; right; assumption). cbn [Z.eqb].
  assert (Hx : byte_eqb c x = false).
  { apply byte_eqb_neq. intros ->. apply Hnin. left. reflexivity. }
  rewrite Hx. reflexivity.
Qed.

(** [rfind] of a single byte returns the index of its last occurrence. *)
Lemma rfind_at_last (c : byte) (pre post : bytes) (i : Z) :
  0 <= i -> ~ In c post -> rfind_at [c] (pre ++ c :: post) i = i + len pre.
Proof.
  revert i. induction pre as [|x pre IH]; intros i Hi Hnin;
    cbn [app rfind_at startswith].
  - rewrite rfind_at_absent by assumption. cbn [Z.eqb].
    rewrite byte_eqb_refl, startswith_nil. cbn. lia.
  - rewrite IH by (assumption || lia).
    pose proof (len_nonneg pre).
    destruct (Z.eqb_spec (i + 1 + len pre) (-1)); [lia|].
    unfold len. cbn [length]. lia.
Qed.

Lemma slice_whole {A : Type} (l : list A) : slice l 0 (len l) = l.
Proof.
  unfold slice, len. cbn [Z.to_nat skipn]. rewrite Z.sub_0_r, Nat2Z.id.
  apply firstn_all.
Qed.

Lemma rfind_last (c : byte) (pre post : bytes) :
  ~ In c post ->
  rfind (pre ++ c :: post) [c] 0 (len (pre ++ c :: post)) = len pre.
Proof.
  intros Hnin. unfold rfind. pose proof (len_nonneg (pre ++ c :: post)).
  destruct (Z.gtb_spec 0 (len (pre ++ c :: post))); [lia|].
  rewrite slice_whole, rfind_at_last by (assumption || lia). lia.
Qed.

Lemma clean_json_without_brace (raw : bytes) :
  ~ In x7b raw -> clean_json raw = None.
Proof.
  intros Hnin. unfold clean_json. change (b_ "{") with [x7b].
  destruct (contains [x7b] raw) eqn:E; [|reflexivity].
  apply contains_In in E. contradiction.
Qed.

Section OtherStrategies.
Context {db : UnicodeDB}.

(** X13.  On an input without an opening brace in which an angle bracket
    [<] is followed, somewhere, by an angle bracket [>], the sanitizer
    returns through its XML strategy the bytes from the first [<] to the
    last [>], both included. *)
Theorem clean_message_content_xml (raw pre mid post : bytes) :
  ~ In x7b raw ->
  raw = pre ++ x3c :: mid ++ x3e :: post ->
  ~ In x3c pre -> ~ In x3e post ->
  clean_message_content_via raw = (XmlBranch, x3c :: mid ++ [x3e]).
Proof.
  intros Hbrace Hraw Hpre Hpost.
  unfold clean_message_content_via. rewrite clean_json_without_brace by assumption.
  unfold clean_xml. change (b_ "<") with [x3c]. change (b_ ">") with [x3e].
  assert (Hc : contains [x3c] raw = true).
  { apply contains_In. rewrite Hraw. apply in_or_app. right. left. reflexivity. }
  rewrite Hc.
  assert (Hstart : find raw [x3c] 0 = len pre).
  { rewrite Hraw. apply find_first. assumption. }
  assert (Hend : rfind raw [x3e] 0 (len raw) = len (pre ++ x3c :: mid)).
  { rewrite Hraw.
    replace (pre ++ x3c :: mid ++ x3e :: post)
      with ((pre ++ x3c :: mid) ++ x3e :: post)
      by (rewrite <- app_assoc; reflexivity).
    apply rfind_last. assumption. }
  rewrite Hstart, Hend.
  assert (Hlen : len (pre ++ x3c :: mid) = len pre + Z.of_nat (S (length mid))).
  { rewrite len_app. reflexivity. }
  destruct (Z.gtb_spec (len (pre ++ x3c :: mid)) (len pre)); [|lia].
  f_equal. rewrite Hlen, Hraw.
  replace (len pre + Z.of_nat (S (length mid)) + 1)
    with (len pre + Z.of_nat (length (x3c :: mid ++ [x3e])))
    by (cbn [length]; rewrite length_app; cbn [length]; lia).
  rewrite slice_app.
  replace (x3c :: mid ++ x3e :: post) with ((x3c :: mid ++ [x3e]) ++ post)
    by (cbn [app]; rewrite <- app_assoc; reflexivity).
  rewrite firstn_app, Nat.sub_diag, firstn_all. cbn [firstn]. apply app_nil_r.
Qed.

End OtherStrategies.

Lemma clean_message_content_xml_witness :
  @clean_message_content_via ascii_only_db (b_ "..<a>text</a>..")
  = (XmlBranch, x3c :: b_ "a>text</a" ++ [x3e]).
Proof.
  apply (@clean_message_content_xml ascii_only_db (b_ "..<a>text</a>..")
           (b_ "..") (b_ "a>text</a") (b_ "..")).
  - cbv. intuition discriminate.
  - reflexivity.
  - cbv. intuition discriminate.
  - cbv. intuition discriminate.
Defined.

(** *** The plain-text strategy *)

Lemma rstrip_with_last {A : Type} (q : A -> bool) (l : list A) (x : A) :
  q x = false -> rstrip_with q (l ++ [x]) = l ++ [x].
Proof.
  intros Hx. unfold rstrip_with. induction l as [|y l IH]; cbn [app fold_right].
  - rewrite Hx. reflexivity.
  - rewrite IH. destruct (l ++ [x]) eqn:E; [|reflexivity].
    destruct l; discriminate E.
Qed.

(** What is left after stripping ends with an element that is not
    stripped. *)
Lemma rstrip_with_shape {A : Type} (q : A -> bool) (l : list A) :
  rstrip_with q l = []
  \/ exists l0 x, rstrip_with q l = l0 ++ [x] /\ q x = false.
Proof.
  unfold rstrip_with. induction l as [|y l IH]; cbn [fold_right]; [left; reflexivity|].
  destruct IH as [->|(l0 & x & -> & Hx)].
  - destruct (q y) eqn:Hy; [left; reflexivity|].
    right. exists [], y. split; [reflexivity|assumption].
  - right. exists (y :: l0), x. split; [|assumption].
    cbn [app]. destruct (l0 ++ [x]) eqn:E; [destruct l0; discriminate E|reflexivity].
Qed.

Lemma byte_of_byte_val (b : byte) : byte_of (byte_val b) = b.
Proof.
  unfold byte_of, byte_val. rewrite N2Z.id, Byte.of_to_N. reflexivity.
Qed.

(** ASCII bytes decode to their own values, under every error mode, and
    encode back. *)
Lemma utf8_next_ascii (b : byte) (l : bytes) :
  byte_val b < 128 -> utf8_next (b :: l) = U8Char (byte_val b) 1.
Proof.
  intros H. unfold utf8_next. cbn [map].
  destruct (Z.ltb_spec (byte_val b) 128); [reflexivity|lia].
Qed.

Lemma decode_loop_ascii (mode : errors_mode) (l : bytes) :
  Forall (fun b => byte_val b < 128) l ->
  decode_loop (length l) mode l = Some (map byte_val l).
Proof.
  induction 1 as [|b l Hb _ IH]; [reflexivity|].
  cbn [length decode_loop]. rewrite utf8_next_ascii by assumption.
  cbn [skipn map]. rewrite IH. reflexivity.
Qed.

Lemma utf8_encode_ascii (l : bytes) :
  Forall (fun b => byte_val b < 128) l ->
  utf8_encode (map byte_val l) = Some l.
Proof.
  induction 1 as [|b l Hb _ IH]; [reflexivity|].
  cbn [map utf8_encode]. rewrite IH. unfold encode_char.
  pose proof (byte_val_range b).
  destruct (Z.ltb_spec (byte_val b) 0); [lia|].
  destruct (Z.ltb_spec (byte_val b) 128); [|lia].
  rewrite byte_of_byte_val. reflexivity.
Qed.

Lemma clean_xml_without_bracket (raw : bytes) :
  ~ In x3c raw -> clean_xml raw = None.
Proof.
  intros Hnin. unfold clean_xml. change (b_ "<") with [x3c].
  destruct (contains [x3c] raw) eqn:E; [|reflexivity].
  apply contains_In in E. contradiction.
Qed.

Lemma text_byte_ascii (b : byte) : text_byte b = true -> byte_val b < 128.
Proof.
  unfold text_byte. intros H. apply orb_prop in H.
  destruct H as [H|H]; apply andb_prop in H; destruct H as [_ H];
    apply Z.leb_le in H; lia.
Qed.

Lemma existsb_last {A : Type} (p : A -> bool) (l : list A) (x : A) :
  p x = true -> existsb p (l ++ [x]) = true.
Proof.
  intros Hx. apply existsb_exists. exists x. split; [|assumption].
  apply in_or_app. right. left. reflexivity.
Qed.

Section PlainText.
Context {db : UnicodeDB}.

(** X14.  Plain ASCII text passes the sanitizer unchanged but for the
    whitespace around it: an input of printable ASCII bytes and ASCII
    whitespace, without an opening brace and without [<], whose last 20
    bytes after stripping do not hold the two letters [jt], comes back
    through the plain-text strategy as the input stripped of its leading
    and trailing whitespace. *)
Theorem clean_message_content_plain_ascii (raw : bytes) :
  Forall (fun b => text_byte b = true) raw ->
  ~ In x7b raw -> ~ In x3c raw ->
  contains (b_ "jt") (slice_last (bytes_strip raw) 20) = false ->
  clean_message_content_via raw = (PlainTextBranch, bytes_strip raw).
Proof.
  intros Htext Hbrace Hangle Hjt.
  unfold clean_message_content_via.
  rewrite clean_json_without_brace, clean_xml_without_bracket by assumption.
  f_equal. unfold clean_plain_text. rewrite Hjt.
  assert (Hstripped : Forall (fun b => text_byte b = true) (bytes_strip raw)).
  { rewrite Forall_forall in *. intros b Hb. apply Htext.
    apply (strip_with_incl bytes_isspace). exact Hb. }
  assert (Hascii : Forall (fun b => byte_val b < 128) (bytes_strip raw)).
  { rewrite Forall_forall in *. intros b Hb. apply text_byte_ascii.
    apply Hstripped. assumption. }
  unfold utf8_decode. rewrite decode_loop_ascii by assumption.
  set (keep := fun c : Z => isprintable c || (c =? 10) || (c =? 13) || (c =? 9)).
  assert (Hend : (if existsb keep (map byte_val (bytes_strip raw))
                  then printable_end_of keep (map byte_val (bytes_strip raw))
                  else len (map byte_val (bytes_strip raw)))
                 = len (map byte_val (bytes_strip raw))).
  { destruct (rstrip_with_shape bytes_isspace (lstrip_with bytes_isspace raw))
      as [Hnil|(l0 & x & Hshape & Hx)];
      fold (strip_with bytes_isspace raw) in *; fold (bytes_strip raw) in *.
    - rewrite Hnil. reflexivity.
    - assert (Hkeep : keep (byte_val x) = true).
      { assert (Hxt : text_byte x = true).
        { rewrite Forall_forall in Hstripped. apply Hstripped.
          rewrite Hshape. apply in_or_app. right. left. reflexivity. }
        pose proof (text_byte_ascii _ Hxt) as Hlt.
        unfold keep, isprintable. unfold text_byte in Hxt.
        unfold bytes_isspace in Hx. cbv zeta in Hx.
        destruct (Z.ltb_spec (byte_val x) 128); [|lia].
        destruct (Z.leb_spec 32 (byte_val x)), (Z.leb_spec (byte_val x) 126),
          (Z.leb_spec 9 (byte_val x)), (Z.leb_spec (byte_val x) 13),
          (Z.eqb_spec (byte_val x) 32);
          cbn in Hxt, Hx |- *; try reflexivity; try discriminate; lia. }
      rewrite Hshape, map_app. cbn [map].
      rewrite existsb_last by assumption.
      unfold printable_end_of. rewrite rstrip_with_last; [reflexivity|].
      rewrite Hkeep. reflexivity. }
  rewrite Hend. unfold slice_to, len. rewrite Nat2Z.id, firstn_all.
  rewrite utf8_encode_ascii by assumption. reflexivity.
Qed.

End PlainText.

Lemma clean_message_content_plain_ascii_witness :
  @clean_message_content_via ascii_only_db (b_ "  hello, world  ")
  = (PlainTextBranch, bytes_strip (b_ "  hello, world  ")).
Proof.
  apply (@clean_message_content_plain_ascii ascii_only_db).
  - apply Forall_forall. apply forallb_forall. vm_compute. reflexivity.
  - cbv. intuition discriminate.
  - cbv. intuition discriminate.
  - vm_compute. reflexivity.
Defined.

(** *** The payload and its frame *)

Lemma getitem_slice {A : Type} (l : list A) (i : Z) (x : A) :
  getitem l i = Some x -> slice l i (i + 1) = [x].
Proof.
  unfold getitem, slice. destruct (Z.ltb_spec i 0); [discriminate|].
  intros Hnth. apply nth_error_split in Hnth.
  destruct Hnth as (l1 & l2 & -> & Hlen).
  replace (Z.to_nat (i + 1 - i)) with 1%nat by lia.
  rewrite <- Hlen, skipn_app, skipn_all, Nat.sub_diag. reflexivity.
Qed.

(** A body that passes the printable check has more than 10 bytes. *)
Lemma qualifies_len (body : bytes) : qualifies body = true -> 10 < len body.
Proof.
  unfold qualifies, len. intros H. apply Z.ltb_lt in H.
  pose proof (filter_length_le
                (fun b => (32 <=? byte_val b) && (byte_val b <=? 126))
                (firstn 100 body)) as Hf.
  rewrite length_firstn in Hf. lia.
Qed.

(** A candidate lies in the data behind its tag and its four length
    bytes. *)
Lemma candidate_frame (data : bytes) (pos : Z) :
  0 <= pos -> is_candidate data pos = true ->
  data = slice data 0 pos ++ x6d :: slice data (pos + 1) (pos + 5)
         ++ candidate_body data pos
         ++ slice data (pos + 5 + binary_length data pos) (len data).
Proof.
  intros Hpos Hc. destruct (is_candidate_bounds _ _ Hc) as (H1 & H2 & H3).
  assert (Htag : slice data pos (pos + 1) = [x6d]).
  { unfold is_candidate in Hc.
    destruct (getitem data pos) as [tag|] eqn:Hget; [|discriminate Hc].
    rewrite (getitem_slice _ _ _ Hget). f_equal. apply byte_val_inj.
    repeat (apply andb_prop in Hc; destruct Hc as [Hc _]).
    apply Z.eqb_eq in Hc. rewrite Hc. reflexivity. }
  rewrite <- (slice_whole data) at 1.
  rewrite (slice_split data 0 pos (len data)) by lia.
  rewrite (slice_split data pos (pos + 1) (len data)) by lia.
  rewrite (slice_split data (pos + 1) (pos + 5) (len data)) by lia.
  rewrite (slice_split data (pos + 5) (pos + 5 + binary_length data pos)
             (len data)) by lia.
  rewrite Htag. reflexivity.
Qed.

(** X15.  The payload that the extractor returns is either empty or a
    piece of the entry body that stands there behind the tag byte [0x6d]
    and a four-byte big-endian length equal to its own length; it then has
    between 11 bytes and 1 MiB and passes the printable check. *)
Theorem extract_payload_framed (data : bytes) :
  exists r,
    extract_payload_from_erlang data = Ok r
    /\ (r = []
        \/ exists pre hdr post,
             data = pre ++ x6d :: hdr ++ r ++ post
             /\ len hdr = 4
             /\ int_from_bytes_big hdr = len r
             /\ 10 < len r <= 1024 * 1024
             /\ qualifies r = true).
Proof.
  exists (largest_of (met_candidates data)).
  split; [apply extract_payload_largest_of|].
  unfold largest_of.
  destruct (fold_keep_larger (met_candidates data) [])
    as [[Hr _]|(before & after & Hsplit & _)]; [left; exact Hr|].
  right. set (r := fold_left keep_larger (met_candidates data) []) in *.
  assert (Hin : In r (met_candidates data)).
  { rewrite Hsplit. apply in_or_app. right. left. reflexivity. }
  unfold met_candidates in Hin. apply in_map_iff in Hin.
  destruct Hin as (p & Hbody & Hp). apply filter_In in Hp.
  destruct Hp as [Hmet Hq]. unfold qualifying_candidate in Hq.
  destruct (is_candidate data p) eqn:Hc; [|discriminate Hq].
  assert (Hpos : 0 <= p).
  { pose proof (met_from_nonneg data (S (length data)) 0 ltac:(lia)) as Hall.
    rewrite Forall_forall in Hall. apply Hall. exact Hmet. }
  destruct (is_candidate_bounds _ _ Hc) as (H1 & H2 & H3).
  pose proof (candidate_body_len data p Hpos Hc) as Hlen.
  pose proof (candidate_frame data p Hpos Hc) as Hframe.
  rewrite Hbody in Hq, Hlen, Hframe.
  exists (slice data 0 p), (slice data (p + 1) (p + 5)),
         (slice data (p + 5 + binary_length data p) (len data)).
  split; [exact Hframe|]. split; [rewrite len_slice; lia|].
  split; [rewrite Hlen; reflexivity|].
  split; [|exact Hq]. pose proof (qualifies_len r Hq). lia.
Qed.

(** *** The order of files with equal numbers *)

(** Insertion keeps the order of the elements with any one key. *)
Lemma insert_keyed_filter (n : Z) (x : Z * str) (l : list (Z * str)) :
  filter (fun kf => fst kf =? n) (insert_keyed x l)
  = filter (fun kf => fst kf =? n) (x :: l).
Proof.
  induction l as [|y l IH]; [reflexivity|].
  cbn [insert_keyed]. destruct (Z.leb_spec (fst x) (fst y)) as [Hle|Hgt];
    [reflexivity|].
  cbn [filter] in IH |- *. rewrite IH.
  destruct (Z.eqb_spec (fst x) n), (Z.eqb_spec (fst y) n); try reflexivity.
  lia.
Qed.

Lemma sort_keyed_filter (n : Z) (l : list (Z * str)) :
  filter (fun kf => fst kf =? n) (sort_keyed l)
  = filter (fun kf => fst kf =? n) l.
Proof.
  unfold sort_keyed. induction l as [|x l IH]; [reflexivity|].
  cbn [fold_right]. rewrite insert_keyed_filter. cbn [filter].
  rewrite IH. reflexivity.
Qed.

Section CatalogOrder.
Context {db : UnicodeDB}.

(** The keyed list that a successful key computation returns. *)
Lemma with_keys_inv (l : list str) : forall keyed,
  with_keys l = Ok keyed ->
  map snd keyed = l
  /\ Forall (fun kf => sequence_number (snd kf) = Ok (fst kf)) keyed.
Proof.
  induction l as [|f l IH]; intros keyed Hk; cbn [with_keys] in Hk.
  - injection Hk as <-. split; constructor.
  - destruct (sequence_number f) as [k| |] eqn:Hf; cbn [bind] in Hk;
      try discriminate Hk.
    destruct (with_keys l) as [r| |]; cbn [bind] in Hk; try discriminate Hk.
    injection Hk as <-. destruct (IH r eq_refl) as [Hsnd Hall].
    cbn [map snd]. rewrite Hsnd. split; [reflexivity|].
    constructor; assumption.
Qed.

Lemma numbered_filter (n : Z) (keyed : list (Z * str)) :
  Forall (fun kf => sequence_number (snd kf) = Ok (fst kf)) keyed ->
  filter (numbered n) (map snd keyed)
  = map snd (filter (fun kf => fst kf =? n) keyed).
Proof.
  induction 1 as [|kf keyed Hkf _ IH]; [reflexivity|].
  cbn [map filter]. rewrite IH. unfold numbered at 1. rewrite Hkf.
  destruct (fst kf =? n); reflexivity.
Qed.

(** X16.  The sort of the catalog is stable: the files of one and the same
    integer value (as [1.qs] and [01.qs]) stand in the catalog in the
    order in which the directory listing gave them. *)
Theorem scan_files_stable (directory : str) (listing qs_files : list str)
  (n : Z) :
  scan_files directory listing = Ok qs_files ->
  filter (numbered n) qs_files
  = filter (numbered n) (segment_paths directory listing).
Proof.
  unfold scan_files. fold (segment_paths directory listing). intros Hscan.
  destruct (with_keys (segment_paths directory listing)) as [keyed| |] eqn:Hk;
    cbn [bind] in Hscan; try discriminate Hscan.
  injection Hscan as <-.
  destruct (with_keys_inv _ _ Hk) as [Hsnd Hall].
  rewrite numbered_filter.
  - rewrite sort_keyed_filter, <- numbered_filter by assumption.
    rewrite Hsnd. reflexivity.
  - rewrite Forall_forall in *. intros kf Hin. apply Hall.
    apply (Permutation_in _ (sort_keyed_perm keyed)). exact Hin.
Qed.

End CatalogOrder.

Lemma scan_files_stable_witness :
  filter (@numbered ascii_only_db 1)
         [s_ "d/0.qs"; s_ "d/01.qs"; s_ "d/1.qs"; s_ "d/2.qs"]
  = filter (@numbered ascii_only_db 1)
           (segment_paths (s_ "d") [s_ "2.qs"; s_ "01.qs"; s_ "1.qs"; s_ "0.qs"]).
Proof.
  apply (@scan_files_stable ascii_only_db (s_ "d")
           [s_ "2.qs"; s_ "01.qs"; s_ "1.qs"; s_ "0.qs"]).
  vm_compute. reflexivity.
Defined.

(** *** Round trips of the entry decoder *)

Lemma slice_middle {A : Type} (pre mid post : list A) (lo hi : Z) :
  lo = len pre -> hi = len pre + len mid ->
  slice (pre ++ mid ++ post) lo hi = mid.
Proof.
  intros -> ->. unfold slice, len.
  replace (Z.to_nat (Z.of_nat (length pre) + Z.of_nat (length mid)
                     - Z.of_nat (length pre))) with (length mid) by lia.
  rewrite Nat2Z.id, skipn_app, skipn_all, Nat.sub_diag. cbn [skipn app].
  rewrite firstn_app, Nat.sub_diag, firstn_all. cbn [firstn]. apply app_nil_r.
Qed.

(** A binary term alone, with at most five bytes behind it: the scan
    meets it at position 0 and nothing else. *)
Lemma met_positions_single (hdr payload post : bytes) :
  len hdr = 4 -> int_from_bytes_big hdr = len payload ->
  10 <= len payload <= 1024 * 1024 -> len post <= 5 ->
  let data := x6d :: hdr ++ payload ++ post in
  met_positions data = [0]
  /\ is_candidate data 0 = true
  /\ candidate_body data 0 = payload.
Proof.
  intros Hhdr Hlen Hsize Hpost data.
  assert (Hdata : len data = 5 + len payload + len post).
  { unfold data. change (x6d :: hdr ++ payload ++ post)
      with ([x6d] ++ hdr ++ payload ++ post).
    rewrite !len_app. change (len [x6d]) with 1. lia. }
  assert (Hbin : binary_length data 0 = len payload).
  { unfold binary_length, data. rewrite <- Hlen. f_equal.
    apply (slice_middle [x6d] hdr (payload ++ post)); [reflexivity|].
    change (len [x6d]) with 1. lia. }
  assert (Hcand : is_candidate data 0 = true).
  { unfold is_candidate. rewrite Hbin, Hdata.
    change (getitem data 0) with (Some x6d).
    pose proof (len_nonneg post).
    change (byte_val x6d =? 109) with true. cbn [andb].
    destruct (Z.leb_spec 10 (len payload)); [|lia].
    destruct (Z.leb_spec (len payload) (1024 * 1024)); [|lia].
    destruct (Z.leb_spec (0 + 5 + len payload) (5 + len payload + len post));
      [reflexivity|lia]. }
  assert (Hbody : candidate_body data 0 = payload).
  { unfold candidate_body. rewrite Hbin. unfold data.
    assert (H5 : len (x6d :: hdr) = 5).
    { change (x6d :: hdr) with ([x6d] ++ hdr). rewrite len_app.
      change (len [x6d]) with 1. lia. }
    apply (slice_middle (x6d :: hdr) payload post); lia. }
  split; [|split; assumption].
  unfold met_positions. cbn [met_from].
  pose proof (len_nonneg post).
  destruct (Z.ltb_spec 0 (len data - 5)); [|lia].
  f_equal. unfold next_position. rewrite Hcand, Hbin.
  destruct (length data) as [|fuel] eqn:Hfuel; [reflexivity|].
  cbn [met_from].
  destruct (Z.ltb_spec (0 + 5 + len payload) (len data - 5)); [lia|reflexivity].
Qed.

(** The extractor on a binary term alone. *)
Lemma extract_payload_single (hdr payload post : bytes) :
  len hdr = 4 -> int_from_bytes_big hdr = len payload ->
  10 <= len payload <= 1024 * 1024 -> len post <= 5 ->
  extract_payload_from_erlang (x6d :: hdr ++ payload ++ post)
  = Ok (if qualifies payload then payload else []).
Proof.
  intros Hhdr Hlen Hsize Hpost.
  destruct (met_positions_single hdr payload post Hhdr Hlen Hsize Hpost)
    as (Hmet & Hcand & Hbody).
  rewrite extract_payload_largest_of. unfold met_candidates, largest_of.
  rewrite Hmet. cbn [filter]. unfold qualifying_candidate.
  rewrite Hcand, Hbody. destruct (qualifies payload); [|reflexivity].
  cbn [map fold_left]. rewrite Hbody. unfold keep_larger.
  change (len (@nil byte)) with 0.
  destruct (Z.gtb_spec (len payload) 0); [reflexivity|lia].
Qed.

(** X17.  The extractor undoes the framing of a binary term: from the tag
    byte [0x6d], a four-byte big-endian length and a payload of that
    length (between 10 bytes and 1 MiB) that passes the printable check,
    with at most five bytes behind it, it returns the payload; when the
    payload fails the printable check it returns the empty byte string. *)
Theorem extract_payload_round_trip (hdr payload post : bytes) :
  len hdr = 4 -> int_from_bytes_big hdr = len payload ->
  10 <= len payload <= 1024 * 1024 -> len post <= 5 ->
  (qualifies payload = true ->
   extract_payload_from_erlang (x6d :: hdr ++ payload ++ post) = Ok payload)
  /\ (qualifies payload = false ->
      extract_payload_from_erlang (x6d :: hdr ++ payload ++ post) = Ok []).
Proof.
  intros Hhdr Hlen Hsize Hpost.
  split; intros Hq; rewrite extract_payload_single by assumption;
    rewrite Hq; reflexivity.
Qed.

Lemma extract_payload_round_trip_witness :
  extract_payload_from_erlang
    (x6d :: [x00; x00; x00; x28] ++ Samples.binary_40 ++ [x6a; x74])
  = Ok Samples.binary_40.
Proof.
  apply (extract_payload_round_trip [x00; x00; x00; x28] Samples.binary_40
           [x6a; x74]).
  - reflexivity.
  - reflexivity.
  - vm_compute. split; intros Heq; discriminate Heq.
  - vm_compute. intros Heq; discriminate Heq.
  - vm_compute. reflexivity.
Defined.

(** What is left of a list that begins with an element that is not
    stripped begins with that element. *)
Lemma strip_with_head {A : Type} (q : A -> bool) (x : A) (l : list A) :
  q x = false -> exists l', strip_with q (x :: l) = x :: l'.
Proof.
  intros Hx. unfold strip_with. cbn [lstrip_with]. rewrite Hx.
  unfold rstrip_with. cbn [fold_right].
  destruct (fold_right _ [] l) as [|y acc]; [rewrite Hx|]; eauto.
Qed.

Lemma ascii_text_ascii (c : Z) : ascii_text c = true -> c < 128.
Proof.
  unfold ascii_text. intros H.
  destruct (Z.leb_spec c 126); [lia|]. rewrite andb_false_r in H.
  destruct (Z.eqb_spec c 10); [lia|]. destruct (Z.eqb_spec c 13); [lia|].
  destruct (Z.eqb_spec c 9); [lia|discriminate H].
Qed.

Section EntryRoundTrip.
Context {db : UnicodeDB} {br : Broker}.

(** One object comes back from the sanitizer as it stands. *)
Lemma clean_json_object (message : bytes) :
  json_object message -> clean_message_content message = message.
Proof.
  intros (rest & -> & Hk).
  destruct (clean_at_brace_cases [] rest ltac:(intros []))
    as [(k & Hk' & Hclean)|[Hnever Hclean]]; cbn [app] in Hclean.
  - rewrite Hclean.
    pose proof (rebalances_at_unique _ _ _ Hk Hk') as Heq.
    rewrite <- Heq, firstn_all. reflexivity.
  - exact Hclean.
Qed.

(** The body of such a message is accepted by the validator and begins,
    after stripping, with the opening brace. *)
Lemma json_message_body (message : bytes) :
  json_message message ->
  utf8_decode Strict message = Some (map byte_val message)
  /\ is_valid_content (map byte_val message) = true
  /\ str_startswith (str_strip (map byte_val message)) (s_ "{") = true.
Proof.
  intros ((rest & -> & _) & Htext & Hq & _).
  pose proof (qualifies_len _ Hq) as Hlen.
  split; [|split].
  - unfold utf8_decode. apply decode_loop_ascii.
    rewrite Forall_forall in *. intros b Hb. apply ascii_text_ascii.
    apply Htext. exact Hb.
  - apply is_valid_content_text.
    + unfold len in *. rewrite length_map. lia.
    + intros c Hc. apply in_map_iff in Hc. destruct Hc as (b & <- & Hb).
      rewrite Forall_forall in Htext. apply Htext. exact Hb.
    + exists 123. split; [left; reflexivity|reflexivity].
  - cbn [map]. change (byte_val x7b) with 123. unfold str_strip.
    destruct (strip_with_head isspace 123 (map byte_val rest) eq_refl)
      as [l' ->].
    destruct l'; reflexivity.
Qed.

(** One entry that holds such a message. *)
Lemma handle_entry_json (cfg : config) (hdr message : bytes) (n : Z)
  (out : sink) :
  len hdr = 4 -> int_from_bytes_big hdr = len message ->
  json_message message ->
  handle_entry cfg (x83 :: x6d :: hdr ++ message) n out
  = if dry_run cfg then (Ok (n + 1, message_limit_reached cfg (n + 1)), out)
    else if accepts out (verbatim_publication cfg message)
         then (Ok (n + 1, message_limit_reached cfg (n + 1)),
               out ++ [verbatim_publication cfg message])
         else (Raise AMQPError, out).
Proof.
  intros Hhdr Hlen Hmsg.
  destruct (json_message_body message Hmsg) as (Hdec & Hvalid & Hbrace).
  destruct Hmsg as (Hobj & Htext & Hq & Hmax).
  pose proof (qualifies_len _ Hq) as Hmin.
  unfold handle_entry. change (byte_val x83 =? 131) with true. cbv iota.
  rewrite <- (app_nil_r message) at 1.
  rewrite (extract_payload_single hdr message [])
    by (try assumption; try (change (len (@nil byte)) with 0); lia).
  rewrite Hq.
  assert (Hne : match message with [] => false | _ :: _ => true end = true).
  { destruct message; [cbn in Hmin; lia|reflexivity]. }
  rewrite Hne. destruct (Z.gtb_spec (len message) 10); [|lia]. cbn [andb].
  rewrite clean_json_object by assumption.
  rewrite Hdec, Hvalid, Hbrace. cbv zeta.
  destruct (dry_run cfg); [reflexivity|].
  unfold basic_publish, verbatim_publication.
  destruct (accepts out _); reflexivity.
Qed.


End EntryRoundTrip.



(** *** A segment of well-formed entries *)

(** The iteration of the entry loop at the header of a well-formed
    entry slices the body of the entry and moves past it. *)
Lemma entry_step_frame (pre hdr body post : bytes) :
  entry_frame (hdr, body) ->
  snd (entry_step (pre ++ hdr ++ body ++ post) (len pre))
  = Entry body (len pre + 8 + len body).
Proof.
  intros (Hhdr & Hsize & Hbody). cbn [fst snd] in *.
  set (file_data := pre ++ hdr ++ body ++ post).
  assert (Hlen : len file_data = len pre + 8 + len body + len post).
  { unfold file_data. rewrite !len_app. lia. }
  pose proof (len_nonneg pre). pose proof (len_nonneg post).
  assert (Hsz : int_from_bytes_big (slice file_data (len pre) (len pre + 4))
                = len body).
  { rewrite <- Hsize. f_equal. unfold file_data.
    replace (len pre + 4) with (len pre + Z.of_nat 4) by lia.
    rewrite slice_app. unfold slice. cbn [Z.to_nat skipn Z.sub].
    rewrite firstn_app.
    replace (4 - length hdr)%nat with 0%nat by (unfold len in Hhdr; lia).
    cbn [firstn]. rewrite app_nil_r. reflexivity. }
  assert (Hslice : slice file_data (len pre + 8) (len pre + 8 + len body) = body).
  { unfold file_data. rewrite app_assoc.
    apply slice_middle; rewrite len_app; lia. }
  unfold entry_step. rewrite Hsz, Hslice.
  destruct (Z.ltb_spec (len pre) (len file_data)); [|lia]. cbn [negb].
  destruct (Z.gtb_spec (len pre + 8) (len file_data)); [lia|].
  destruct (getitem_in_range file_data (len pre + 4)) as [flags ->]; [lia|].
  destruct (Z.eqb_spec (len body) 0); [lia|].
  destruct (Z.gtb_spec (len body) MAX_ENTRY_SIZE);
    [unfold MAX_ENTRY_SIZE in *; lia|].
  cbn [orb].
  destruct (Z.gtb_spec (len pre + 8 + len body) (len file_data)); [lia|].
  reflexivity.
Qed.

Section SegmentOfEntries.
Context {db : UnicodeDB} {br : Broker}.

(** With fewer than eight bytes left the loop ends. *)
Lemma entries_loop_tail (cfg : config) (pre tail : bytes) (fuel : nat)
  (n : Z) (out : sink) :
  len tail < 8 ->
  entries_loop (S fuel) cfg (pre ++ tail) (len pre) n out = (Ok n, out).
Proof.
  intros Htail. cbn [entries_loop]. unfold entry_step. rewrite len_app.
  destruct (Z.ltb_spec (len pre) (len pre + len tail)); cbn [negb snd];
    [|reflexivity].
  destruct (Z.gtb_spec (len pre + 8) (len pre + len tail)); [reflexivity|lia].
Qed.

(** Without a message limit, what handling one entry adds to the count
    and to the sink does not depend on the count and the sink before,
    unless the call of [basic_publish] raises. *)
Lemma handle_entry_adds (cfg : config) (msg_data : bytes) (n : Z)
  (out : sink) :
  message_limit cfg <= 0 ->
  (exists k,
     0 <= k <= 1
     /\ handle_entry cfg msg_data n out
        = (Ok (n + k, false), out ++ entry_publications cfg msg_data))
  \/ (handle_entry cfg msg_data n out = (Raise AMQPError, out)
      /\ dry_run cfg = false /\ exists p, accepts out p = false).
Proof.
  intros Hm. unfold entry_publications, handle_entry.
  assert (Hlim : forall c, message_limit_reached cfg c = false).
  { intros c. unfold message_limit_reached.
    destruct (Z.gtb_spec (message_limit cfg) 0); [lia|reflexivity]. }
  rewrite extract_payload_largest_of.
  destruct (_ && _);
    [|left; exists 0; rewrite Z.add_0_r, app_nil_r; split; [lia|reflexivity]].
  destruct (utf8_decode Strict _) as [content_str|];
    [|left; exists 0; rewrite Z.add_0_r, app_nil_r; split; [lia|reflexivity]].
  destruct (is_valid_content content_str);
    [|left; exists 0; rewrite Z.add_0_r, app_nil_r; split; [lia|reflexivity]].
  cbv zeta. rewrite !Hlim.
  destruct (dry_run cfg).
  - left. exists 1. split; [lia|]. cbn [snd]. rewrite app_nil_r. reflexivity.
  - unfold basic_publish. cbn [accepts accepting_broker].
    destruct (accepts out _) eqn:Hacc.
    + left. exists 1. split; [lia|]. reflexivity.
    + right. split; [reflexivity|]. split; [reflexivity|].
      eexists. exact Hacc.
Qed.

(** The entry loop over well-formed entries handles each of them, in
    their order, up to the first call of [basic_publish] that raises, if
    there is one. *)
Lemma entries_loop_frames (cfg : config) (entries : list (bytes * bytes)) :
  forall (pre tail : bytes) (fuel : nat) (n : Z) (out : sink),
    Forall entry_frame entries -> len tail < 8 ->
    message_limit cfg <= 0 ->
    (length (frames entries ++ tail) < fuel)%nat ->
    exists r k,
      (k <= length entries)%nat
      /\ entries_loop fuel cfg (pre ++ frames entries ++ tail) (len pre) n out
         = (r,
            out ++ flat_map (fun e => entry_publications cfg (snd e))
                     (firstn k entries))
      /\ ((k = length entries
           /\ exists n', r = Ok n' /\ n <= n' <= n + len entries)
          \/ ((k < length entries)%nat /\ r = Raise AMQPError
              /\ dry_run cfg = false /\ ~ reliable br)).
Proof.
  induction entries as [|[hdr body] entries IH];
    intros pre tail fuel n out Hall Htail Hm Hfuel.
  - destruct fuel as [|fuel]; [lia|]. exists (Ok n), 0%nat.
    change (len (@nil (bytes * bytes))) with 0. split; [cbn [length]; lia|].
    cbn [frames map concat app flat_map firstn]. rewrite app_nil_r.
    split; [apply entries_loop_tail; assumption|].
    left. split; [reflexivity|]. exists n. split; [reflexivity|lia].
  - destruct fuel as [|fuel]; [lia|].
    inversion Hall as [|e es Hframe Hrest]; subst e es.
    change (frames ((hdr, body) :: entries))
      with ((hdr ++ body) ++ frames entries) in *.
    cbn [entries_loop].
    replace (pre ++ ((hdr ++ body) ++ frames entries) ++ tail)
      with (pre ++ hdr ++ body ++ (frames entries ++ tail))
      by (rewrite <- !app_assoc; reflexivity).
    rewrite entry_step_frame by assumption.
    destruct (handle_entry_adds cfg body n out Hm)
      as [(k & Hk & ->)|(-> & Hwet & p & Hp)].
    + destruct Hframe as (Hhdr & _ & Hbody). cbn [fst snd] in Hhdr, Hbody.
      replace (len pre + 8 + len body) with (len (pre ++ hdr ++ body))
        by (rewrite !len_app; lia).
      replace (pre ++ hdr ++ body ++ frames entries ++ tail)
        with ((pre ++ hdr ++ body) ++ frames entries ++ tail)
        by (rewrite <- !app_assoc; reflexivity).
      destruct (IH (pre ++ hdr ++ body) tail fuel (n + k)
                  (out ++ entry_publications cfg body) Hrest Htail Hm)
        as (r & j & Hj & -> & Hcases).
      { rewrite !length_app in Hfuel. rewrite length_app.
        unfold len in Hhdr. lia. }
      exists r, (S j). split; [cbn [length]; lia|].
      split; [cbn [firstn flat_map snd]; rewrite app_assoc; reflexivity|].
      destruct Hcases as [(-> & n' & -> & Hn')|(Hlt & -> & Hd & Hno)].
      * left. split; [reflexivity|]. exists n'. split; [reflexivity|].
        unfold len in *. cbn [length]. lia.
      * right. split; [cbn [length]; lia|]. repeat split; assumption.
    + exists (Raise AMQPError), 0%nat. split; [cbn [length]; lia|].
      cbn [firstn flat_map]. rewrite app_nil_r. split; [reflexivity|].
      right. split; [cbn [length]; lia|]. split; [reflexivity|].
      split; [assumption|]. intros Hrel. rewrite (Hrel out p) in Hp.
      discriminate Hp.
Qed.

(** X19.  Without a message limit, the entry decoder handles every entry
    of a well-formed segment once and in order: when the file is 64
    header bytes, then entries of eight header bytes (the first four the
    big-endian length of the body) and a body of 1 byte to 10 MiB each,
    then fewer than eight bytes, the sink grows by what the decoder
    publishes for the first body, then for the second, and so on, and the
    count is at most the number of entries.  This is so for all the
    entries in a dry run and when every call of [basic_publish] returns;
    when one raises, the sink has grown in this way by the entries before
    that one, and the count reported is 0. *)
Theorem entry_file_entries_in_order (cfg : config) (fs : filesystem)
  (file_path : str) (header tail : bytes) (entries : list (bytes * bytes))
  (out : sink) :
  fs file_path = Some (header ++ frames entries ++ tail) ->
  len header = 64 -> len tail < 8 ->
  Forall entry_frame entries ->
  message_limit cfg <= 0 ->
  exists n k,
    0 <= n <= len entries
    /\ extract_messages_from_erlang_entries cfg fs file_path out
       = (Ok n,
          out ++ flat_map (fun e => entry_publications cfg (snd e))
                   (firstn k entries))
    /\ (k = length entries
        \/ ((k < length entries)%nat /\ n = 0
            /\ dry_run cfg = false /\ ~ reliable br)).
Proof.
  intros Hfile Hheader Htail Hall Hm.
  unfold extract_messages_from_erlang_entries. rewrite Hfile.
  destruct (entries_loop_frames cfg entries header tail
              (S (length (header ++ frames entries ++ tail))) 0 out
              Hall Htail Hm) as (r & k & Hk & Hrun & Hcases).
  { rewrite (length_app header). lia. }
  rewrite <- Hheader, Hrun.
  destruct Hcases as [(-> & n & -> & Hn)|(Hlt & -> & Hd & Hno)].
  - exists n, (length entries). split; [lia|]. split; [reflexivity|].
    left. reflexivity.
  - exists 0, k. pose proof (len_nonneg entries). split; [lia|].
    split; [reflexivity|]. right. repeat split; assumption.
Qed.

End SegmentOfEntries.

Lemma entry_file_entries_in_order_witness :
  exists n,
    0 <= n <= 1
    /\ @extract_messages_from_erlang_entries ascii_only_db accepting_broker
         (Samples.publishing 0)
         (Samples.two_segments Samples.segment_one Samples.segment_three)
         (s_ "d/1.qs") []
       = (Ok n,
          [] ++ flat_map
                  (fun e => @entry_publications ascii_only_db
                              (Samples.publishing 0) (snd e))
                  [(Samples.be32 18 ++ [x00; x00; x00; x00],
                    [x83; x6d] ++ Samples.be32 12
                    ++ Samples.id_message "10001")]).
Proof.
  destruct (@entry_file_entries_in_order ascii_only_db accepting_broker
              (Samples.publishing 0)
              (Samples.two_segments Samples.segment_one Samples.segment_three)
              (s_ "d/1.qs") Samples.header_64 []
              [(Samples.be32 18 ++ [x00; x00; x00; x00],
                [x83; x6d] ++ Samples.be32 12 ++ Samples.id_message "10001")]
              [])
    as (n & k & Hn & Hrun & Hcases).
  - vm_compute. reflexivity.
  - reflexivity.
  - vm_compute. reflexivity.
  - constructor; [|constructor].
    split; [reflexivity|split; [vm_compute; reflexivity|]].
    split; [reflexivity|vm_compute; intros Heq; discriminate Heq].
  - vm_compute. intros Heq. discriminate Heq.
  - exists n. split; [exact Hn|].
    destruct Hcases as [Hk|(_ & _ & _ & Hno)].
    + rewrite Hk in Hrun. exact Hrun.
    + exfalso. apply Hno. exact accepting_broker_reliable.
Defined.

(** *** A segment of messages *)

Lemma byte_val_byte_of (k : Z) : 0 <= k < 256 -> byte_val (byte_of k) = k.
Proof.
  intros Hk. unfold byte_of, byte_val.
  destruct (Byte.of_N (Z.to_N k)) as [b|] eqn:E.
  - apply Byte.to_of_N in E. rewrite E. lia.
  - apply Byte.of_N_None_iff in E. lia.
Qed.

(** Four big-endian bytes read back as the number they were made
    from. *)
Lemma int_from_bytes_big_be32 (n : Z) :
  0 <= n < 2 ^ 32 -> int_from_bytes_big (Samples.be32 n) = n.
Proof.
  intros Hn. unfold Samples.be32, int_from_bytes_big. cbn [fold_left].
  change 255 with (Z.ones 8).
  rewrite !Z.land_ones, !Z.shiftr_div_pow2 by lia.
  change (2 ^ 32) with 4294967296 in Hn.
  change (2 ^ 24) with 16777216. change (2 ^ 16) with 65536.
  change (2 ^ 8) with 256.
  rewrite !byte_val_byte_of by (Z.div_mod_to_equations; lia).
  Z.div_mod_to_equations. lia.
Qed.

(** A term entry of the samples is an entry that holds its message;
    its header ends in four zero bytes. *)
Lemma term_entry_message_entry (payload : bytes) :
  len payload <= 1024 * 1024 ->
  Samples.term_entry payload
  = (Samples.be32 (6 + len payload) ++ [x00; x00; x00; x00])
    ++ (x83 :: x6d :: Samples.be32 (len payload) ++ payload)
  /\ message_entry payload
       (Samples.be32 (6 + len payload) ++ [x00; x00; x00; x00],
        x83 :: x6d :: Samples.be32 (len payload) ++ payload).
Proof.
  intros Hmax. pose proof (len_nonneg payload) as H0.
  split; [unfold Samples.term_entry; rewrite <- !app_assoc; reflexivity|].
  assert (Hbody : len (x83 :: x6d :: Samples.be32 (len payload) ++ payload)
                  = 6 + len payload).
  { change (x83 :: x6d :: Samples.be32 (len payload) ++ payload)
      with (([x83; x6d] ++ Samples.be32 (len payload)) ++ payload).
    rewrite len_app. reflexivity. }
  split.
  - unfold entry_frame. cbn [fst snd]. rewrite Hbody.
    split; [reflexivity|]. split; [|lia].
    change (slice (Samples.be32 (6 + len payload) ++ [x00; x00; x00; x00]) 0 4)
      with (Samples.be32 (6 + len payload)).
    apply int_from_bytes_big_be32. change (2 ^ 32) with 4294967296. lia.
  - exists (Samples.be32 (len payload)). split; [reflexivity|].
    split; [|reflexivity].
    apply int_from_bytes_big_be32. change (2 ^ 32) with 4294967296. lia.
Qed.

Section SegmentOfMessages.
Context {db : UnicodeDB} {br : Broker}.

(** What the decoder hands to [basic_publish] for entries that hold
    messages: the messages as they stand. *)
Lemma message_entries_publications (cfg : config) :
  dry_run cfg = false ->
  forall (messages : list bytes) (entries : list (bytes * bytes)),
    Forall2 message_entry messages entries ->
    Forall json_message messages ->
    forall k : nat,
      flat_map (fun e => entry_publications cfg (snd e)) (firstn k entries)
      = map (verbatim_publication cfg) (firstn k messages).
Proof.
  intros Hwet messages entries Hentries.
  induction Hentries as [|message e messages entries He _ IH];
    intros Hmsgs k.
  - rewrite !firstn_nil. reflexivity.
  - inversion Hmsgs as [|m ms Hmsg Hrest]; subst m ms.
    destruct k as [|k]; [reflexivity|].
    cbn [firstn flat_map map]. rewrite (IH Hrest k).
    destruct He as (_ & length_field & Hfield & Hlength & ->).
    unfold entry_publications.
    rewrite (@handle_entry_json db accepting_broker cfg length_field message
               0 [] Hfield Hlength Hmsg).
    rewrite Hwet. reflexivity.
Qed.

Lemma message_entries_frames (messages : list bytes)
  (entries : list (bytes * bytes)) :
  Forall2 message_entry messages entries ->
  Forall entry_frame entries /\ length entries = length messages.
Proof.
  induction 1 as [|message e messages entries He _ [IHf IHl]].
  - split; [constructor|reflexivity].
  - split; [constructor; [apply He|assumption]|cbn [length]; lia].
Qed.

(** X20.  A segment of messages is recovered completely and in order:
    when the file is 64 header bytes followed by entries that hold one
    message each (an eight-byte header whose first four bytes give the
    size of the body and whose other four are arbitrary, then the term
    marker [0x83], the tag [0x6d], the length and the message) and the
    messages are objects of ASCII text passing the printable check, a
    run without message limit that publishes, and in which every call
    of [basic_publish] returns, reports the number of the messages and
    publishes exactly their bytes, one publication for each, in the
    order of the file.  When a call raises, the messages before it have
    been published in this way, and the file reports 0. *)
Theorem entry_segment_round_trip (cfg : config) (fs : filesystem)
  (file_path : str) (header : bytes) (messages : list bytes)
  (entries : list (bytes * bytes)) (out : sink) :
  fs file_path = Some (header ++ frames entries) ->
  len header = 64 ->
  Forall2 message_entry messages entries ->
  Forall json_message messages ->
  message_limit cfg <= 0 -> dry_run cfg = false ->
  (reliable br ->
   extract_messages_from_erlang_entries cfg fs file_path out
   = (Ok (len messages), out ++ map (verbatim_publication cfg) messages))
  /\ exists n k,
       extract_messages_from_erlang_entries cfg fs file_path out
       = (Ok n, out ++ map (verbatim_publication cfg) (firstn k messages))
       /\ ((k = length messages /\ n = len messages)
           \/ ((k < length messages)%nat /\ n = 0 /\ ~ reliable br)).
Proof.
  intros Hfile Hheader Hentries Hmsgs Hm Hwet.
  destruct (message_entries_frames messages entries Hentries)
    as [Hall Hsame].
  assert (Hcore : exists n k,
            extract_messages_from_erlang_entries cfg fs file_path out
            = (Ok n, out ++ map (verbatim_publication cfg) (firstn k messages))
            /\ ((k = length messages /\ n = len messages)
                \/ ((k < length messages)%nat /\ n = 0 /\ ~ reliable br))).
  { unfold extract_messages_from_erlang_entries. rewrite Hfile.
    destruct (entries_loop_frames cfg entries header []
                (S (length (header ++ frames entries))) 0 out Hall
                ltac:(change (len (@nil byte)) with 0; lia) Hm)
      as (r & k & Hk & Hrun & Hcases).
    { rewrite app_nil_r, (length_app header). lia. }
    rewrite app_nil_r in Hrun.
    rewrite (message_entries_publications cfg Hwet messages entries
               Hentries Hmsgs k) in Hrun.
    rewrite <- Hheader.
    destruct Hcases as [(-> & n' & -> & _)|(Hlt & -> & _ & Hno)].
    - rewrite Hsame, firstn_all in Hrun.
      destruct (entries_loop_accounting cfg _ _ (len header) 0 out _ _
                  (len_nonneg header) Hrun)
        as (news & Hnews & _ & _ & _ & Hcount & _).
      apply app_inv_head in Hnews. specialize (Hcount Hwet).
      rewrite <- Hnews in Hcount. unfold len in Hcount at 1.
      rewrite length_map in Hcount. fold (len messages) in Hcount.
      rewrite Hrun. exists n', (length messages). rewrite firstn_all.
      split; [reflexivity|]. left. split; [reflexivity|lia].
    - rewrite Hrun. exists 0, k. split; [reflexivity|]. right.
      split; [lia|]. split; [reflexivity|assumption]. }
  split; [|exact Hcore].
  intros Hrel. destruct Hcore as (n & k & Hrun & [[-> ->]|(_ & _ & Hno)]).
  - rewrite Hrun, firstn_all. reflexivity.
  - contradiction (Hno Hrel).
Qed.

End SegmentOfMessages.

Lemma entry_segment_round_trip_witness :
  @extract_messages_from_erlang_entries ascii_only_db accepting_broker
    (Samples.publishing 0)
    (Samples.two_segments Samples.segment_one Samples.segment_three)
    (s_ "d/2.qs") []
  = (Ok (len [Samples.id_message "20001"; Samples.id_message "20002";
              Samples.id_message "20003"]),
     [] ++ map (verbatim_publication (Samples.publishing 0))
             [Samples.id_message "20001"; Samples.id_message "20002";
              Samples.id_message "20003"]).
Proof.
  assert (Hjson : forall n, In n ["20001"; "20002"; "20003"]%string ->
                            json_message (Samples.id_message n)).
  { intros n [<-|[<-|[<-|[]]]].
    all: split; [|split; [|split]];
      [ eexists; split; [reflexivity|]; split; [vm_compute; reflexivity|];
        intros j Hj; change (j < 11)%nat in Hj;
        do 11 (destruct j as [|j]; [vm_compute; intros Heq; discriminate Heq|]);
        lia
      | apply Forall_forall; apply forallb_forall; vm_compute; reflexivity
      | vm_compute; reflexivity
      | vm_compute; intros Heq; discriminate Heq ]. }
  assert (Hentry : forall n, In n ["20001"; "20002"; "20003"]%string ->
            message_entry (Samples.id_message n)
              (Samples.be32 18 ++ [x00; x00; x00; x00],
               x83 :: x6d :: Samples.be32 12 ++ Samples.id_message n)).
  { intros n Hn. pose proof (Hjson n Hn) as (_ & _ & _ & Hmax).
    destruct Hn as [<-|[<-|[<-|[]]]];
      exact (proj2 (term_entry_message_entry (Samples.id_message _) Hmax)). }
  apply (@entry_segment_round_trip ascii_only_db accepting_broker
           (Samples.publishing 0)
           (Samples.two_segments Samples.segment_one Samples.segment_three)
           (s_ "d/2.qs") Samples.header_64
           [Samples.id_message "20001"; Samples.id_message "20002";
            Samples.id_message "20003"]
           [(Samples.be32 18 ++ [x00; x00; x00; x00],
             x83 :: x6d :: Samples.be32 12 ++ Samples.id_message "20001");
            (Samples.be32 18 ++ [x00; x00; x00; x00],
             x83 :: x6d :: Samples.be32 12 ++ Samples.id_message "20002");
            (Samples.be32 18 ++ [x00; x00; x00; x00],
             x83 :: x6d :: Samples.be32 12 ++ Samples.id_message "20003")]).
  - vm_compute. reflexivity.
  - reflexivity.
  - repeat (constructor; [apply Hentry; cbn; tauto|]). constructor.
  - repeat (constructor; [apply Hjson; cbn; tauto|]). constructor.
  - vm_compute. intros Heq. discriminate Heq.
  - reflexivity.
  - exact accepting_broker_reliable.
Defined.

(** *** The file limit in a whole run *)

Lemma NoDup_map_in {A B : Type} (f : A -> B) (l : list A) :
  (forall x y, In x l -> In y l -> f x = f y -> x = y) ->
  NoDup l -> NoDup (map f l).
Proof.
  intros Hinj Hnd. induction Hnd as [|x l Hnin Hnd IH]; cbn [map]; constructor.
  - intros Hin. apply in_map_iff in Hin. destruct Hin as (y & Heq & Hy).
    apply Hnin. rewrite (Hinj x y); [assumption|left; reflexivity|right; assumption|].
    symmetry. assumption.
  - apply IH. intros a b Ha Hb. apply Hinj; right; assumption.
Qed.

(** The segment paths of a listing without repetition are distinct. *)
Lemma segment_paths_NoDup (directory : str) (listing : list str) :
  (forall f, In f listing -> ~ In 47 f) -> NoDup listing ->
  NoDup (segment_paths directory listing).
Proof.
  intros Hslash Hnd. unfold segment_paths. apply NoDup_map_in.
  - intros x y Hx Hy Heq. apply filter_In in Hx, Hy.
    rewrite <- (basename_path_join directory x) by (apply Hslash; apply Hx).
    rewrite <- (basename_path_join directory y) by (apply Hslash; apply Hy).
    rewrite Heq. reflexivity.
  - apply NoDup_filter. assumption.
Qed.

Section WholeRun.
Context {db : UnicodeDB} {br : Broker}.

(** The catalog is a rearrangement of the segment paths. *)
Lemma scan_files_perm (directory : str) (listing qs_files : list str) :
  scan_files directory listing = Ok qs_files ->
  Permutation qs_files (segment_paths directory listing).
Proof.
  unfold scan_files. fold (segment_paths directory listing). intros Hscan.
  destruct (with_keys (segment_paths directory listing)) as [keyed| |] eqn:Hk;
    cbn [bind] in Hscan; try discriminate Hscan.
  injection Hscan as <-. destruct (with_keys_inv _ _ Hk) as [<- _].
  apply Permutation_map. apply sort_keyed_perm.
Qed.

(** X21.  In a whole run the file limit means the first files of the
    catalog: when the directory listing has no repetition (and, as
    directory entries do, no slash in a name), the catalog has no
    repetition either, and a run with a positive file limit [k] is the
    run without file limit over the first [k] files of the catalog, under
    both strategies. *)
Theorem main_file_limit (cfg : config) (fs : filesystem) (directory : str)
  (listing qs_files : list str) (out : sink) :
  0 < file_limit cfg -> NoDup listing ->
  (forall f, In f listing -> ~ In 47 f) ->
  scan_files directory listing = Ok qs_files ->
  NoDup qs_files
  /\ RecoveryImprovedJson.main cfg fs directory listing out
     = RecoveryImprovedJson.process_files (set_file_limit 0 cfg) fs
         (firstn (Z.to_nat (file_limit cfg)) qs_files) out
  /\ RabbitmqRecovery.main cfg fs directory listing out
     = RabbitmqRecovery.process_files (set_file_limit 0 cfg) fs
         (firstn (Z.to_nat (file_limit cfg)) qs_files) out.
Proof.
  intros Hk Hnd Hslash Hscan.
  assert (Hfiles : NoDup qs_files).
  { apply (Permutation_NoDup (l := segment_paths directory listing)).
    - symmetry. apply (scan_files_perm _ _ _ Hscan).
    - apply segment_paths_NoDup; assumption. }
  split; [assumption|].
  unfold RecoveryImprovedJson.main, RabbitmqRecovery.main. rewrite Hscan.
  unfold RecoveryImprovedJson.process_files, RabbitmqRecovery.process_files.
  split.
  - rewrite (entry_loop_limited cfg fs qs_files
               (firstn (Z.to_nat (file_limit cfg)) qs_files) qs_files Hk Hfiles
               [] 0 out eq_refl).
    cbn [length]. rewrite Nat.sub_0_r. reflexivity.
  - rewrite (marker_loop_limited cfg fs qs_files
               (firstn (Z.to_nat (file_limit cfg)) qs_files) qs_files Hk Hfiles
               [] 0 out eq_refl).
    cbn [length]. rewrite Nat.sub_0_r. reflexivity.
Qed.

End WholeRun.

Lemma main_file_limit_witness :
  NoDup [s_ "d/1.qs"; s_ "d/2.qs"]
  /\ @RecoveryImprovedJson.main ascii_only_db accepting_broker
       (set_file_limit 1 (Samples.publishing 0))
       (Samples.two_segments Samples.segment_one Samples.segment_three)
       (s_ "d") [s_ "2.qs"; s_ "1.qs"] []
     = @RecoveryImprovedJson.process_files ascii_only_db accepting_broker
         (set_file_limit 0 (set_file_limit 1 (Samples.publishing 0)))
         (Samples.two_segments Samples.segment_one Samples.segment_three)
         (firstn (Z.to_nat 1) [s_ "d/1.qs"; s_ "d/2.qs"]) []
  /\ @RabbitmqRecovery.main accepting_broker ascii_only_db
       (set_file_limit 1 (Samples.publishing 0))
       (Samples.two_segments Samples.segment_one Samples.segment_three)
       (s_ "d") [s_ "2.qs"; s_ "1.qs"] []
     = @RabbitmqRecovery.process_files accepting_broker
         (set_file_limit 0 (set_file_limit 1 (Samples.publishing 0)))
         (Samples.two_segments Samples.segment_one Samples.segment_three)
         (firstn (Z.to_nat 1) [s_ "d/1.qs"; s_ "d/2.qs"]) [].
Proof.
  apply (@main_file_limit ascii_only_db accepting_broker
           (set_file_limit 1 (Samples.publishing 0))).
  - reflexivity.
  - repeat constructor; cbv; intuition discriminate.
  - intros f [<-|[<-|[]]]; cbv; intuition discriminate.
  - vm_compute. reflexivity.
Defined.

(** *** What the entry loop looks at *)

(** One iteration looks at the bytes from the cursor on only. *)
Lemma entry_step_suffix (pre rest : bytes) :
  snd (entry_step (pre ++ rest) (len pre))
  = match snd (entry_step rest 0) with
    | Resync pos' => Resync (len pre + pos')
    | Entry msg_data pos' => Entry msg_data (len pre + pos')
    | outcome => outcome
    end.
Proof.
  pose proof (len_nonneg pre) as Hpre. pose proof (len_nonneg rest) as Hrest.
  assert (Hslice : forall a b, 0 <= a -> 
            slice (pre ++ rest) (len pre + a) (len pre + b) = slice rest a b).
  { intros a b Ha. unfold slice, len.
    replace (Z.of_nat (length pre) + b - (Z.of_nat (length pre) + a))
      with (b - a) by lia.
    f_equal.
    replace (Z.to_nat (Z.of_nat (length pre) + a))
      with (Z.to_nat a + length pre)%nat by lia.
    rewrite <- skipn_skipn, skipn_app, skipn_all, Nat.sub_diag. reflexivity. }
  assert (Hget : getitem (pre ++ rest) (len pre + 4) = getitem rest 4).
  { unfold getitem, len.
    destruct (Z.ltb_spec (Z.of_nat (length pre) + 4) 0); [lia|].
    change (4 <? 0) with false. cbv iota.
    rewrite nth_error_app2 by lia. f_equal. lia. }
  assert (Hs4 : slice (pre ++ rest) (len pre) (len pre + 4) = slice rest 0 4).
  { rewrite <- (Hslice 0 4) by lia. f_equal. lia. }
  assert (Hbody : forall size,
            slice (pre ++ rest) (len pre + 8) (len pre + 8 + size)
            = slice rest 8 (8 + size)).
  { intros size. rewrite <- (Hslice 8 (8 + size)) by lia. f_equal. lia. }
  unfold entry_step. rewrite len_app, Hs4, Hbody, Hget.
  change (0 + 4) with 4. change (0 + 8) with 8.
  set (size := int_from_bytes_big (slice rest 0 4)).
  destruct (Z.ltb_spec (len pre) (len pre + len rest)),
    (Z.ltb_spec 0 (len rest)); try lia; cbn [negb snd]; [|reflexivity].
  destruct (Z.gtb_spec (len pre + 8) (len pre + len rest)),
    (Z.gtb_spec 8 (len rest)); try lia; cbn [snd]; [reflexivity|].
  destruct (getitem rest 4); [|reflexivity].
  destruct ((size =? 0) || (size >? MAX_ENTRY_SIZE));
    cbn [snd]; [reflexivity|].
  destruct (Z.gtb_spec (len pre + 8 + size) (len pre + len rest)),
    (Z.gtb_spec (8 + size) (len rest)); try lia; cbn [snd];
    [reflexivity|f_equal; lia].
Qed.

(** A list is its first [p] elements and the rest. *)
Lemma split_at {A : Type} (l : list A) (p : Z) :
  0 <= p <= len l ->
  exists l1 l2, l = l1 ++ l2 /\ len l1 = p.
Proof.
  intros Hp. exists (firstn (Z.to_nat p) l), (skipn (Z.to_nat p) l).
  split; [symmetry; apply firstn_skipn|].
  unfold len in *. rewrite length_firstn. lia.
Qed.

Section EntryLoopSuffix.
Context {db : UnicodeDB} {br : Broker}.

(** The entry loop looks at the bytes from the cursor on only. *)
Lemma entries_loop_suffix (cfg : config) (fuel : nat) :
  forall (pre rest : bytes) (n : Z) (out : sink),
    entries_loop fuel cfg (pre ++ rest) (len pre) n out
    = entries_loop fuel cfg rest 0 n out.
Proof.
  induction fuel as [|fuel IH]; intros pre rest n out; [reflexivity|].
  assert (Hjump : forall p n0 out0, 0 <= p <= len rest ->
            entries_loop fuel cfg (pre ++ rest) (len pre + p) n0 out0
            = entries_loop fuel cfg rest p n0 out0).
  { intros p n0 out0 Hp. destruct (split_at rest p Hp) as (r1 & r2 & -> & Hr1).
    rewrite app_assoc. replace (len pre + p) with (len (pre ++ r1))
      by (rewrite len_app; lia).
    rewrite IH. rewrite <- Hr1. rewrite IH. reflexivity. }
  cbn [entries_loop]. rewrite entry_step_suffix.
  pose proof (entry_step_cursor rest 0 ltac:(lia)) as Hc.
  destruct (snd (entry_step rest 0)) as [| |pos'| |msg_data pos'|];
    try reflexivity.
  - apply Hjump. lia.
  - destruct (handle_entry cfg msg_data n out) as [[[n' stop]| |] out'];
      try reflexivity.
    destruct stop; [reflexivity|]. apply Hjump. lia.
Qed.

(** Fuel above the number of bytes left is never used up, so any two
    such amounts give the same answer. *)
Lemma entries_loop_fuel (cfg : config) (file_data : bytes) (fuel1 : nat) :
  forall (fuel2 : nat) (pos n : Z) (out : sink),
    0 <= pos ->
    (0 < fuel1)%nat -> len file_data - pos < Z.of_nat fuel1 ->
    (0 < fuel2)%nat -> len file_data - pos < Z.of_nat fuel2 ->
    entries_loop fuel1 cfg file_data pos n out
    = entries_loop fuel2 cfg file_data pos n out.
Proof.
  induction fuel1 as [|fuel1 IH]; intros fuel2 pos n out Hpos H1 He1 H2 He2;
    [lia|].
  destruct fuel2 as [|fuel2]; [lia|]. cbn [entries_loop].
  pose proof (entry_step_cursor file_data pos Hpos) as Hc.
  destruct (snd (entry_step file_data pos)) as [| |pos'| |msg_data pos'|];
    try reflexivity.
  - apply IH; lia.
  - destruct (handle_entry cfg msg_data n out) as [[[n' stop]| |] out'];
      try reflexivity.
    destruct stop; [reflexivity|]. apply IH; lia.
Qed.

(** Eight zero bytes at the cursor are skipped. *)
Lemma entries_loop_zeros (cfg : config) (k : nat) :
  forall (rest : bytes) (fuel1 fuel2 : nat) (n : Z) (out : sink),
    (length (repeat x00 (8 * k) ++ rest) < fuel1)%nat ->
    (length rest < fuel2)%nat ->
    entries_loop fuel1 cfg (repeat x00 (8 * k) ++ rest) 0 n out
    = entries_loop fuel2 cfg rest 0 n out.
Proof.
  induction k as [|k IH]; intros rest fuel1 fuel2 n out H1 H2.
  - change (8 * 0)%nat with 0%nat in *. cbn [repeat app] in *.
    apply entries_loop_fuel; unfold len; lia.
  - replace (8 * S k)%nat with (8 + 8 * k)%nat in * by lia.
    rewrite repeat_app, <- app_assoc in *.
    rewrite length_app in H1. cbn [repeat length] in H1.
    destruct fuel1 as [|fuel1]; [lia|]. cbn [entries_loop].
    assert (Hstep : snd (entry_step (repeat x00 8 ++ repeat x00 (8 * k) ++ rest) 0)
                    = Resync 8).
    { unfold entry_step. rewrite len_app.
      pose proof (len_nonneg (repeat x00 (8 * k) ++ rest)).
      change (len (repeat x00 8)) with 8.
      destruct (Z.ltb_spec 0 (8 + len (repeat x00 (8 * k) ++ rest))); [|lia].
      cbn [negb].
      destruct (Z.gtb_spec (0 + 8) (8 + len (repeat x00 (8 * k) ++ rest)));
        [lia|].
      reflexivity. }
    rewrite Hstep.
    change (entries_loop fuel1 cfg
              (repeat x00 8 ++ repeat x00 (8 * k) ++ rest) 8 n out)
      with (entries_loop fuel1 cfg
              (repeat x00 8 ++ repeat x00 (8 * k) ++ rest)
              (len (repeat x00 8)) n out).
    rewrite entries_loop_suffix. apply IH; lia.
Qed.

(** Entries before a place at which two files differ are handled alike
    in both. *)
Lemma entries_loop_common_frames (cfg : config)
  (entries : list (bytes * bytes)) (rest1 rest2 : bytes) :
  Forall entry_frame entries ->
  (forall fuel1 fuel2 n out,
     (length rest1 < fuel1)%nat -> (length rest2 < fuel2)%nat ->
     entries_loop fuel1 cfg rest1 0 n out
     = entries_loop fuel2 cfg rest2 0 n out) ->
  forall fuel1 fuel2 n out,
    (length (frames entries ++ rest1) < fuel1)%nat ->
    (length (frames entries ++ rest2) < fuel2)%nat ->
    entries_loop fuel1 cfg (frames entries ++ rest1) 0 n out
    = entries_loop fuel2 cfg (frames entries ++ rest2) 0 n out.
Proof.
  intros Hall Hrest. induction Hall as [|[hdr body] entries Hframe _ IH];
    intros fuel1 fuel2 n out H1 H2.
  - apply Hrest; assumption.
  - change (frames ((hdr, body) :: entries))
      with ((hdr ++ body) ++ frames entries) in *.
    rewrite <- !app_assoc in *.
    destruct fuel1 as [|fuel1]; [lia|]. destruct fuel2 as [|fuel2]; [lia|].
    cbn [entries_loop].
    pose proof (entry_step_frame [] hdr body (frames entries ++ rest1) Hframe)
      as Hs1.
    pose proof (entry_step_frame [] hdr body (frames entries ++ rest2) Hframe)
      as Hs2.
    cbn [app] in Hs1, Hs2. change (len (@nil byte)) with 0 in Hs1, Hs2.
    rewrite Hs1, Hs2.
    destruct (handle_entry cfg body n out) as [[[n' stop]| |] out'];
      try reflexivity.
    destruct stop; [reflexivity|].
    destruct Hframe as (Hhdr & _ & Hbody). cbn [fst snd] in Hhdr, Hbody.
    rewrite !length_app in H1, H2. unfold len in Hhdr.
    rewrite 2!(app_assoc hdr body).
    replace (0 + 8 + len body) with (len (hdr ++ body))
      by (rewrite len_app; unfold len; lia).
    rewrite 2!entries_loop_suffix. apply IH; rewrite length_app; lia.
Qed.

(** X22.  Neither strategy looks at the first 64 bytes of a file: two
    files that agree from byte 64 on give the same count and the same
    publications, whatever their headers hold. *)
Theorem file_header_ignored (cfg : config) (fs : filesystem)
  (path1 path2 : str) (header1 header2 rest : bytes) (out : sink) :
  fs path1 = Some (header1 ++ rest) -> fs path2 = Some (header2 ++ rest) ->
  len header1 = 64 -> len header2 = 64 ->
  extract_messages_from_erlang_entries cfg fs path1 out
  = extract_messages_from_erlang_entries cfg fs path2 out
  /\ RabbitmqRecovery.extract_and_publish_exact_markers cfg fs path1 out
     = RabbitmqRecovery.extract_and_publish_exact_markers cfg fs path2 out.
Proof.
  intros Hf1 Hf2 Hh1 Hh2. split.
  - unfold extract_messages_from_erlang_entries.
    rewrite Hf1, Hf2. rewrite <- Hh1 at 1. rewrite <- Hh2 at 1.
    rewrite 2!entries_loop_suffix, 2!length_app.
    replace (length header1) with (length header2)
      by (unfold len in *; lia).
    reflexivity.
  - unfold RabbitmqRecovery.extract_and_publish_exact_markers.
    rewrite Hf1, Hf2. cbv zeta.
    assert (H1 : slice_from (header1 ++ rest) 64 = rest)
      by (rewrite <- Hh1; apply slice_from_app).
    assert (H2 : slice_from (header2 ++ rest) 64 = rest)
      by (rewrite <- Hh2; apply slice_from_app).
    rewrite H1, H2. reflexivity.
Qed.

(** X23.  Zero bytes between entries are skipped, eight at a time: a file
    in which a run of zero bytes, of a length that is a multiple of 8,
    follows the header or well-formed entries gives the count and the
    publications of the file without that run. *)
Theorem entry_file_zero_padding (cfg : config) (fs : filesystem)
  (path1 path2 : str) (header rest : bytes) (entries : list (bytes * bytes))
  (k : nat) (out : sink) :
  fs path1 = Some (header ++ frames entries ++ repeat x00 (8 * k) ++ rest) ->
  fs path2 = Some (header ++ frames entries ++ rest) ->
  len header = 64 -> Forall entry_frame entries ->
  extract_messages_from_erlang_entries cfg fs path1 out
  = extract_messages_from_erlang_entries cfg fs path2 out.
Proof.
  intros Hf1 Hf2 Hh Hall. unfold extract_messages_from_erlang_entries.
  rewrite Hf1, Hf2. rewrite <- Hh. rewrite 2!entries_loop_suffix.
  rewrite (entries_loop_common_frames cfg entries
             (repeat x00 (8 * k) ++ rest) rest Hall)
    with (fuel2 := S (length (header ++ frames entries ++ rest))).
  - reflexivity.
  - intros fuel1 fuel2 n out0 H1 H2. apply entries_loop_zeros; assumption.
  - rewrite (length_app header). lia.
  - rewrite (length_app header). lia.
Qed.

End EntryLoopSuffix.

Lemma file_header_ignored_witness :
  @extract_messages_from_erlang_entries ascii_only_db accepting_broker
    (Samples.publishing 0)
    (Samples.two_segments
       (Samples.header_64 ++ Samples.term_entry (Samples.id_message "10001"))
       (repeat xff 64 ++ Samples.term_entry (Samples.id_message "10001")))
    (s_ "d/1.qs") []
  = @extract_messages_from_erlang_entries ascii_only_db accepting_broker
      (Samples.publishing 0)
      (Samples.two_segments
         (Samples.header_64 ++ Samples.term_entry (Samples.id_message "10001"))
         (repeat xff 64 ++ Samples.term_entry (Samples.id_message "10001")))
      (s_ "d/2.qs") []
  /\ @RabbitmqRecovery.extract_and_publish_exact_markers accepting_broker
       (Samples.publishing 0)
       (Samples.two_segments
          (Samples.header_64 ++ Samples.term_entry (Samples.id_message "10001"))
          (repeat xff 64 ++ Samples.term_entry (Samples.id_message "10001")))
       (s_ "d/1.qs") []
     = @RabbitmqRecovery.extract_and_publish_exact_markers accepting_broker
         (Samples.publishing 0)
         (Samples.two_segments
            (Samples.header_64 ++ Samples.term_entry (Samples.id_message "10001"))
            (repeat xff 64 ++ Samples.term_entry (Samples.id_message "10001")))
         (s_ "d/2.qs") [].
Proof.
  apply (@file_header_ignored ascii_only_db accepting_broker
           (Samples.publishing 0) _ _ _
           Samples.header_64 (repeat xff 64)
           (Samples.term_entry (Samples.id_message "10001"))).
  - reflexivity.
  - reflexivity.
  - reflexivity.
  - reflexivity.
Defined.

Lemma entry_file_zero_padding_witness :
  @extract_messages_from_erlang_entries ascii_only_db accepting_broker
    (Samples.publishing 0)
    (Samples.two_segments
       (Samples.header_64
        ++ frames [(Samples.be32 18 ++ [x00; x00; x00; x00],
                    [x83; x6d] ++ Samples.be32 12
                    ++ Samples.id_message "10001")]
        ++ repeat x00 (8 * 2)
        ++ Samples.term_entry (Samples.id_message "10002"))
       (Samples.header_64
        ++ frames [(Samples.be32 18 ++ [x00; x00; x00; x00],
                    [x83; x6d] ++ Samples.be32 12
                    ++ Samples.id_message "10001")]
        ++ Samples.term_entry (Samples.id_message "10002")))
    (s_ "d/1.qs") []
  = @extract_messages_from_erlang_entries ascii_only_db accepting_broker
      (Samples.publishing 0)
      (Samples.two_segments
         (Samples.header_64
          ++ frames [(Samples.be32 18 ++ [x00; x00; x00; x00],
                      [x83; x6d] ++ Samples.be32 12
                      ++ Samples.id_message "10001")]
          ++ repeat x00 (8 * 2)
          ++ Samples.term_entry (Samples.id_message "10002"))
         (Samples.header_64
          ++ frames [(Samples.be32 18 ++ [x00; x00; x00; x00],
                      [x83; x6d] ++ Samples.be32 12
                      ++ Samples.id_message "10001")]
          ++ Samples.term_entry (Samples.id_message "10002")))
      (s_ "d/2.qs") [].
Proof.
  apply (@entry_file_zero_padding ascii_only_db accepting_broker
           (Samples.publishing 0) _ _ _
           Samples.header_64
           (Samples.term_entry (Samples.id_message "10002"))
           [(Samples.be32 18 ++ [x00; x00; x00; x00],
             [x83; x6d] ++ Samples.be32 12 ++ Samples.id_message "10001")]
           2%nat).
  - reflexivity.
  - reflexivity.
  - reflexivity.
  - constructor; [|constructor].
    split; [reflexivity|split; [vm_compute; reflexivity|]].
    split; [reflexivity|vm_compute; intros Heq; discriminate Heq].
Defined.

(** *** Round trip of the marker scan *)

Lemma getitem_app_l {A : Type} (l1 l2 : list A) (i : Z) :
  0 <= i < len l1 -> getitem (l1 ++ l2) i = getitem l1 i.
Proof.
  unfold getitem, len. intros Hi. destruct (i <? 0); [reflexivity|].
  apply nth_error_app1. lia.
Qed.

Lemma getitem_app_r {A : Type} (l1 l2 : list A) (j : Z) :
  0 <= j -> getitem (l1 ++ l2) (len l1 + j) = getitem l2 j.
Proof.
  unfold getitem, len. intros Hj.
  destruct (Z.ltb_spec (Z.of_nat (length l1) + j) 0); [lia|].
  destruct (Z.ltb_spec j 0); [lia|].
  rewrite nth_error_app2 by lia. f_equal. lia.
Qed.

Lemma byte_is_app_l (l1 l2 : bytes) (i v : Z) :
  0 <= i < len l1 -> byte_is (l1 ++ l2) i v = byte_is l1 i v.
Proof. intros Hi. unfold byte_is. rewrite getitem_app_l by assumption. reflexivity. Qed.

Lemma byte_is_app_r (l1 l2 : bytes) (j v : Z) :
  0 <= j -> byte_is (l1 ++ l2) (len l1 + j) v = byte_is l2 j v.
Proof. intros Hj. unfold byte_is. rewrite getitem_app_r by assumption. reflexivity. Qed.

(** The tag test looks at the bytes from its position on only. *)
Lemma tag_at_app_r (l1 l2 : bytes) (tag j : Z) :
  0 <= j -> tag_at (l1 ++ l2) tag (len l1 + j) = tag_at l2 tag j.
Proof.
  intros Hj. unfold tag_at.
  rewrite <- !Z.add_assoc, !byte_is_app_r by lia. reflexivity.
Qed.

(** Where no byte has the value [v], no position holds it. *)
Lemma byte_is_absent (l : bytes) (i v : Z) :
  Forall (fun b => byte_val b <> v) l -> byte_is l i v = false.
Proof.
  intros Hall. unfold byte_is, getitem. destruct (i <? 0); [reflexivity|].
  destruct (nth_error l (Z.to_nat i)) as [b|] eqn:E; [|reflexivity].
  apply nth_error_In in E. rewrite Forall_forall in Hall.
  apply Z.eqb_neq. apply Hall. assumption.
Qed.

Lemma len_marked (message : bytes) : len (marked message) = 8 + len message.
Proof. unfold marked. rewrite !len_app. change (len [x6d; x00; x00; x00]) with 4.
  change (len [x74; x00; x00; x00]) with 4. lia. Qed.

(** The last byte of a message is a closing brace. *)
Lemma marker_message_last (message : bytes) :
  marker_message message ->
  3 <= len message
  /\ getitem message (len message - 1) = Some x7d.
Proof.
  intros [(middle & ->) _].
  replace (x7b :: middle ++ [x7d; x7d])
    with (([x7b] ++ middle ++ [x7d]) ++ [x7d])
    by (cbn [app]; rewrite <- app_assoc; reflexivity).
  rewrite len_app. change (len [x7d]) with 1.
  pose proof (len_nonneg ([x7b] ++ middle ++ [x7d])) as H0.
  assert (H2 : 2 <= len ([x7b] ++ middle ++ [x7d])).
  { rewrite !len_app. pose proof (len_nonneg middle).
    change (len [x7b]) with 1. change (len [x7d]) with 1. lia. }
  split; [lia|].
  replace (len ([x7b] ++ middle ++ [x7d]) + 1 - 1)
    with (len ([x7b] ++ middle ++ [x7d]) + 0) by lia.
  rewrite getitem_app_r by lia. reflexivity.
Qed.

(** Inside a marked message the tags stand at its two markers only. *)
Lemma tag_at_marked (message rest : bytes) (tag i : Z) :
  marker_message message -> tag = 109 \/ tag = 116 ->
  0 <= i < 8 + len message ->
  tag_at (marked message ++ rest) tag i
  = (if tag =? 109 then i =? 0 else i =? 4 + len message).
Proof.
  intros Hmsg Htag Hi.
  destruct (marker_message_last message Hmsg) as [Hlen Hlast].
  destruct Hmsg as [_ Hbytes].
  assert (Hcases : i = 0 \/ i = 1 \/ i = 2 \/ i = 3
                   \/ 4 <= i < 4 + len message
                   \/ i = 4 + len message + 0 \/ i = 4 + len message + 1
                   \/ i = 4 + len message + 2 \/ i = 4 + len message + 3)
    by lia.
  assert (Hend : forall k, 0 <= k ->
            tag_at (marked message ++ rest) tag (4 + len message + k)
            = tag_at ([x74; x00; x00; x00] ++ rest) tag k).
  { intros k Hk. unfold marked.
    replace (([x6d; x00; x00; x00] ++ message ++ [x74; x00; x00; x00]) ++ rest)
      with (([x6d; x00; x00; x00] ++ message) ++ [x74; x00; x00; x00] ++ rest)
      by (rewrite <- !app_assoc; reflexivity).
    replace (4 + len message) with (len ([x6d; x00; x00; x00] ++ message))
      by (rewrite len_app; reflexivity).
    apply tag_at_app_r. assumption. }
  destruct Hcases as [->|[->|[->|[->|[Hin|[->|[->|[->| ->]]]]]]]].
  - destruct Htag as [-> | ->]; [reflexivity|].
    destruct (Z.eqb_spec 0 (4 + len message)); [lia|reflexivity].
  - destruct Htag as [-> | ->]; [reflexivity|].
    destruct (Z.eqb_spec 1 (4 + len message)); [lia|reflexivity].
  - destruct Htag as [-> | ->]; [reflexivity|].
    destruct (Z.eqb_spec 2 (4 + len message)); [lia|reflexivity].
  - destruct Htag as [-> | ->]; [reflexivity|].
    destruct (Z.eqb_spec 3 (4 + len message)); [lia|reflexivity].
  - assert (Hab : byte_is (marked message ++ rest) i tag
                  && byte_is (marked message ++ rest) (i + 1) 0 = false).
    { unfold marked. rewrite <- !app_assoc.
      change (len [x6d; x00; x00; x00]) with 4.
      replace i with (len [x6d; x00; x00; x00] + (i - 4))
        by (change (len [x6d; x00; x00; x00]) with 4; lia).
      rewrite <- Z.add_assoc, !byte_is_app_r by lia.
      rewrite byte_is_app_l by lia.
      destruct (Z.eq_dec (i - 4 + 1) (len message)) as [Heq|Hne].
      - replace (i - 4) with (len message - 1) by lia.
        unfold byte_is at 1. rewrite Hlast.
        destruct Htag as [-> | ->]; reflexivity.
      - rewrite (byte_is_app_l message) by lia.
        rewrite (byte_is_absent message (i - 4 + 1) 0).
        + apply andb_false_r.
        + rewrite Forall_forall in *. intros b Hb. specialize (Hbytes b Hb). lia. }
    unfold tag_at. rewrite Hab. cbn [andb].
    destruct Htag as [-> | ->].
    + change (109 =? 109) with true. cbv iota.
      destruct (Z.eqb_spec i 0); [lia|reflexivity].
    + change (116 =? 109) with false. cbv iota.
      destruct (Z.eqb_spec i (4 + len message)); [lia|reflexivity].
  - rewrite Hend by lia. destruct Htag as [-> | ->].
    + change (tag_at ([x74; x00; x00; x00] ++ rest) 109 0) with false.
      change (109 =? 109) with true. cbv iota.
      destruct (Z.eqb_spec (4 + len message + 0) 0); [lia|reflexivity].
    + change (tag_at ([x74; x00; x00; x00] ++ rest) 116 0) with true.
      change (116 =? 109) with false. cbv iota.
      destruct (Z.eqb_spec (4 + len message + 0) (4 + len message));
        [reflexivity|lia].
  - rewrite Hend by lia. destruct Htag as [-> | ->].
    + change (tag_at ([x74; x00; x00; x00] ++ rest) 109 1) with false.
      change (109 =? 109) with true. cbv iota.
      destruct (Z.eqb_spec (4 + len message + 1) 0); [lia|reflexivity].
    + change (tag_at ([x74; x00; x00; x00] ++ rest) 116 1) with false.
      change (116 =? 109) with false. cbv iota.
      destruct (Z.eqb_spec (4 + len message + 1) (4 + len message));
        [lia|reflexivity].
  - rewrite Hend by lia. destruct Htag as [-> | ->].
    + change (tag_at ([x74; x00; x00; x00] ++ rest) 109 2) with false.
      change (109 =? 109) with true. cbv iota.
      destruct (Z.eqb_spec (4 + len message + 2) 0); [lia|reflexivity].
    + change (tag_at ([x74; x00; x00; x00] ++ rest) 116 2) with false.
      change (116 =? 109) with false. cbv iota.
      destruct (Z.eqb_spec (4 + len message + 2) (4 + len message));
        [lia|reflexivity].
  - rewrite Hend by lia. destruct Htag as [-> | ->].
    + change (tag_at ([x74; x00; x00; x00] ++ rest) 109 3) with false.
      change (109 =? 109) with true. cbv iota.
      destruct (Z.eqb_spec (4 + len message + 3) 0); [lia|reflexivity].
    + change (tag_at ([x74; x00; x00; x00] ++ rest) 116 3) with false.
      change (116 =? 109) with false. cbv iota.
      destruct (Z.eqb_spec (4 + len message + 3) (4 + len message));
        [lia|reflexivity].
Qed.

(** The offsets of the markers lie inside the marked messages. *)
Lemma marker_offsets_bounds (tag : Z) (messages : list bytes) :
  forall off x,
    In x (marker_offsets tag off messages) ->
    off <= x <= off + len (concat (map marked messages)) - 4.
Proof.
  induction messages as [|m messages IH]; intros off x Hin; [contradiction|].
  cbn [marker_offsets map concat] in *. rewrite len_app, len_marked.
  pose proof (len_nonneg m). pose proof (len_nonneg (concat (map marked messages))).
  destruct Hin as [<-|Hin].
  - destruct (tag =? 109); lia.
  - apply IH in Hin. lia.
Qed.

Lemma marker_offsets_sorted (tag : Z) (messages : list bytes) :
  forall off, StronglySorted Z.lt (marker_offsets tag off messages).
Proof.
  induction messages as [|m messages IH]; intros off; cbn [marker_offsets];
    constructor; [apply IH|].
  apply Forall_forall. intros x Hx. apply marker_offsets_bounds in Hx.
  pose proof (len_nonneg m). destruct (tag =? 109); lia.
Qed.

(** In a segment of marked messages the tags stand at the markers, and
    nowhere else. *)
Lemma tag_at_messages (tag : Z) (messages : list bytes) (tail : bytes) :
  tag = 109 \/ tag = 116 ->
  Forall marker_message messages ->
  Forall (fun b => byte_val b <> 109 /\ byte_val b <> 116) tail ->
  forall off i,
    0 <= i ->
    (tag_at (concat (map marked messages) ++ tail) tag i = true
     <-> In (off + i) (marker_offsets tag off messages)).
Proof.
  intros Htag Hall Htail. induction Hall as [|m messages Hm _ IH];
    intros off i Hi.
  - cbn [map concat app marker_offsets]. unfold tag_at.
    rewrite (byte_is_absent tail i tag).
    + cbn [andb]. split; [discriminate|contradiction].
    + rewrite Forall_forall in *. intros b Hb. specialize (Htail b Hb).
      destruct Htag as [-> | ->]; lia.
  - cbn [map concat marker_offsets]. rewrite <- app_assoc.
    pose proof (len_nonneg m) as H0.
    destruct (Z.lt_ge_cases i (8 + len m)) as [Hlt|Hge].
    + rewrite tag_at_marked by (assumption || lia). split.
      * intros Hhit. left.
        destruct Htag as [-> | ->].
        -- change (109 =? 109) with true in *. cbv iota in *.
           apply Z.eqb_eq in Hhit. lia.
        -- change (116 =? 109) with false in *. cbv iota in *.
           apply Z.eqb_eq in Hhit. lia.
      * intros [Heq|Hin].
        -- destruct Htag as [-> | ->].
           ++ change (109 =? 109) with true in *. cbv iota in *.
              apply Z.eqb_eq. lia.
           ++ change (116 =? 109) with false in *. cbv iota in *.
              apply Z.eqb_eq. lia.
        -- apply marker_offsets_bounds in Hin. lia.
    + replace i with (len (marked m) + (i - (8 + len m)))
        by (rewrite len_marked; lia).
      rewrite tag_at_app_r by lia.
      rewrite (IH (off + 8 + len m) (i - (8 + len m))) by lia.
      rewrite len_marked.
      replace (off + 8 + len m + (i - (8 + len m)))
        with (off + (8 + len m + (i - (8 + len m)))) by lia.
      split; [intros Hin; right; assumption|].
      intros [Heq|Hin]; [|assumption].
      exfalso. destruct (tag =? 109); lia.
Qed.

(** Two ascending lists with the same elements are equal. *)
Lemma sorted_lt_ext (l1 : list Z) : forall l2,
  StronglySorted Z.lt l1 -> StronglySorted Z.lt l2 ->
  (forall x, In x l1 <-> In x l2) -> l1 = l2.
Proof.
  induction l1 as [|a l1 IH]; intros l2 H1 H2 Hext.
  - destruct l2 as [|b l2]; [reflexivity|].
    exfalso. apply (Hext b). left. reflexivity.
  - destruct l2 as [|b l2].
    { exfalso. apply (Hext a). left. reflexivity. }
    apply StronglySorted_inv in H1, H2.
    destruct H1 as [H1 Ha], H2 as [H2 Hb]. rewrite Forall_forall in Ha, Hb.
    assert (Hab : a = b).
    { destruct (proj1 (Hext a) (or_introl eq_refl)) as [Heq|Hin];
        [congruence|].
      destruct (proj2 (Hext b) (or_introl eq_refl)) as [Heq|Hin'];
        [assumption|].
      specialize (Ha b Hin'). specialize (Hb a Hin). lia. }
    subst b. f_equal. apply IH; try assumption.
    intros x. split; intros Hx.
    + destruct (proj1 (Hext x) (or_intror Hx)) as [Heq|Hin]; [|assumption].
      specialize (Ha x Hx). lia.
    + destruct (proj2 (Hext x) (or_intror Hx)) as [Heq|Hin]; [|assumption].
      specialize (Hb x Hx). lia.
Qed.

Lemma range_sorted (n : Z) : StronglySorted Z.lt (range n).
Proof.
  unfold range. generalize (Z.to_nat n) as k. generalize 0%nat as start.
  intros start k. revert start.
  induction k as [|k IH]; intros start; cbn [seq map]; constructor.
  - apply IH.
  - apply Forall_forall. intros x Hx. apply in_map_iff in Hx.
    destruct Hx as (j & <- & Hj). apply in_seq in Hj. lia.
Qed.

Lemma filter_sorted (p : Z -> bool) (l : list Z) :
  StronglySorted Z.lt l -> StronglySorted Z.lt (filter p l).
Proof.
  induction 1 as [|a l Hs IH Ha]; cbn [filter]; [constructor|].
  destruct (p a); [|assumption]. constructor; [assumption|].
  apply Forall_filter_keep. assumption.
Qed.

Lemma range_In_iff (n i : Z) : In i (range n) <-> 0 <= i < n.
Proof.
  split; [apply range_In|]. intros Hi. unfold range. apply in_map_iff.
  exists (Z.to_nat i). split; [lia|]. apply in_seq. lia.
Qed.

(** What the two marker loops find in a segment of marked messages that
    is followed by at least one byte. *)
Lemma marker_positions_messages (tag : Z) (messages : list bytes)
  (tail : bytes) :
  tag = 109 \/ tag = 116 ->
  Forall marker_message messages ->
  Forall (fun b => byte_val b <> 109 /\ byte_val b <> 116) tail ->
  tail <> [] ->
  let data := concat (map marked messages) ++ tail in
  RabbitmqRecovery.marker_positions data tag (range (len data - 4))
  = Ok (marker_offsets tag 0 messages).
Proof.
  intros Htag Hall Htail Hne data. rewrite marker_positions_found. f_equal.
  apply sorted_lt_ext.
  - apply filter_sorted, range_sorted.
  - apply marker_offsets_sorted.
  - intros x. rewrite filter_In, range_In_iff. split.
    + intros [Hx Hhit]. unfold data in Hhit.
      rewrite (tag_at_messages tag messages tail Htag Hall Htail 0 x) in Hhit
        by lia.
      exact Hhit.
    + intros Hin. pose proof (marker_offsets_bounds _ _ _ _ Hin) as Hb.
      assert (Hlen : len data
                     = len (concat (map marked messages)) + len tail).
      { unfold data. apply len_app. }
      assert (0 < len tail).
      { destruct tail; [congruence|]. unfold len. cbn [length]. lia. }
      split; [lia|]. unfold data.
      rewrite (tag_at_messages tag messages tail Htag Hall Htail 0 x) by lia.
      exact Hin.
Qed.

(** The last occurrence of two closing braces in bytes that end with
    them. *)
Lemma rfind_at_closing (l : bytes) : forall i,
  0 <= i -> rfind_at [x7d; x7d] (l ++ [x7d; x7d]) i = i + len l.
Proof.
  induction l as [|x l IH]; intros i Hi.
  - cbn. lia.
  - cbn [app rfind_at]. rewrite IH by lia. pose proof (len_nonneg l).
    destruct (Z.eqb_spec (i + 1 + len l) (-1)); [lia|].
    unfold len. cbn [length]. lia.
Qed.

(** The first end position after a start. *)
Lemma find_after (before rest : list Z) (e s : Z) :
  Forall (fun x => x <= s) before -> s < e ->
  List.find (fun x => x >? s) (before ++ e :: rest) = Some e.
Proof.
  intros Hall He. induction Hall as [|x before Hx _ IH]; cbn [app List.find].
  - destruct (Z.gtb_spec e s); [reflexivity|lia].
  - destruct (Z.gtb_spec x s); [lia|assumption].
Qed.

(** The message that the loop body cuts out at the start marker of a
    marked message. *)
Lemma message_at_marked (pre rest : bytes) (message : bytes)
  (before after : list Z) :
  marker_message message ->
  Forall (fun x => x <= len pre) before ->
  RabbitmqRecovery.message_at (pre ++ marked message ++ rest)
    (before ++ (len pre + 4 + len message) :: after) (len pre)
  = Some message.
Proof.
  intros Hmsg Hbefore.
  destruct (marker_message_last message Hmsg) as [Hlen _].
  destruct Hmsg as [(middle & Hshape) _].
  pose proof (len_nonneg pre) as Hpre. pose proof (len_nonneg rest) as Hrest.
  set (data := pre ++ marked message ++ rest).
  assert (Hdata : len data = len pre + 8 + len message + len rest).
  { unfold data. rewrite !len_app, len_marked. lia. }
  assert (Hslice : forall k, 0 <= k <= len message ->
            slice data (len pre + 4) (len pre + 4 + k)
            = firstn (Z.to_nat k) message).
  { intros k Hk. unfold data, marked.
    replace (pre ++ ([x6d; x00; x00; x00] ++ message ++ [x74; x00; x00; x00])
             ++ rest)
      with ((pre ++ [x6d; x00; x00; x00])
            ++ message ++ [x74; x00; x00; x00] ++ rest)
      by (rewrite <- !app_assoc; reflexivity).
    replace (len pre + 4) with (len (pre ++ [x6d; x00; x00; x00]))
      by (rewrite len_app; reflexivity).
    replace k with (Z.of_nat (Z.to_nat k)) at 1 by lia.
    rewrite slice_app, firstn_app.
    replace (Z.to_nat k - length message)%nat with 0%nat
      by (unfold len in Hk; lia).
    cbn [firstn]. apply app_nil_r. }
  unfold RabbitmqRecovery.message_at.
  rewrite find_after by (assumption || lia).
  assert (Hfind : find data (b_ "{") (len pre) = len pre + 4).
  { unfold find. destruct (Z.gtb_spec (len pre) (len data)); [lia|].
    unfold data. rewrite slice_from_app. unfold marked. rewrite Hshape.
    change (b_ "{") with [x7b].
    change (([x6d; x00; x00; x00] ++ (x7b :: middle ++ [x7d; x7d])
             ++ [x74; x00; x00; x00]) ++ rest)
      with ([x6d; x00; x00; x00]
            ++ x7b :: ((middle ++ [x7d; x7d]) ++ [x74; x00; x00; x00]) ++ rest).
    rewrite find_at_first; [reflexivity|].
    cbv. intuition discriminate. }
  rewrite Hfind.
  destruct (Z.gtb_spec (len pre + 4) (len pre)); [|lia].
  destruct (Z.ltb_spec (len pre + 4) (len pre + 4 + len message)); [|lia].
  cbn [andb].
  assert (Hrfind : rfind data (b_ "}}") (len pre + 4) (len pre + 4 + len message)
                   = len pre + 4 + len message - 2).
  { unfold rfind. destruct (Z.gtb_spec (len pre + 4) (len data)); [lia|].
    rewrite Hslice by lia. unfold len at 1. rewrite Nat2Z.id, firstn_all.
    rewrite Hshape. change (b_ "}}") with [x7d; x7d].
    change (x7b :: middle ++ [x7d; x7d]) with ((x7b :: middle) ++ [x7d; x7d]).
    rewrite rfind_at_closing by lia. rewrite !len_app.
    change (len [x7d; x7d]) with 2. lia. }
  rewrite Hrfind.
  destruct (Z.gtb_spec (len pre + 4 + len message - 2) (len pre + 4)); [|lia].
  replace (len pre + 4 + len message - 2 + 2) with (len pre + 4 + len message)
    by lia.
  rewrite Hslice by lia. unfold len. rewrite Nat2Z.id, firstn_all. reflexivity.
Qed.

Section MarkerRoundTrip.
Context {br : Broker}.

(** A broker that accepts everything takes all that is offered. *)
Lemma accepted_reliable (offered : list publication) :
  reliable br -> forall out, accepted out offered = out ++ offered.
Proof.
  intros Hrel. induction offered as [|p offered IH]; intros out;
    cbn [accepted]; [symmetry; apply app_nil_r|].
  rewrite (Hrel out p), IH, <- app_assoc. reflexivity.
Qed.

(** The publishing loop over a segment of marked messages: every
    message is offered to the broker, and the accepted ones are
    counted. *)
Lemma publish_messages_marked (cfg : config) (tail : bytes)
  (messages : list bytes) :
  Forall marker_message messages -> dry_run cfg = false ->
  forall (pre : bytes) (before : list Z) (n : Z) (out : sink),
    Forall (fun x => x <= len pre) before ->
    RabbitmqRecovery.publish_messages cfg
      (pre ++ concat (map marked messages) ++ tail)
      (before ++ marker_offsets 116 (len pre) messages)
      (marker_offsets 109 (len pre) messages) n out
    = (n + (len (accepted out (map (verbatim_publication cfg) messages))
            - len out),
       accepted out (map (verbatim_publication cfg) messages)).
Proof.
  intros Hall Hwet. induction Hall as [|m messages Hm _ IH];
    intros pre before n out Hbefore.
  - cbn [marker_offsets RabbitmqRecovery.publish_messages map accepted].
    f_equal. lia.
  - cbn [marker_offsets map concat].
    change (116 =? 109) with false. change (109 =? 109) with true. cbv iota.
    cbn [RabbitmqRecovery.publish_messages].
    rewrite <- (app_assoc (marked m)).
    rewrite message_at_marked by assumption.
    assert (Hdec : utf8_decode Replace m = Some (map byte_val m)).
    { unfold utf8_decode. apply decode_loop_ascii.
      destruct Hm as [_ Hbytes]. rewrite Forall_forall in *.
      intros b Hb. specialize (Hbytes b Hb). lia. }
    rewrite Hdec, Hwet.
    pose proof (len_nonneg m) as H0.
    replace (pre ++ marked m ++ concat (map marked messages) ++ tail)
      with ((pre ++ marked m) ++ concat (map marked messages) ++ tail)
      by (rewrite <- !app_assoc; reflexivity).
    replace (len pre + 8 + len m) with (len (pre ++ marked m))
      by (rewrite len_app, len_marked; lia).
    replace (before
             ++ (len pre + 4 + len m)
                :: marker_offsets 116 (len (pre ++ marked m)) messages)
      with ((before ++ [len pre + 4 + len m])
            ++ marker_offsets 116 (len (pre ++ marked m)) messages)
      by (rewrite <- app_assoc; reflexivity).
    assert (Hnext : Forall (fun x => x <= len (pre ++ marked m))
                      (before ++ [len pre + 4 + len m])).
    { apply Forall_app. split.
      - rewrite Forall_forall in *. intros x Hx. specialize (Hbefore x Hx).
        rewrite len_app, len_marked. lia.
      - constructor; [|constructor]. rewrite len_app, len_marked. lia. }
    cbn [accepted]. unfold basic_publish.
    change {| pub_exchange := exchange cfg;
              pub_routing_key := effective_routing_key cfg;
              pub_body := map byte_val m;
              pub_delivery_mode := 2;
              pub_content_type := ApplicationJson |}
      with (verbatim_publication cfg m).
    destruct (accepts out (verbatim_publication cfg m)).
    + rewrite (IH _ _ (n + 1) _ Hnext). f_equal.
      rewrite len_app. change (len [verbatim_publication cfg m]) with 1. lia.
    + rewrite (IH _ _ n _ Hnext). reflexivity.
Qed.

(** X24.  The marker scan recovers a segment of marked messages
    completely and in order: when the file is 64 header bytes, then
    messages that stand each between a start marker and an end marker and
    are ASCII text without a zero byte from an opening brace to two closing
    braces, then at least one more byte (and no byte [m] or [t] among
    those), a run that publishes, and in which every call of
    [basic_publish] returns, reports the number of the messages and
    publishes exactly their bytes, typed as JSON, one publication for
    each, in the order of the file.  In general every message is offered
    to the broker in the order of the file, and the ones it accepts are
    the publications and are counted. *)
Theorem marker_segment_round_trip (cfg : config) (fs : filesystem)
  (file_path : str) (header tail : bytes) (messages : list bytes)
  (out : sink) :
  fs file_path = Some (header ++ concat (map marked messages) ++ tail) ->
  len header = 64 ->
  Forall marker_message messages ->
  tail <> [] ->
  Forall (fun b => byte_val b <> 109 /\ byte_val b <> 116) tail ->
  dry_run cfg = false ->
  RabbitmqRecovery.extract_and_publish_exact_markers cfg fs file_path out
  = (len (accepted out (map (verbatim_publication cfg) messages)) - len out,
     accepted out (map (verbatim_publication cfg) messages))
  /\ (reliable br ->
      RabbitmqRecovery.extract_and_publish_exact_markers cfg fs file_path out
      = (len messages, out ++ map (verbatim_publication cfg) messages)).
Proof.
  intros Hfile Hheader Hall Hne Htail Hwet.
  assert (Hrun :
    RabbitmqRecovery.extract_and_publish_exact_markers cfg fs file_path out
    = (len (accepted out (map (verbatim_publication cfg) messages)) - len out,
       accepted out (map (verbatim_publication cfg) messages))).
  { unfold RabbitmqRecovery.extract_and_publish_exact_markers.
    rewrite Hfile. cbv zeta.
    assert (Hdata : slice_from (header ++ concat (map marked messages) ++ tail)
                      64
                    = concat (map marked messages) ++ tail)
      by (rewrite <- Hheader; apply slice_from_app).
    rewrite Hdata.
    rewrite (marker_positions_messages 109) by (auto; fail).
    rewrite (marker_positions_messages 116) by (auto; fail).
    apply (publish_messages_marked cfg tail messages Hall Hwet [] [] 0 out).
    constructor. }
  split; [exact Hrun|].
  intros Hrel. rewrite Hrun, accepted_reliable by assumption.
  f_equal. rewrite len_app. unfold len at 2. rewrite length_map.
  fold (len messages). lia.
Qed.

End MarkerRoundTrip.

Lemma marker_segment_round_trip_witness :
  @RabbitmqRecovery.extract_and_publish_exact_markers accepting_broker
    (Samples.publishing 0)
    (Samples.two_segments
       (Samples.header_64
        ++ concat (map marked [b_ "{a}}"; b_ "{mt:{1}}"]) ++ [x00])
       Samples.segment_one)
    (s_ "d/1.qs") []
  = (len [b_ "{a}}"; b_ "{mt:{1}}"],
     [] ++ map (verbatim_publication (Samples.publishing 0))
             [b_ "{a}}"; b_ "{mt:{1}}"]).
Proof.
  apply (@marker_segment_round_trip accepting_broker (Samples.publishing 0)
           _ _ Samples.header_64 [x00]).
  - reflexivity.
  - reflexivity.
  - constructor; [|constructor; [|constructor]].
    + split; [exists (b_ "a"); reflexivity|].
      apply Forall_forall.
      intros b [<-|[<-|[<-|[<-|[]]]]]; vm_compute; split; reflexivity.
    + split; [exists (b_ "mt:{1"); reflexivity|].
      apply Forall_forall.
      intros b [<-|[<-|[<-|[<-|[<-|[<-|[<-|[<-|[]]]]]]]]];
        vm_compute; split; reflexivity.
  - intros Heq. discriminate Heq.
  - constructor; [|constructor].
    vm_compute. split; intros Heq; discriminate Heq.
  - reflexivity.
  - exact accepting_broker_reliable.
Defined.

(** ** The hex dump *)

Lemma hex_digit_printable (d : Z) :
  0 <= d < 16 -> 32 <= hex_digit d <= 126.
Proof. unfold hex_digit. intros Hd. destruct (Z.ltb_spec d 10); lia. Qed.

Lemma hex_digits_printable (fuel : nat) : forall (n : Z) (acc : str),
  0 <= n -> Forall (fun c => 32 <= c <= 126) acc ->
  Forall (fun c => 32 <= c <= 126) (hex_digits fuel n acc).
Proof.
  induction fuel as [|fuel IH]; intros n acc Hn Hacc; cbn [hex_digits];
    [assumption|].
  destruct (Z.ltb_spec n 16).
  - constructor; [apply hex_digit_printable; lia|assumption].
  - apply IH; [apply Z.div_pos; lia|].
    constructor; [|assumption]. apply hex_digit_printable.
    apply Z.mod_pos_bound. lia.
Qed.

Lemma hex_digits_length (fuel : nat) : forall (n : Z) (acc : str),
  (length (hex_digits fuel n acc) <= fuel + length acc)%nat.
Proof.
  induction fuel as [|fuel IH]; intros n acc; cbn [hex_digits]; [lia|].
  destruct (n <? 16); [cbn [length]; lia|].
  specialize (IH (n / 16) (hex_digit (n mod 16) :: acc)).
  cbn [length] in IH. lia.
Qed.

Lemma hex_digits_grows (fuel : nat) : forall (n : Z) (acc : str),
  (length acc <= length (hex_digits fuel n acc))%nat.
Proof.
  induction fuel as [|fuel IH]; intros n acc; cbn [hex_digits]; [lia|].
  destruct (n <? 16); [cbn [length]; lia|].
  specialize (IH (n / 16) (hex_digit (n mod 16) :: acc)).
  cbn [length] in IH. lia.
Qed.

(** A number below [16 ^ k] has at most [k] digits. *)
Lemma hex_length (n : Z) (k : nat) :
  (0 < k)%nat -> 0 <= n < 2 ^ (4 * Z.of_nat k) -> (length (hex n) <= k)%nat.
Proof.
  intros Hk Hn. unfold hex.
  pose proof (hex_digits_length (S (Z.to_nat (Z.log2 n / 4))) n []) as Hlen.
  cbn [length] in Hlen.
  assert (Z.log2 n < 4 * Z.of_nat k).
  { destruct (Z.eq_dec n 0) as [->|Hne]; [change (Z.log2 0) with 0; lia|].
    apply Z.log2_lt_pow2; lia. }
  pose proof (Z.log2_nonneg n).
  assert (Z.log2 n / 4 < Z.of_nat k)
    by (apply Z.div_lt_upper_bound; lia).
  assert (0 <= Z.log2 n / 4) by (apply Z.div_pos; lia).
  lia.
Qed.

Lemma hex_printable (n : Z) :
  0 <= n -> Forall (fun c => 32 <= c <= 126) (hex n).
Proof. intros Hn. apply hex_digits_printable; [assumption|constructor]. Qed.

Lemma zfill_length (width : nat) (s : str) :
  (length s <= width)%nat -> length (zfill width s) = width.
Proof.
  intros H. unfold zfill. rewrite length_app, repeat_length. lia.
Qed.

Lemma zfill_printable (width : nat) (s : str) :
  Forall (fun c => 32 <= c <= 126) s ->
  Forall (fun c => 32 <= c <= 126) (zfill width s).
Proof.
  intros H. unfold zfill. apply Forall_app. split; [|assumption].
  apply Forall_forall. intros c Hc. apply repeat_spec in Hc. lia.
Qed.

Lemma ljust_length (width : nat) (s : str) :
  (length s <= width)%nat -> length (ljust width s) = width.
Proof.
  intros H. unfold ljust. rewrite length_app, repeat_length. lia.
Qed.

Lemma ljust_printable (width : nat) (s : str) :
  Forall (fun c => 32 <= c <= 126) s ->
  Forall (fun c => 32 <= c <= 126) (ljust width s).
Proof.
  intros H. unfold ljust. apply Forall_app. split; [assumption|].
  apply Forall_forall. intros c Hc. apply repeat_spec in Hc. lia.
Qed.

(** The digits denote the number, so the fuel of [hex] is enough. *)
Lemma hex_digits_value (fuel : nat) : forall (n : Z) (acc : str) (v : Z),
  0 <= n < 2 ^ (4 * Z.of_nat fuel) ->
  fold_left (fun a c => a * 16 + (if c <? 58 then c - 48 else c - 87))
            (hex_digits fuel n acc) v
  = fold_left (fun a c => a * 16 + (if c <? 58 then c - 48 else c - 87))
              acc (v * 2 ^ (4 * Z.of_nat (length (hex_digits fuel n acc)
                                          - length acc)) + n).
Proof.
  induction fuel as [|fuel IH]; intros n acc v Hn.
  - change (2 ^ (4 * Z.of_nat 0)) with 1 in Hn. assert (n = 0) by lia. subst n.
    cbn [hex_digits]. rewrite Nat.sub_diag. change (2 ^ (4 * Z.of_nat 0)) with 1.
    f_equal. lia.
  - cbn [hex_digits]. destruct (Z.ltb_spec n 16) as [Hlt|Hge].
    + cbn [fold_left length].
      replace (S (length acc) - length acc)%nat with 1%nat by lia.
      change (2 ^ (4 * Z.of_nat 1)) with 16. f_equal. unfold hex_digit.
      destruct (Z.ltb_spec n 10).
      * destruct (Z.ltb_spec (48 + n) 58); lia.
      * destruct (Z.ltb_spec (87 + n) 58); lia.
    + assert (Hpow : 2 ^ (4 * Z.of_nat (S fuel)) = 16 * 2 ^ (4 * Z.of_nat fuel)).
      { replace (4 * Z.of_nat (S fuel)) with (4 + 4 * Z.of_nat fuel) by lia.
        rewrite Z.pow_add_r by lia. reflexivity. }
      rewrite IH by (split; [apply Z.div_pos; lia|
                             apply Z.div_lt_upper_bound; lia]).
      cbn [fold_left].
      pose proof (hex_digits_grows fuel (n / 16) (hex_digit (n mod 16) :: acc))
        as Hgrow.
      cbn [length] in Hgrow |- *.
      set (total := length (hex_digits fuel (n / 16)
                              (hex_digit (n mod 16) :: acc))) in *.
      replace (total - length acc)%nat with (S (total - S (length acc)))
        by lia.
      replace (4 * Z.of_nat (S (total - S (length acc))))
        with (4 * Z.of_nat (total - S (length acc)) + 4) by lia.
      rewrite Z.pow_add_r by lia. change (2 ^ 4) with 16.
      f_equal. unfold hex_digit.
      pose proof (Z.mod_pos_bound n 16 ltac:(lia)) as Hmod.
      pose proof (Z.div_mod n 16 ltac:(lia)) as Hdm.
      destruct (Z.ltb_spec (n mod 16) 10).
      * destruct (Z.ltb_spec (48 + n mod 16) 58); lia.
      * destruct (Z.ltb_spec (87 + n mod 16) 58); lia.
Qed.

Lemma hex_value_hex (n : Z) : 0 <= n -> hex_value (hex n) = n.
Proof.
  intros Hn. unfold hex_value, hex. rewrite hex_digits_value.
  - cbn [fold_left]. lia.
  - split; [assumption|].
    destruct (Z.eq_dec n 0) as [->|Hne]; [apply Z.pow_pos_nonneg; lia|].
    pose proof (Z.log2_nonneg n).
    apply Z.log2_lt_pow2; [lia|].
    pose proof (Z.div_mod (Z.log2 n) 4 ltac:(lia)).
    pose proof (Z.mod_pos_bound (Z.log2 n) 4 ltac:(lia)).
    assert (0 <= Z.log2 n / 4) by (apply Z.div_pos; lia).
    lia.
Qed.

Lemma hex_value_zfill (width : nat) (s : str) :
  hex_value (zfill width s) = hex_value s.
Proof.
  unfold hex_value, zfill. rewrite fold_left_app. f_equal.
  induction (width - length s)%nat as [|k IH]; [reflexivity|].
  cbn [repeat fold_left]. exact IH.
Qed.

Lemma format_02x_facts (b : byte) :
  length (format_02x b) = 2%nat
  /\ Forall (fun c => 32 <= c <= 126) (format_02x b).
Proof.
  pose proof (byte_val_range b) as Hb. unfold format_02x. split.
  - apply zfill_length. apply hex_length; [lia|].
    change (2 ^ (4 * Z.of_nat 2)) with 256. lia.
  - apply zfill_printable, hex_printable. lia.
Qed.

Lemma format_08x_facts (n : Z) :
  0 <= n < 2 ^ 32 ->
  length (format_08x n) = 8%nat
  /\ Forall (fun c => 32 <= c <= 126) (format_08x n).
Proof.
  intros Hn. unfold format_08x. destruct (Z.ltb_spec n 0); [lia|]. split.
  - apply zfill_length. apply hex_length; [lia|].
    change (4 * Z.of_nat 8) with 32. lia.
  - apply zfill_printable, hex_printable. lia.
Qed.

(** The hex column of a chunk, before it is padded. *)
Lemma join_hex_facts (chunk : bytes) :
  (length (join (s_ " ") (map format_02x chunk)) <= 3 * length chunk)%nat
  /\ Forall (fun c => 32 <= c <= 126) (join (s_ " ") (map format_02x chunk)).
Proof.
  induction chunk as [|b chunk [IHlen IHall]]; [split; [cbn; lia|constructor]|].
  destruct (format_02x_facts b) as [Hlen Hall].
  cbn [map join]. destruct chunk as [|b' chunk].
  - cbn [map]. split; [cbn [length]; lia|assumption].
  - cbn [map] in *. split.
    + rewrite !length_app. change (length (s_ " ")) with 1%nat.
      cbn [length] in *. lia.
    + apply Forall_app. split; [assumption|].
      apply Forall_app. split; [|assumption].
      constructor; [cbn; lia|constructor].
Qed.

Lemma ascii_column_facts (chunk : bytes) :
  length (ascii_column chunk) = length chunk
  /\ Forall (fun c => 32 <= c <= 126) (ascii_column chunk).
Proof.
  unfold ascii_column. split; [apply length_map|].
  apply Forall_forall. intros c Hc. apply in_map_iff in Hc.
  destruct Hc as (b & <- & _).
  destruct (Z.leb_spec 32 (byte_val b)), (Z.leb_spec (byte_val b) 126);
    cbn [andb]; lia.
Qed.

Lemma range_by_16_In (stop i : Z) :
  In i (range_by_16 stop) -> 0 <= i < stop.
Proof.
  unfold range_by_16. intros Hi. apply in_map_iff in Hi.
  destruct Hi as (k & <- & Hk). apply range_In in Hk.
  Z.div_mod_to_equations. lia.
Qed.

Lemma format_08x_value (n : Z) : 0 <= n -> hex_value (format_08x n) = n.
Proof.
  intros Hn. unfold format_08x. destruct (Z.ltb_spec n 0); [lia|].
  rewrite hex_value_zfill. apply hex_value_hex. assumption.
Qed.

Lemma range_nth (n k : Z) :
  0 <= k < n -> nth_error (range n) (Z.to_nat k) = Some k.
Proof.
  intros Hk. unfold range. rewrite nth_error_map.
  rewrite (nth_error_nth' _ 0%nat) by (rewrite length_seq; lia).
  rewrite seq_nth by lia. cbn [option_map]. f_equal. lia.
Qed.

(** One line of the dump. *)
Lemma hex_dump_line_facts (data : bytes) (start i : Z) :
  0 <= start -> start + len data <= 2 ^ 32 -> 0 <= i < len data ->
  exists offset hex_column,
    hex_dump_line data start i
    = offset ++ s_ "  " ++ hex_column ++ s_ " | "
      ++ ascii_column (slice data i (i + 16))
    /\ len offset = 8 /\ hex_value offset = start + i
    /\ len hex_column = 48
    /\ 1 <= len (slice data i (i + 16)) <= 16
    /\ Forall (fun c => 32 <= c <= 126) (hex_dump_line data start i).
Proof.
  intros Hstart Hmax Hi.
  set (chunk := slice data i (i + 16)).
  assert (Hchunk : (1 <= length chunk <= 16)%nat).
  { unfold chunk, slice. rewrite length_firstn, length_skipn.
    unfold len in Hi. lia. }
  destruct (format_08x_facts (start + i)) as [Hoff Hoffp]; [lia|].
  destruct (join_hex_facts chunk) as [Hhex Hhexp].
  destruct (ascii_column_facts chunk) as [Hasc Hascp].
  exists (format_08x (start + i)),
         (ljust 48 (join (s_ " ") (map format_02x chunk))).
  split; [reflexivity|]. unfold len.
  rewrite Hoff, ljust_length by lia.
  split; [reflexivity|]. split; [apply format_08x_value; lia|].
  split; [reflexivity|]. split; [lia|].
  unfold hex_dump_line. fold chunk. cbv zeta.
  change (s_ "  ") with [32; 32]. change (s_ " | ") with [32; 124; 32].
  apply Forall_app; split; [assumption|].
  apply Forall_app; split; [constructor; [lia|constructor; [lia|constructor]]|].
  apply Forall_app; split; [apply ljust_printable; assumption|].
  apply Forall_app; split; [|assumption].
  constructor; [lia|constructor; [lia|constructor; [lia|constructor]]].
Qed.

(** X25.  The hex dump is laid out in columns and holds printable
    characters only.  For a start offset that is not negative, and
    offsets below [2 ^ 32], it prints one line for every 16 bytes, begun
    or full, of the first [min(length, len(data))] bytes.  Line number
    [k] is an offset of 8 hexadecimal digits that denote [start + 16 * k],
    two spaces, a hex column of 48 characters, a bar between spaces, and
    one character for each of the 1 to 16 bytes of the data from position
    [16 * k] on: the byte itself when it is printable ASCII, else a dot.
    No character of a line lies outside printable ASCII, whatever bytes
    the data holds. *)
Theorem print_hex_dump_layout (data : bytes) (start length : Z) :
  0 <= start -> start + len data <= 2 ^ 32 ->
  len (print_hex_dump data start length)
  = (Z.max 0 (Z.min length (len data)) + 15) / 16
  /\ (forall k, 0 <= k < len (print_hex_dump data start length) ->
        exists offset hex_column,
          nth_error (print_hex_dump data start length) (Z.to_nat k)
          = Some (offset ++ s_ "  " ++ hex_column ++ s_ " | "
                  ++ ascii_column (slice data (16 * k) (16 * k + 16)))
          /\ len offset = 8 /\ hex_value offset = start + 16 * k
          /\ len hex_column = 48
          /\ 1 <= len (slice data (16 * k) (16 * k + 16)) <= 16)
  /\ Forall (Forall (fun c => 32 <= c <= 126))
            (print_hex_dump data start length).
Proof.
  intros Hstart Hmax.
  assert (Hcount : len (print_hex_dump data start length)
                   = (Z.max 0 (Z.min length (len data)) + 15) / 16).
  { unfold print_hex_dump, range_by_16, range, len.
    rewrite !length_map, length_seq.
    pose proof (len_nonneg data) as H0. unfold len in H0.
    Z.div_mod_to_equations. lia. }
  split; [exact Hcount|]. split.
  - intros k Hk. rewrite Hcount in Hk.
    assert (Hi : 0 <= 16 * k < Z.min length (len data))
      by (Z.div_mod_to_equations; lia).
    destruct (hex_dump_line_facts data start (16 * k) Hstart Hmax)
      as (offset & hex_column & Hline & Hoff & Hval & Hhex & Hchunk & _);
      [lia|].
    exists offset, hex_column. split; [|repeat split; assumption || lia].
    unfold print_hex_dump, range_by_16. rewrite !nth_error_map.
    rewrite range_nth by (Z.div_mod_to_equations; lia).
    cbn [option_map]. rewrite Hline. reflexivity.
  - apply Forall_forall. intros line Hline. unfold print_hex_dump in Hline.
    apply in_map_iff in Hline. destruct Hline as (i & <- & Hi).
    apply range_by_16_In in Hi.
    destruct (hex_dump_line_facts data start i Hstart Hmax)
      as (_ & _ & _ & _ & _ & _ & _ & Hall); [lia|exact Hall].
Qed.

Lemma print_hex_dump_layout_witness :
  len (print_hex_dump Samples.escaped_quote_input 4660 20)
  = (Z.max 0 (Z.min 20 (len Samples.escaped_quote_input)) + 15) / 16
  /\ Forall (Forall (fun c => 32 <= c <= 126))
            (print_hex_dump Samples.escaped_quote_input 4660 20).
Proof.
  destruct (print_hex_dump_layout Samples.escaped_quote_input 4660 20)
    as (Hcount & _ & Hall).
  - vm_compute. intros Heq. discriminate Heq.
  - vm_compute. intros Heq. discriminate Heq.
  - split; assumption.
Defined.

(** *** A truncated last entry *)

(** The iteration at the header of an entry whose body is cut short
    stops the loop. *)
Lemma entry_step_truncated (hdr partial : bytes) :
  len hdr = 8 ->
  len partial < int_from_bytes_big (slice hdr 0 4) <= 10 * 1024 * 1024 ->
  snd (entry_step (hdr ++ partial) 0) = BreakTruncated.
Proof.
  intros Hhdr Hsize. pose proof (len_nonneg partial) as H0.
  assert (Hs : slice (hdr ++ partial) 0 (0 + 4) = slice hdr 0 4).
  { unfold slice. change (Z.to_nat (0 + 4 - 0)) with 4%nat.
    change (Z.to_nat (4 - 0)) with 4%nat. change (Z.to_nat 0) with 0%nat.
    cbn [skipn]. rewrite firstn_app.
    replace (4 - length hdr)%nat with 0%nat by (unfold len in Hhdr; lia).
    cbn [firstn]. apply app_nil_r. }
  unfold entry_step. rewrite Hs, len_app, Hhdr.
  destruct (Z.ltb_spec 0 (8 + len partial)); [|lia]. cbn [negb].
  destruct (Z.gtb_spec (0 + 8) (8 + len partial)); [lia|].
  destruct (getitem_in_range (hdr ++ partial) (0 + 4)) as [flags ->];
    [rewrite len_app; lia|].
  destruct (Z.eqb_spec (int_from_bytes_big (slice hdr 0 4)) 0); [lia|].
  destruct (Z.gtb_spec (int_from_bytes_big (slice hdr 0 4)) MAX_ENTRY_SIZE);
    [unfold MAX_ENTRY_SIZE in *; lia|].
  cbn [orb].
  destruct (Z.gtb_spec (0 + 8 + int_from_bytes_big (slice hdr 0 4))
                       (8 + len partial)); [reflexivity|lia].
Qed.

Section TruncatedEntry.
Context {db : UnicodeDB} {br : Broker}.

(** X26.  An entry that is cut short at the end of a file is left out and
    does no harm: when, after the header and well-formed entries, the
    file ends with the eight header bytes of an entry and fewer body bytes
    than its size field (of at most 10 MiB) announces, the file gives the
    count and the publications of the file that ends with the last
    complete entry. *)
Theorem entry_file_truncated_entry (cfg : config) (fs : filesystem)
  (path1 path2 : str) (header hdr partial : bytes)
  (entries : list (bytes * bytes)) (out : sink) :
  fs path1 = Some (header ++ frames entries ++ hdr ++ partial) ->
  fs path2 = Some (header ++ frames entries) ->
  len header = 64 -> Forall entry_frame entries ->
  len hdr = 8 ->
  len partial < int_from_bytes_big (slice hdr 0 4) <= 10 * 1024 * 1024 ->
  extract_messages_from_erlang_entries cfg fs path1 out
  = extract_messages_from_erlang_entries cfg fs path2 out.
Proof.
  intros Hf1 Hf2 Hh Hall Hhdr Hsize.
  unfold extract_messages_from_erlang_entries. rewrite Hf1, Hf2.
  rewrite <- (app_nil_r (frames entries)) at 3 4.
  rewrite <- Hh. rewrite 2!entries_loop_suffix.
  rewrite (entries_loop_common_frames cfg entries (hdr ++ partial) [] Hall)
    with (fuel2 := S (length (header ++ frames entries ++ []))).
  - reflexivity.
  - intros fuel1 fuel2 n out0 H1 H2.
    destruct fuel1 as [|fuel1]; [lia|]. destruct fuel2 as [|fuel2]; [lia|].
    cbn [entries_loop]. rewrite entry_step_truncated by assumption.
    reflexivity.
  - rewrite (length_app header). lia.
  - rewrite (length_app header). lia.
Qed.

End TruncatedEntry.

Lemma entry_file_truncated_entry_witness :
  @extract_messages_from_erlang_entries ascii_only_db accepting_broker
    (Samples.publishing 0)
    (Samples.two_segments
       (Samples.header_64
        ++ frames [(Samples.be32 18 ++ [x00; x00; x00; x00],
                    [x83; x6d] ++ Samples.be32 12
                    ++ Samples.id_message "10001")]
        ++ (Samples.be32 18 ++ [x00; x00; x00; x00]) ++ [x83; x6d; x00])
       (Samples.header_64
        ++ frames [(Samples.be32 18 ++ [x00; x00; x00; x00],
                    [x83; x6d] ++ Samples.be32 12
                    ++ Samples.id_message "10001")]))
    (s_ "d/1.qs") []
  = @extract_messages_from_erlang_entries ascii_only_db accepting_broker
      (Samples.publishing 0)
      (Samples.two_segments
         (Samples.header_64
          ++ frames [(Samples.be32 18 ++ [x00; x00; x00; x00],
                      [x83; x6d] ++ Samples.be32 12
                      ++ Samples.id_message "10001")]
          ++ (Samples.be32 18 ++ [x00; x00; x00; x00]) ++ [x83; x6d; x00])
         (Samples.header_64
          ++ frames [(Samples.be32 18 ++ [x00; x00; x00; x00],
                      [x83; x6d] ++ Samples.be32 12
                      ++ Samples.id_message "10001")]))
      (s_ "d/2.qs") [].
Proof.
  apply (@entry_file_truncated_entry ascii_only_db accepting_broker
           (Samples.publishing 0) _ _ _
           Samples.header_64 (Samples.be32 18 ++ [x00; x00; x00; x00])
           [x83; x6d; x00]
           [(Samples.be32 18 ++ [x00; x00; x00; x00],
             [x83; x6d] ++ Samples.be32 12 ++ Samples.id_message "10001")]).
  - reflexivity.
  - reflexivity.
  - reflexivity.
  - constructor; [|constructor].
    split; [reflexivity|split; [vm_compute; reflexivity|]].
    split; [reflexivity|vm_compute; intros Heq; discriminate Heq].
  - reflexivity.
  - split; [reflexivity|vm_compute; intros Heq; discriminate Heq].
Defined.

(** *** The artifact cut of the plain-text strategy *)

Lemma find_at_present (sub a b : bytes) : forall i,
  0 <= i -> i <= find_at sub (a ++ sub ++ b) i.
Proof.
  induction a as [|x a IH]; intros i Hi.
  - cbn [app]. destruct (sub ++ b) as [|y l] eqn:E.
    + destruct sub; [cbn; lia|discriminate E].
    + cbn [find_at]. rewrite <- E.
      assert (Hs : startswith (sub ++ b) sub = true)
        by (apply startswith_prefix; eauto).
      rewrite Hs. lia.
  - cbn [app find_at]. destruct (startswith (x :: a ++ sub ++ b) sub); [lia|].
    specialize (IH (i + 1) ltac:(lia)). lia.
Qed.

(** Where the first byte of a pattern does not occur, the pattern does
    not occur. *)
Lemma rfind_at_no_head (c : byte) (sub l : bytes) : forall i,
  ~ In c l -> rfind_at (c :: sub) l i = -1.
Proof.
  induction l as [|x l IH]; intros i Hnin; cbn [rfind_at startswith];
    [reflexivity|].
  rewrite IH by (intros H; apply Hnin; right; assumption). cbn [Z.eqb].
  assert (Hx : byte_eqb c x = false).
  { apply byte_eqb_neq. intros ->. apply Hnin. left. reflexivity. }
  rewrite Hx. reflexivity.
Qed.

(** The last occurrence of the two letters, when no [j] follows it. *)
Lemma rfind_at_artifact (text junk : bytes) : forall i,
  0 <= i -> ~ In x6a junk ->
  rfind_at [x6a; x74] (text ++ x6a :: x74 :: junk) i = i + len text.
Proof.
  induction text as [|x text IH]; intros i Hi Hnin.
  - cbn [app]. change (rfind_at [x6a; x74] (x6a :: x74 :: junk) i)
      with (let r := rfind_at [x6a; x74] (x74 :: junk) (i + 1) in
            if r =? -1
            then (if startswith (x6a :: x74 :: junk) [x6a; x74] then i else -1)
            else r).
    rewrite (rfind_at_no_head x6a [x74] (x74 :: junk)).
    + cbv zeta. change (-1 =? -1) with true. cbv iota.
      assert (Hs : startswith (x6a :: x74 :: junk) [x6a; x74] = true)
        by (apply startswith_prefix; exists junk; reflexivity).
      rewrite Hs. change (len (@nil byte)) with 0. lia.
    + intros [Heq|Hin]; [discriminate Heq|contradiction].
  - cbn [app rfind_at]. rewrite IH by (assumption || lia).
    pose proof (len_nonneg text).
    destruct (Z.eqb_spec (i + 1 + len text) (-1)); [lia|].
    unfold len. cbn [length]. lia.
Qed.

(** Stripping leaves a list alone that neither begins nor ends with an
    element to strip. *)
Lemma strip_with_id {A : Type} (q : A -> bool) (x y : A) (l : list A) :
  q x = false -> q y = false -> strip_with q (x :: l ++ [y]) = x :: l ++ [y].
Proof.
  intros Hx Hy. unfold strip_with. cbn [lstrip_with]. rewrite Hx.
  apply (rstrip_with_last q (x :: l) y Hy).
Qed.

Lemma rstrip_with_none {A : Type} (q : A -> bool) (l : list A) :
  Forall (fun x => q x = false) l -> rstrip_with q l = l.
Proof.
  unfold rstrip_with. induction 1 as [|x l Hx _ IH]; [reflexivity|].
  cbn [fold_right]. rewrite IH. destruct l; [rewrite Hx|]; reflexivity.
Qed.

Lemma plain_byte_facts (b : byte) :
  plain_byte b = true ->
  32 <= byte_val b <= 126 /\ b <> x7b /\ b <> x3c.
Proof.
  unfold plain_byte. intros H.
  apply andb_prop in H. destruct H as [H H3].
  apply andb_prop in H. destruct H as [H H2].
  apply andb_prop in H. destruct H as [H0 H1].
  apply Z.leb_le in H0, H1. apply negb_true_iff, Z.eqb_neq in H2, H3.
  repeat split; try lia; intros ->; [apply H2|apply H3]; reflexivity.
Qed.

Section ArtifactCut.
Context {db : UnicodeDB}.

(** X27.  The plain-text strategy cuts the text at the letters [jt]: on
    an input of printable ASCII without an opening brace and without [<],
    that does not begin with a space and in which the letters [jt] are
    followed by at most 18 bytes, none of them a space or a [j], the
    sanitizer returns what stands before those letters, and drops the
    letters and what follows them. *)
Theorem clean_message_content_cuts_artifact (text junk : bytes) :
  Forall (fun b => plain_byte b = true) text ->
  Forall (fun b => plain_byte b = true /\ byte_val b <> 32 /\ b <> x6a) junk ->
  match text with b :: _ => byte_val b <> 32 | [] => True end ->
  len junk <= 18 ->
  clean_message_content_via (text ++ x6a :: x74 :: junk)
  = (PlainTextBranch, text).
Proof.
  intros Htext Hjunk Hfirst Hlen.
  set (raw := text ++ x6a :: x74 :: junk).
  assert (Hraw : Forall (fun b => plain_byte b = true) raw).
  { unfold raw. apply Forall_app. split; [assumption|].
    constructor; [reflexivity|]. constructor; [reflexivity|].
    rewrite Forall_forall in *. intros b Hb. apply Hjunk. assumption. }
  assert (Hbrace : ~ In x7b raw).
  { intros Hin. rewrite Forall_forall in Hraw.
    destruct (plain_byte_facts _ (Hraw _ Hin)) as (_ & H & _). congruence. }
  assert (Hangle : ~ In x3c raw).
  { intros Hin. rewrite Forall_forall in Hraw.
    destruct (plain_byte_facts _ (Hraw _ Hin)) as (_ & _ & H). congruence. }
  assert (Hspace : forall b, 32 <= byte_val b <= 126 -> byte_val b <> 32 ->
                             bytes_isspace b = false).
  { intros b Hb Hne. unfold bytes_isspace. cbv zeta.
    destruct (Z.eqb_spec (byte_val b) 32); [lia|].
    destruct (Z.leb_spec 9 (byte_val b)), (Z.leb_spec (byte_val b) 13);
      cbn [andb orb]; try reflexivity; lia. }
  assert (Hstrip : bytes_strip raw = raw).
  { assert (Hends : exists x l y, raw = x :: l ++ [y]
                      /\ bytes_isspace x = false /\ bytes_isspace y = false).
    { assert (Htail : exists l y, x6a :: x74 :: junk = l ++ [y]
                        /\ bytes_isspace y = false).
      { destruct (exists_last (l := x6a :: x74 :: junk) ltac:(discriminate))
          as (l & y & Heq).
        exists l, y. split; [assumption|].
        assert (Hy : In y (x6a :: x74 :: junk))
          by (rewrite Heq; apply in_or_app; right; left; reflexivity).
        destruct Hy as [<-|[<-|Hy]]; [reflexivity|reflexivity|].
        rewrite Forall_forall in Hjunk. destruct (Hjunk y Hy) as (Hp & Hs & _).
        apply Hspace; [apply plain_byte_facts; assumption|assumption]. }
      destruct Htail as (l & y & Heq & Hy). unfold raw. rewrite Heq.
      destruct text as [|x text].
      - destruct l as [|x l]; [discriminate Heq|].
        injection Heq as <- _. exists x6a, l, y. cbn [app].
        split; [reflexivity|]. split; [reflexivity|assumption].
      - exists x, (text ++ l), y. cbn [app]. rewrite <- app_assoc.
        split; [reflexivity|]. split; [|assumption].
        apply Hspace; [|assumption].
        apply plain_byte_facts. apply Forall_inv in Htext. assumption. }
    destruct Hends as (x & l & y & -> & Hx & Hy).
    apply strip_with_id; assumption. }
  pose proof (len_nonneg text) as H0. pose proof (len_nonneg junk) as H1.
  assert (Hcontains : contains (b_ "jt") (slice_last raw 20) = true).
  { unfold contains, slice_last, find.
    set (k := Z.to_nat (len raw - 20)).
    assert (Hk : (k <= length text)%nat).
    { unfold k, raw. rewrite len_app. unfold len in *. cbn [length]. lia. }
    pose proof (len_nonneg (skipn k raw)).
    destruct (Z.gtb_spec 0 (len (skipn k raw))); [lia|].
    unfold slice_from. cbn [Z.to_nat skipn]. unfold raw.
    rewrite skipn_app.
    replace (k - length text)%nat with 0%nat by lia. cbn [skipn].
    change (b_ "jt") with [x6a; x74].
    pose proof (find_at_present [x6a; x74] (skipn k text) junk 0 ltac:(lia))
      as Hfound.
    cbn [app] in Hfound.
    destruct (Z.eqb_spec (find_at [x6a; x74] (skipn k text ++ x6a :: x74 :: junk) 0)
                         (-1)); [lia|reflexivity]. }
  assert (Hrfind : rfind raw (b_ "jt") 0 (len raw) = len text).
  { unfold rfind. pose proof (len_nonneg raw).
    destruct (Z.gtb_spec 0 (len raw)); [lia|].
    rewrite slice_whole. unfold raw. change (b_ "jt") with [x6a; x74].
    rewrite rfind_at_artifact; [lia|lia|].
    intros Hin. rewrite Forall_forall in Hjunk.
    destruct (Hjunk _ Hin) as (_ & _ & Hne). congruence. }
  assert (Hascii : Forall (fun b => byte_val b < 128) text).
  { rewrite Forall_forall in *. intros b Hb.
    destruct (plain_byte_facts _ (Htext b Hb)) as (Hr & _). lia. }
  unfold clean_message_content_via.
  rewrite clean_json_without_brace, clean_xml_without_bracket by assumption.
  f_equal. unfold clean_plain_text. rewrite Hstrip, Hcontains, Hrfind.
  assert (Hcut : slice_to raw (len text) = text).
  { unfold slice_to, raw, len. rewrite Nat2Z.id, firstn_app, Nat.sub_diag,
      firstn_all. cbn [firstn]. apply app_nil_r. }
  rewrite Hcut. unfold utf8_decode. rewrite decode_loop_ascii by assumption.
  set (keep := fun c : Z => isprintable c || (c =? 10) || (c =? 13) || (c =? 9)).
  assert (Hkeep : Forall (fun c => negb (keep c) = false) (map byte_val text)).
  { apply Forall_forall. intros c Hc. apply in_map_iff in Hc.
    destruct Hc as (b & <- & Hb). rewrite Forall_forall in Htext.
    destruct (plain_byte_facts _ (Htext b Hb)) as (Hr & _).
    unfold keep, isprintable.
    destruct (Z.ltb_spec (byte_val b) 128); [|lia].
    destruct (Z.leb_spec 32 (byte_val b)); [|lia].
    destruct (Z.leb_spec (byte_val b) 126); [|lia]. reflexivity. }
  assert (Hend : (if existsb keep (map byte_val text)
                  then printable_end_of keep (map byte_val text)
                  else len (map byte_val text))
                 = len (map byte_val text)).
  { unfold printable_end_of. rewrite rstrip_with_none by assumption.
    destruct (existsb keep (map byte_val text)); reflexivity. }
  rewrite Hend. unfold slice_to, len. rewrite Nat2Z.id, firstn_all.
  rewrite utf8_encode_ascii by assumption. reflexivity.
Qed.

End ArtifactCut.

Lemma clean_message_content_cuts_artifact_witness :
  @clean_message_content_via ascii_only_db
    (b_ "order 66 shipped" ++ x6a :: x74 :: b_ "AAECAwQ=")
  = (PlainTextBranch, b_ "order 66 shipped").
Proof.
  apply (@clean_message_content_cuts_artifact ascii_only_db
           (b_ "order 66 shipped") (b_ "AAECAwQ=")).
  - apply Forall_forall. apply forallb_forall. vm_compute. reflexivity.
  - apply Forall_forall.
    intros b [<-|[<-|[<-|[<-|[<-|[<-|[<-|[<-|[]]]]]]]]];
      (split; [reflexivity|split; intros Heq; discriminate Heq]).
  - intros Heq. discriminate Heq.
  - vm_compute. intros Heq. discriminate Heq.
Defined.
